(** * holoflows-kit: the Watcher reconciliation engine and the DomProxy handle

    A shallow embedding of [src/DOM/Watcher.ts] (class [Watcher], the helper
    [warning], [applyUseForeachCallback]) and of the [DomProxy] factory that
    is shipped with it.  JavaScript values are embedded in one universe
    [value]; mutable fields become record fields threaded through a small
    state-and-exception monad; calls into user code (callback factories,
    lifecycle hooks, event listeners, [console.warn]) are recorded, in order,
    in a trace. *)

From Stdlib Require Import List ZArith String Bool Arith Lia.
Import ListNotations.
Local Open Scope string_scope.
Local Open Scope Z_scope.

Set Implicit Arguments.
Set Warnings "-register-all".

(* ================================================================== *)
(** ** JavaScript values *)

(** The values a LiveSelector may yield and a key mapper may return.
    Objects other than DOM nodes are references [VObj]; numbers are
    restricted to the integers and [NaN]; an array [VArr] is identified
    with its contents. *)
Inductive value : Type :=
| VUndefined
| VNull
| VBool (b : bool)
| VNum (n : Z)
| VNaN
| VStr (s : string)
| VNode (id : nat)
| VObj (ref : nat)
| VArr (xs : list value).

(** Same-value-zero, the key equality of a JS [Map]. *)
Fixpoint value_eqb (a b : value) {struct a} : bool :=
  match a, b with
  | VUndefined, VUndefined => true
  | VNull, VNull => true
  | VBool x, VBool y => Bool.eqb x y
  | VNum x, VNum y => Z.eqb x y
  | VNaN, VNaN => true
  | VStr x, VStr y => String.eqb x y
  | VNode x, VNode y => Nat.eqb x y
  | VObj x, VObj y => Nat.eqb x y
  | VArr xs, VArr ys =>
      (fix all2 (l : list value) (r : list value) {struct l} : bool :=
         match l, r with
         | [], [] => true
         | x :: l', y :: r' => value_eqb x y && all2 l' r'
         | _, _ => false
         end) xs ys
  | _, _ => false
  end.

(** [a === b] *)
Definition strict_eq (a b : value) : bool :=
  match a with
  | VNaN => false
  | _ => value_eqb a b
  end.

(** [!!v] *)
Definition truthy (v : value) : bool :=
  match v with
  | VUndefined | VNull | VNaN => false
  | VBool b => b
  | VNum n => negb (Z.eqb n 0)
  | VStr s => negb (String.eqb s EmptyString)
  | VNode _ | VObj _ | VArr _ => true
  end.

(** lodash [isNil] *)
Definition isNil (v : value) : bool :=
  match v with
  | VUndefined | VNull => true
  | _ => false
  end.

(** [v instanceof Node] *)
Definition instanceofNode (v : value) : bool :=
  match v with
  | VNode _ => true
  | _ => false
  end.


(* ================================================================== *)
(** ** The lodash collaborators

    [lodash-es] is a dependency of the package, not part of it.  The three
    functions the engine imports are written after lodash 4.17
    ([baseDifference], [baseIntersection], [baseUniq] with a comparator). *)
Module Lodash.
Section WithComparator.
Variable A : Type.
Variable comparator : A -> A -> bool.

(** [arrayIncludesWith(array, value, comparator)]: the comparator receives
    the probed value first. *)
Definition arrayIncludesWith (array : list A) (v : A) : bool :=
  existsb (fun other => comparator v other) array.

(** [differenceWith(array, values, comparator)] *)
Definition differenceWith (array values : list A) : list A :=
  filter (fun v => negb (arrayIncludesWith values v)) array.

(** The main loop of [baseIntersection] for two arrays: [rest] is what is
    left of the first array, [result] the accumulator (kept reversed). *)
Fixpoint intersection_loop (maxLength : nat) (other rest result : list A)
  : list A :=
  match rest with
  | [] => rev result
  | v :: rest' =>
      if Nat.ltb (List.length result) maxLength then
        if negb (arrayIncludesWith (rev result) v)
           && arrayIncludesWith other v
        then intersection_loop maxLength other rest' (v :: result)
        else intersection_loop maxLength other rest' result
      else rev result
  end.

(** [intersectionWith(array, other, comparator)] *)
Definition intersectionWith (array other : list A) : list A :=
  intersection_loop (Nat.min (List.length array) (List.length other))
    other array [].

(** The loop of [baseUniq]. *)
Fixpoint uniq_loop (rest result : list A) : list A :=
  match rest with
  | [] => rev result
  | v :: rest' =>
      if arrayIncludesWith (rev result) v
      then uniq_loop rest' result
      else uniq_loop rest' (v :: result)
  end.

(** [uniqWith(array, comparator)] *)
Definition uniqWith (array : list A) : list A := uniq_loop array [].

End WithComparator.
End Lodash.

(** [Array.prototype.find] *)
Definition array_find (A : Type) (p : A -> bool) (l : list A) : option A :=
  List.find p l.

(** [Array.prototype.findIndex], [None] standing for [-1]. *)
Fixpoint findIndex (A : Type) (p : A -> bool) (l : list A) : option nat :=
  match l with
  | [] => None
  | x :: l' => if p x then Some O
               else match findIndex p l' with
                    | Some i => Some (S i)
                    | None => None
                    end
  end.

(** [list[i]], [undefined] out of range *)
Definition array_get (l : list value) (i : nat) : value :=
  nth i l VUndefined.

Definition list_eqb (l r : list value) : bool := value_eqb (VArr l) (VArr r).

(* ================================================================== *)
(** ** JS [Map]: insertion-ordered, keyed by same-value-zero *)
Module JsMap.
Section WithValues.
Variable V : Type.

Definition t := list (value * V).

Definition empty : t := [].

(** [m.get(k)], [None] when there is no entry *)
Fixpoint get (m : t) (k : value) : option V :=
  match m with
  | [] => None
  | (k', v) :: m' => if value_eqb k' k then Some v else get m' k
  end.

(** [m.set(k, v)]: an existing entry keeps its place *)
Fixpoint set (k : value) (v : V) (m : t) : t :=
  match m with
  | [] => [(k, v)]
  | (k', v') :: m' =>
      if value_eqb k' k then (k', v) :: m' else (k', v') :: set k v m'
  end.

(** [[...m.keys()]] *)
Definition keys (m : t) : list value := map fst m.

End WithValues.
End JsMap.

(* ================================================================== *)
(** ** Exceptions and the state monad *)

Inductive js_error : Type :=
| TypeError (message : string)
| DOMException (name : string).

Inductive outcome (S A : Type) : Type :=
| Ret (a : A) (s : S)
| Throw (e : js_error) (s : S).
Arguments Ret {S A} a s.
Arguments Throw {S A} e s.

Definition M (S A : Type) : Type := S -> outcome S A.

Definition ret {S A : Type} (a : A) : M S A := fun s => Ret a s.

Definition throw {S A : Type} (e : js_error) : M S A := fun s => Throw e s.

Definition bind {S A B : Type} (m : M S A) (k : A -> M S B) : M S B :=
  fun s => match m s with
           | Ret a s' => k a s'
           | Throw e s' => Throw e s'
           end.

Definition gets {S A : Type} (f : S -> A) : M S A := fun s => Ret (f s) s.

Definition modify {S : Type} (f : S -> S) : M S unit := fun s => Ret tt (f s).

(** Run a computation on a component of the state. *)
Definition zoom {S T A : Type} (proj : S -> T) (inj : T -> S -> S)
  (m : M T A) : M S A :=
  fun s => match m (proj s) with
           | Ret a t => Ret a (inj t s)
           | Throw e t => Throw e (inj t s)
           end.

Declare Scope js_scope.
Delimit Scope js_scope with js.
Notation "x <- m ;; k" := (bind m (fun x => k))
  (at level 61, m at next level, right associativity) : js_scope.
Notation "m ;; k" := (bind m (fun _ => k))
  (at level 61, right associativity) : js_scope.
Local Open Scope js_scope.

(** [if (c) body] *)
Definition when {S : Type} (c : bool) (body : M S unit) : M S unit :=
  if c then body else ret tt.

(** [for (const x of l) body(x)] *)
Fixpoint for_each {S A : Type} (l : list A) (body : A -> M S unit)
  : M S unit :=
  match l with
  | [] => ret tt
  | x :: l' => body x ;; for_each l' body
  end.

(* ================================================================== *)
(** ** The [warning] helper *)
Module Warning.

(** [once: boolean | number] *)
Inductive once_option : Type :=
| OnceBool (b : bool)
| OnceNum (n : Z).

Definition once_truthy (o : once_option) : bool :=
  match o with
  | OnceBool b => b
  | OnceNum n => negb (Z.eqb n 0)
  end.

(** The object [warning(...)] returns, with the closure variable [warned]
    and the option [once] it closes over.  ([dev] is never set by a caller
    in this file and defaults to [false].) *)
Record t : Type := mk {
  ignored : bool;
  warned : nat;
  once : once_option
}.

Definition warning (o : once_option) : t :=
  {| ignored := false; warned := 0; once := o |}.

Definition set_ignored (b : bool) (w : t) : t :=
  {| ignored := b; warned := warned w; once := once w |}.

(** [obj.warn(f)]: the updated object and whether [f] was called. *)
Definition warn (w : t) : t * bool :=
  if ignored w then (w, false)
  else if negb (Nat.eqb (warned w) 0) && once_truthy (once w) then (w, false)
  else if match once w with
          | OnceNum n => Z.leb (Z.of_nat (warned w)) n
          | OnceBool _ => false
          end
       then (w, false)
       else ({| ignored := ignored w; warned := S (warned w);
                once := once w |}, true).

End Warning.

(* ================================================================== *)
(** ** The document

    The browser's DOM is the environment of [DomProxy].  Only what the
    handle touches is kept: inline style, listener registrations (one entry
    per argument list of [addEventListener]), the child list, and plain
    properties.  Operations follow the DOM standard. *)
Module Dom.

Record element : Type := mkElement {
  style : option (string -> string);
  listeners : list (list value);
  children : list nat;
  props : string -> value
}.

Record t : Type := mk {
  elem : nat -> element;
  next_node : nat
}.

(** What [document.createElement] returns. *)
Definition blank : element :=
  {| style := Some (fun _ => EmptyString); listeners := []; children := [];
     props := fun _ => VUndefined |}.

Definition empty : t := {| elem := fun _ => blank; next_node := 0 |}.

Definition update (id : nat) (f : element -> element) (d : t) : t :=
  {| elem := fun i => if Nat.eqb i id then f (elem d i) else elem d i;
     next_node := next_node d |}.

Definition createElement : M t nat :=
  fun d => Ret (next_node d)
               {| elem := fun i => if Nat.eqb i (next_node d) then blank
                                   else elem d i;
                  next_node := S (next_node d) |}.

Definition set_style_of (name val : string) (e : element) : element :=
  {| style := match style e with
              | Some st => Some (fun n => if String.eqb n name then val
                                          else st n)
              | None => None
              end;
     listeners := listeners e; children := children e; props := props e |}.

Definition set_listeners (ls : list (list value)) (e : element) : element :=
  {| style := style e; listeners := ls; children := children e;
     props := props e |}.

Definition set_children (cs : list nat) (e : element) : element :=
  {| style := style e; listeners := listeners e; children := cs;
     props := props e |}.

Definition set_prop (key : string) (v : value) (e : element) : element :=
  {| style := style e; listeners := listeners e; children := children e;
     props := fun k => if String.eqb k key then v else props e k |}.

(** [e.style[name]] of an element that has a style object *)
Definition style_value (e : element) (name : string) : string :=
  match style e with
  | Some st => st name
  | None => EmptyString
  end.

(** [!!e.style] *)
Definition hasStyle (e : element) : bool :=
  match style e with
  | Some _ => true
  | None => false
  end.

(** [e.style[name] = val] *)
Definition assign_style (id : nat) (name val : string) : M t unit :=
  fun d => if hasStyle (elem d id)
           then Ret tt (update id (set_style_of name val) d)
           else Throw (TypeError "Cannot set properties of undefined") d.

Definition has_listener (e : element) (l : list value) : bool :=
  existsb (list_eqb l) (listeners e).

(** A registration equal to an existing one is discarded. *)
Definition addEventListener (id : nat) (l : list value) : M t unit :=
  modify (update id (fun e =>
    if has_listener e l then e
    else set_listeners (listeners e ++ [l]) e)).

Definition removeEventListener (id : nat) (l : list value) : M t unit :=
  modify (update id (fun e =>
    set_listeners (filter (fun x => negb (list_eqb l x)) (listeners e)) e)).

Definition without (c : nat) (cs : list nat) : list nat :=
  filter (fun x => negb (Nat.eqb x c)) cs.

Definition is_child (d : t) (p c : nat) : bool :=
  existsb (Nat.eqb c) (children (elem d p)).

(** Take [c] out of whichever child list holds it. *)
Definition detach (c : nat) (d : t) : t :=
  {| elem := fun i => set_children (without c (children (elem d i)))
                                   (elem d i);
     next_node := next_node d |}.

Definition remove (c : nat) : M t unit := modify (detach c).

Definition appendChild (p c : nat) : M t unit :=
  modify (fun d =>
    update p (fun e => set_children (children e ++ [c]) e) (detach c d)).

Definition removeChild (p c : nat) : M t unit :=
  fun d => if is_child d p c
           then Ret tt (update p (fun e =>
                          set_children (without c (children e)) e) d)
           else Throw (DOMException "NotFoundError") d.

Definition parent_of (d : t) (c : nat) : option nat :=
  List.find (fun p => is_child d p c) (seq 0 (next_node d)).

Definition nodes_of (args : list value) : list nat :=
  flat_map (fun v => match v with VNode n => [n] | _ => [] end) args.

Fixpoint insert_at (after_target : bool) (target : nat) (ns cs : list nat)
  : list nat :=
  match cs with
  | [] => []
  | c :: cs' =>
      if Nat.eqb c target
      then if after_target then c :: ns ++ cs' else ns ++ c :: cs'
      else c :: insert_at after_target target ns cs'
  end.

(** [target.before(...nodes)] and [target.after(...nodes)] *)
Definition insert_adjacent (after_target : bool) (target : nat)
  (ns : list nat) : M t unit :=
  modify (fun d =>
    match parent_of d target with
    | None => d
    | Some p =>
        update p (fun e =>
          set_children (insert_at after_target target ns (children e)) e)
          (fold_right detach d ns)
    end).

Definition methods : list string :=
  ["appendChild"; "removeChild"; "addEventListener";
   "removeEventListener"; "before"; "after"; "remove"].

(** [typeof e[key] === 'function'] *)
Definition is_method (key : string) : bool :=
  existsb (String.eqb key) methods.

(** [e[name](...args)] *)
Definition call (id : nat) (name : string) (args : list value)
  : M t value :=
  if String.eqb name "appendChild" then
    match args with
    | VNode c :: _ => appendChild id c ;; ret (VNode c)
    | _ => throw (TypeError "parameter 1 is not of type 'Node'")
    end
  else if String.eqb name "removeChild" then
    match args with
    | VNode c :: _ => removeChild id c ;; ret (VNode c)
    | _ => throw (TypeError "parameter 1 is not of type 'Node'")
    end
  else if String.eqb name "addEventListener" then
    addEventListener id args ;; ret VUndefined
  else if String.eqb name "removeEventListener" then
    removeEventListener id args ;; ret VUndefined
  else if String.eqb name "before" then
    insert_adjacent false id (nodes_of args) ;; ret VUndefined
  else if String.eqb name "after" then
    insert_adjacent true id (nodes_of args) ;; ret VUndefined
  else if String.eqb name "remove" then
    remove id ;; ret VUndefined
  else throw (TypeError "is not a function").

End Dom.

(** User functions are opaque: a hook is known by a name only, and every
    call of one is written to the trace. *)
Definition hook : Type := nat.

(* ================================================================== *)
(** ** [DomProxy]: the stable handle *)
Module DomProxy.

(** The [this] of a recorded method call: the forwarding proxy itself for
    [handle.current.m(...)], anything else for a detached call. *)
Inductive this_arg : Type :=
| ThisProxy
| ThisValue (v : value).

(** [ActionTypes] *)
Inductive change : Type :=
| ChDelete (key : string)
| ChSet (key : string) (v : value)
| ChDefineProperty (key : string) (attributes : value)
| ChPreventExtensions
| ChSetPrototypeOf (proto : value)
| ChGet (key : string)
| ChOwnKeys
| ChHas (key : string)
| ChGetOwnPropertyDescriptor (key : string)
| ChIsExtensible
| ChGetPrototypeOf
| ChCallMethods (name : string) (param : list value) (thisArg : this_arg)
| ChModifyStyle (name : string) (val originalValue : string).

(** The closure variables of one [DomProxy(...)] call. *)
Record t : Type := mk {
  isDestroyed : bool;
  virtualBefore : option nat;
  virtualBeforeShadow : option nat;
  current : option nat;
  virtualAfter : option nat;
  virtualAfterShadow : option nat;
  changes : list change;
  revoked : bool;
  observer : option (hook * value)
}.

Definition set_current (c : option nat) (p : t) : t :=
  {| isDestroyed := isDestroyed p; virtualBefore := virtualBefore p;
     virtualBeforeShadow := virtualBeforeShadow p; current := c;
     virtualAfter := virtualAfter p;
     virtualAfterShadow := virtualAfterShadow p; changes := changes p;
     revoked := revoked p; observer := observer p |}.

Definition set_changes (cs : list change) (p : t) : t :=
  {| isDestroyed := isDestroyed p; virtualBefore := virtualBefore p;
     virtualBeforeShadow := virtualBeforeShadow p; current := current p;
     virtualAfter := virtualAfter p;
     virtualAfterShadow := virtualAfterShadow p; changes := cs;
     revoked := revoked p; observer := observer p |}.

Definition set_virtualBefore (b : option nat) (p : t) : t :=
  {| isDestroyed := isDestroyed p; virtualBefore := b;
     virtualBeforeShadow := virtualBeforeShadow p; current := current p;
     virtualAfter := virtualAfter p;
     virtualAfterShadow := virtualAfterShadow p; changes := changes p;
     revoked := revoked p; observer := observer p |}.

Definition set_virtualAfter (a : option nat) (p : t) : t :=
  {| isDestroyed := isDestroyed p; virtualBefore := virtualBefore p;
     virtualBeforeShadow := virtualBeforeShadow p; current := current p;
     virtualAfter := a;
     virtualAfterShadow := virtualAfterShadow p; changes := changes p;
     revoked := revoked p; observer := observer p |}.

(** Modelled from the spec: the mutation-observer configuration of a
    handle ([virtualNode.observer.init], [virtualNode.observer.callback]),
    which the engine assigns but the DomProxy under src/ does not declare.
    The four flags of [init] are always set together, so the field only
    holds the hook and the node the callback closes over. *)
Definition set_observer (o : option (hook * value)) (p : t) : t :=
  {| isDestroyed := isDestroyed p; virtualBefore := virtualBefore p;
     virtualBeforeShadow := virtualBeforeShadow p; current := current p;
     virtualAfter := virtualAfter p;
     virtualAfterShadow := virtualAfterShadow p; changes := changes p;
     revoked := revoked p; observer := o |}.

(** All handles and the document they act on. *)
Record heap : Type := mkHeap {
  dom : Dom.t;
  proxies : nat -> t;
  next_proxy : nat
}.

Definition set_dom (d : Dom.t) (hp : heap) : heap :=
  {| dom := d; proxies := proxies hp; next_proxy := next_proxy hp |}.

Definition set_proxy (h : nat) (p : t) (hp : heap) : heap :=
  {| dom := dom hp;
     proxies := fun i => if Nat.eqb i h then p else proxies hp i;
     next_proxy := next_proxy hp |}.

Definition in_dom {A : Type} (m : M Dom.t A) : M heap A :=
  zoom dom set_dom m.

Definition proxy (h : nat) : M heap t := gets (fun hp => proxies hp h).

Definition update_proxy (h : nat) (f : t -> t) : M heap unit :=
  modify (fun hp => set_proxy h (f (proxies hp h)) hp).

Definition element_of (id : nat) : M heap Dom.element :=
  gets (fun hp => Dom.elem (dom hp) id).

(** [changes.push(c)] *)
Definition push (h : nat) (c : change) : M heap unit :=
  update_proxy h (fun p => set_changes (changes p ++ [c]) p).

Definition unused : t :=
  {| isDestroyed := false; virtualBefore := None;
     virtualBeforeShadow := None; current := None; virtualAfter := None;
     virtualAfterShadow := None; changes := []; revoked := false;
     observer := None |}.

Definition empty_heap : heap :=
  {| dom := Dom.empty; proxies := fun _ => unused; next_proxy := 0 |}.

(** [DomProxy(options)]: a new handle, bound to a fresh [div]. *)
Definition DomProxy : M heap nat :=
  div <- in_dom Dom.createElement ;;
  h <- gets next_proxy ;;
  modify (fun hp =>
    {| dom := dom hp;
       proxies := fun i => if Nat.eqb i h then set_current (Some div) unused
                           else proxies hp i;
       next_proxy := S h |}) ;;
  ret h.

(** What the [get] trap hands back. *)
Inductive got : Type :=
| GotMethod (target : nat) (name : string)
| GotStyle (target : nat)
| GotValue (v : value).

(** Every trap of a revoked proxy throws. *)
Definition live (h : nat) : M heap unit :=
  p <- proxy h ;;
  if revoked p
  then throw (TypeError "Cannot perform operation on a revoked proxy")
  else ret tt.

(** [readonlyTraps.get] *)
Definition trap_get (h : nat) (key : string) : M heap got :=
  live h ;;
  push h (ChGet key) ;;
  p <- proxy h ;;
  match current p with
  | Some cur =>
      if Dom.is_method key then ret (GotMethod cur key)
      else if String.eqb key "style" then
        e <- element_of cur ;;
        if Dom.hasStyle e then ret (GotStyle cur)
        else throw (TypeError "Cannot create proxy with a non-object")
      else
        e <- element_of cur ;;
        ret (GotValue (Dom.props e key))
  | None => ret (GotValue VUndefined)
  end.

(** The [apply] trap of a method obtained through [get]. *)
Definition trap_apply (h target : nat) (name : string)
  (args : list value) (this : this_arg) : M heap value :=
  push h (ChCallMethods name args this) ;;
  in_dom (Dom.call target name args).

(** The [set] trap of the style object obtained through [get]. *)
Definition trap_style_set (h target : nat) (name val : string)
  : M heap unit :=
  e <- element_of target ;;
  push h (ChModifyStyle name val (Dom.style_value e name)) ;;
  in_dom (Dom.assign_style target name val).

(** [modifyTraps(record).set] *)
Definition trap_set (record : bool) (h : nat) (key : string) (v : value)
  : M heap unit :=
  when record (push h (ChSet key v)) ;;
  p <- proxy h ;;
  match current p with
  | Some cur => in_dom (modify (Dom.update cur (Dom.set_prop key v)))
  | None => ret tt
  end.

(** [modifyTraps(record).deleteProperty] *)
Definition trap_deleteProperty (record : bool) (h : nat) (key : string)
  : M heap unit :=
  when record (push h (ChDelete key)) ;;
  p <- proxy h ;;
  match current p with
  | Some cur =>
      in_dom (modify (Dom.update cur (Dom.set_prop key VUndefined)))
  | None => ret tt
  end.

(** [modifyTraps(record).defineProperty], [.preventExtensions] and
    [.setPrototypeOf] act on parts of an object the document model does
    not keep; only their record is kept. *)
Definition trap_meta (record : bool) (h : nat) (c : change) : M heap unit :=
  when record (push h c).

(** The getter [current] *)
Definition get_current (h : nat) : M heap unit :=
  p <- proxy h ;;
  if isDestroyed p
  then throw (TypeError
         "Try to access `current` node after VirtualNode is destroyed")
  else ret tt.

(** [handle.current[name](...args)] *)
Definition call_method (h : nat) (name : string) (args : list value)
  : M heap value :=
  get_current h ;;
  f <- trap_get h name ;;
  match f with
  | GotMethod target n => trap_apply h target n args ThisProxy
  | _ => throw (TypeError "is not a function")
  end.

(** [handle.current.style[name] = val] *)
Definition assign_style (h : nat) (name val : string) : M heap unit :=
  get_current h ;;
  s <- trap_get h "style" ;;
  match s with
  | GotStyle target => trap_style_set h target name val
  | _ => throw (TypeError "Cannot set properties of undefined")
  end.

(** [handle.current[key]] for a plain property *)
Definition read (h : nat) (key : string) : M heap value :=
  get_current h ;;
  r <- trap_get h key ;;
  match r with
  | GotValue v => ret v
  | _ => ret VUndefined
  end.


(** [thisArg[0]] *)
Definition this_index0 (h : nat) (this : this_arg) : M heap value :=
  match this with
  | ThisProxy =>
      r <- trap_get h "0" ;;
      match r with
      | GotValue v => ret v
      | _ => ret VUndefined
      end
  | ThisValue (VArr xs) => ret (array_get xs 0)
  | ThisValue (VNode n) => e <- element_of n ;; ret (Dom.props e "0")
  | ThisValue VUndefined | ThisValue VNull =>
      throw (TypeError "Cannot read properties of undefined")
  | ThisValue _ => ret VUndefined
  end.

(** [current.removeChild(node)] for a truthy [node] *)
Definition removeChild_value (cur : nat) (node : value) : M heap unit :=
  match node with
  | VNode c => in_dom (Dom.removeChild cur c)
  | _ => throw (TypeError "parameter 1 is not of type 'Node'")
  end.

(** The body of the loop of [undoEffects(nextCurrent)]. *)
Definition undo_change (h : nat) (nextCurrent : option nat) (c : change)
  : M heap unit :=
  match c with
  | ChCallMethods name param this =>
      if String.eqb name "addEventListener" then
        p <- proxy h ;;
        match current p with
        | Some cur => in_dom (Dom.removeEventListener cur param)
        | None => ret tt
        end
      else if String.eqb name "appendChild" then
        match nextCurrent with
        | Some _ => ret tt
        | None =>
            node <- this_index0 h this ;;
            p <- proxy h ;;
            match current p with
            | Some cur =>
                if truthy node then removeChild_value cur node else ret tt
            | None => ret tt
            end
        end
      else ret tt
  | ChModifyStyle name _ originalValue =>
      p <- proxy h ;;
      match current p with
      | Some cur =>
          e <- element_of cur ;;
          if Dom.hasStyle e
          then in_dom (Dom.assign_style cur name originalValue)
          else ret tt
      | None => ret tt
      end
  | _ => ret tt
  end.

(** [undoEffects(nextCurrent)].  The loop runs over the log as it is on
    entry: the only records pushed while it runs are the [get] records of
    [thisArg[0]], and the loop does nothing on a [get] record. *)
Definition undoEffects (h : nat) (nextCurrent : option nat) : M heap unit :=
  p <- proxy h ;;
  for_each (changes p) (undo_change h nextCurrent).

Definition replayable : list string :=
  ["appendChild"; "addEventListener"; "before"; "after"].

(** The body of the loop of [redoEffects()], [cur] being [current]. *)
Definition redo_change (h cur : nat) (c : change) : M heap unit :=
  match c with
  | ChSetPrototypeOf _ | ChPreventExtensions | ChDefineProperty _ _ =>
      trap_meta false h c
  | ChSet key v => trap_set false h key v
  | ChDelete key => trap_deleteProperty false h key
  | ChCallMethods name param _ =>
      if existsb (String.eqb name) replayable
      then in_dom (Dom.call cur name param) ;; ret tt
      else ret tt
  | ChModifyStyle name val _ => in_dom (Dom.assign_style cur name val)
  | _ => ret tt
  end.

(** [redoEffects()] *)
Definition redoEffects (h : nat) : M heap unit :=
  p <- proxy h ;;
  match current p with
  | None => ret tt
  | Some cur => for_each (changes p) (redo_change h cur)
  end.

(** The getter [realCurrent] *)
Definition realCurrent (p : t) : option nat :=
  if isDestroyed p then None else current p.

Definition option_nat_eqb (a b : option nat) : bool :=
  match a, b with
  | Some x, Some y => Nat.eqb x y
  | None, None => true
  | _, _ => false
  end.

Definition for_anchor (a : option nat) (f : nat -> M Dom.t unit)
  : M heap unit :=
  match a with
  | Some n => in_dom (f n)
  | None => ret tt
  end.

(** The setter [realCurrent]; [None] is [null]. *)
Definition set_realCurrent (h : nat) (node : option nat) : M heap unit :=
  p <- proxy h ;;
  if isDestroyed p
  then throw (TypeError "You can not set current for a destroyed proxy")
  else if option_nat_eqb node (current p) then ret tt
  else
    undoEffects h node ;;
    match node with
    | None =>
        div <- in_dom Dom.createElement ;;
        update_proxy h (set_current (Some div)) ;;
        for_anchor (virtualBefore p) Dom.remove ;;
        for_anchor (virtualAfter p) Dom.remove
    | Some n =>
        update_proxy h (set_current (Some n)) ;;
        for_anchor (virtualAfter p)
          (fun a => Dom.insert_adjacent true n [a]) ;;
        for_anchor (virtualBefore p)
          (fun b => Dom.insert_adjacent false n [b]) ;;
        redoEffects h
    end.

(** The getter [before] *)
Definition before (h : nat) : M heap nat :=
  p <- proxy h ;;
  if isDestroyed p
  then throw (TypeError
         "Try to access `before` node after VirtualNode is destroyed")
  else match virtualBefore p with
       | Some b => ret b
       | None =>
           b <- in_dom Dom.createElement ;;
           update_proxy h (set_virtualBefore (Some b)) ;;
           match current p with
           | Some cur => in_dom (Dom.insert_adjacent false cur [b])
           | None => ret tt
           end ;;
           ret b
       end.

(** The getter [after] *)
Definition after (h : nat) : M heap nat :=
  p <- proxy h ;;
  if isDestroyed p
  then throw (TypeError
         "Try to access `after` node after VirtualNode is destroyed")
  else match virtualAfter p with
       | Some a => ret a
       | None =>
           a <- in_dom Dom.createElement ;;
           update_proxy h (set_virtualAfter (Some a)) ;;
           match current p with
           | Some cur => in_dom (Dom.insert_adjacent true cur [a])
           | None => ret tt
           end ;;
           ret a
       end.

(** The getters [weakBefore] and [weakAfter] *)
Definition weakBefore (p : t) : option nat :=
  if isDestroyed p then None else virtualBefore p.

Definition weakAfter (p : t) : option nat :=
  if isDestroyed p then None else virtualAfter p.

(** [destroy()] *)
Definition destroy (h : nat) : M heap unit :=
  p <- proxy h ;;
  for_anchor (virtualBefore p) Dom.remove ;;
  for_anchor (virtualAfter p) Dom.remove ;;
  update_proxy h (fun p =>
    {| isDestroyed := true; virtualBefore := None;
       virtualBeforeShadow := None; current := None; virtualAfter := None;
       virtualAfterShadow := None; changes := changes p; revoked := true;
       observer := observer p |}).

End DomProxy.

(** [Array.prototype.map] with the index passed along *)
Fixpoint map_indexed (A B : Type) (f : A -> nat -> B) (i : nat) (l : list A)
  : list B :=
  match l with
  | [] => []
  | x :: l' => f x i :: map_indexed f (S i) l'
  end.

(** [try m catch (e) handler(e)] *)
Definition try_catch {S A : Type} (m : M S A) (handler : js_error -> M S A)
  : M S A :=
  fun s => match m s with
           | Ret a s' => Ret a s'
           | Throw e s' => handler e s'
           end.

(* ================================================================== *)
(** ** The abstract class [Watcher] *)
Module Watcher.

(** [useForeachReturns<T>]: nothing, a remove callback, or a set of hooks *)
Inductive useForeachReturns : Type :=
| URVoid
| URRemove (f : hook)
| URObject (onRemove onTargetChanged onNodeMutation : option hook).

(** The two ways the callback factory is called. *)
Inductive factory_call : Type :=
| WithNode (virtualNode : nat) (key realNode : value)
| WithoutNode (node key : value).

Definition forEachFn : Type := factory_call -> useForeachReturns.

Record listening : Type := mkListening {
  onAdd : bool;
  onChange : bool;
  onIteration : bool;
  onRemove : bool
}.

Inductive event : Type :=
| EvIteration (keys_current keys_new keys_removed : list value)
              (values_current values_new values_removed : list value)
| EvChange (oldKey newKey oldValue newValue : value)
| EvRemove (key val : value)
| EvAdd (key val : value).

Inductive console_message : Type :=
| ChainedUseForeach
| IgnoredMinimalResults
| RepeatedKeys (uniq allKeys : list value)
| SuggestSingleMode
| NoEffectInSingleMode (method : string)
| ForgotStartWatch
| MutationNotObserved.

(** Calls that leave the engine, in the order they are made. *)
Inductive effect : Type :=
| ConsoleWarn (m : console_message)
| Factory (c : factory_call)
| HookRemove (f : hook) (oldNode : value)
| HookTargetChanged (f : hook) (newNode oldNode : value)
| Emit (e : event)
| Resolved (v : value).

(** A callback handed to [requestIdleCallback] by the removal loop, with
    the three variables it closes over. *)
Record idle_task : Type := mkTask {
  task_virtualNode : option nat;
  task_callbacks : useForeachReturns;
  task_node : value
}.

(** The [onIteration] listener [f] that a pending [then] registers, with
    what it closes over, and whether its promise is already resolved. *)
Record awaiter : Type := mkAwaiter {
  minimal : Z;
  onfulfilled : option (value -> value);
  resolved : bool
}.

Record watcher : Type := mkWatcher {
  isWatching : bool;
  useForeachFn : option forEachFn;
  lastKeyList : list value;
  lastNodeList : list value;
  lastCallbackMap : JsMap.t useForeachReturns;
  lastVirtualNodesMap : JsMap.t (option nat);
  singleMode : bool;
  singleModeLastValue : value;
  singleModeHasLastValue : bool;
  singleModeCallback : useForeachReturns;
  isEventsListening : listening;
  _firstVirtualNode : nat;
  mapNodeToKey : option (value -> nat -> list value -> value);
  keyComparer : value -> value -> bool;
  valueComparer : value -> value -> bool;
  isWatcherCheckerRunning : bool;
  needCheckerRunAgainAfterCurrentSchedule : bool;
  _warning_forget_watch_ : Warning.t;
  _warning_repeated_keys : Warning.t;
  _warning_single_mode : Warning.t;
  _warning_mutation_ : Warning.t
}.

Definition set_isWatching (x : bool) (w : watcher) : watcher :=
  {| isWatching := x; useForeachFn := useForeachFn w;
     lastKeyList := lastKeyList w; lastNodeList := lastNodeList w;
     lastCallbackMap := lastCallbackMap w;
     lastVirtualNodesMap := lastVirtualNodesMap w;
     singleMode := singleMode w;
     singleModeLastValue := singleModeLastValue w;
     singleModeHasLastValue := singleModeHasLastValue w;
     singleModeCallback := singleModeCallback w;
     isEventsListening := isEventsListening w;
     _firstVirtualNode := _firstVirtualNode w;
     mapNodeToKey := mapNodeToKey w; keyComparer := keyComparer w;
     valueComparer := valueComparer w;
     isWatcherCheckerRunning := isWatcherCheckerRunning w;
     needCheckerRunAgainAfterCurrentSchedule := needCheckerRunAgainAfterCurrentSchedule w;
     _warning_forget_watch_ := _warning_forget_watch_ w;
     _warning_repeated_keys := _warning_repeated_keys w;
     _warning_single_mode := _warning_single_mode w;
     _warning_mutation_ := _warning_mutation_ w |}.

Definition set_useForeachFn (x : option forEachFn) (w : watcher) : watcher :=
  {| isWatching := isWatching w; useForeachFn := x;
     lastKeyList := lastKeyList w; lastNodeList := lastNodeList w;
     lastCallbackMap := lastCallbackMap w;
     lastVirtualNodesMap := lastVirtualNodesMap w;
     singleMode := singleMode w;
     singleModeLastValue := singleModeLastValue w;
     singleModeHasLastValue := singleModeHasLastValue w;
     singleModeCallback := singleModeCallback w;
     isEventsListening := isEventsListening w;
     _firstVirtualNode := _firstVirtualNode w;
     mapNodeToKey := mapNodeToKey w; keyComparer := keyComparer w;
     valueComparer := valueComparer w;
     isWatcherCheckerRunning := isWatcherCheckerRunning w;
     needCheckerRunAgainAfterCurrentSchedule := needCheckerRunAgainAfterCurrentSchedule w;
     _warning_forget_watch_ := _warning_forget_watch_ w;
     _warning_repeated_keys := _warning_repeated_keys w;
     _warning_single_mode := _warning_single_mode w;
     _warning_mutation_ := _warning_mutation_ w |}.

Definition set_singleMode (x : bool) (w : watcher) : watcher :=
  {| isWatching := isWatching w; useForeachFn := useForeachFn w;
     lastKeyList := lastKeyList w; lastNodeList := lastNodeList w;
     lastCallbackMap := lastCallbackMap w;
     lastVirtualNodesMap := lastVirtualNodesMap w; singleMode := x;
     singleModeLastValue := singleModeLastValue w;
     singleModeHasLastValue := singleModeHasLastValue w;
     singleModeCallback := singleModeCallback w;
     isEventsListening := isEventsListening w;
     _firstVirtualNode := _firstVirtualNode w;
     mapNodeToKey := mapNodeToKey w; keyComparer := keyComparer w;
     valueComparer := valueComparer w;
     isWatcherCheckerRunning := isWatcherCheckerRunning w;
     needCheckerRunAgainAfterCurrentSchedule := needCheckerRunAgainAfterCurrentSchedule w;
     _warning_forget_watch_ := _warning_forget_watch_ w;
     _warning_repeated_keys := _warning_repeated_keys w;
     _warning_single_mode := _warning_single_mode w;
     _warning_mutation_ := _warning_mutation_ w |}.

Definition set_singleModeCallback (x : useForeachReturns) (w : watcher) : watcher :=
  {| isWatching := isWatching w; useForeachFn := useForeachFn w;
     lastKeyList := lastKeyList w; lastNodeList := lastNodeList w;
     lastCallbackMap := lastCallbackMap w;
     lastVirtualNodesMap := lastVirtualNodesMap w;
     singleMode := singleMode w;
     singleModeLastValue := singleModeLastValue w;
     singleModeHasLastValue := singleModeHasLastValue w;
     singleModeCallback := x; isEventsListening := isEventsListening w;
     _firstVirtualNode := _firstVirtualNode w;
     mapNodeToKey := mapNodeToKey w; keyComparer := keyComparer w;
     valueComparer := valueComparer w;
     isWatcherCheckerRunning := isWatcherCheckerRunning w;
     needCheckerRunAgainAfterCurrentSchedule := needCheckerRunAgainAfterCurrentSchedule w;
     _warning_forget_watch_ := _warning_forget_watch_ w;
     _warning_repeated_keys := _warning_repeated_keys w;
     _warning_single_mode := _warning_single_mode w;
     _warning_mutation_ := _warning_mutation_ w |}.

Definition set_isEventsListening (x : listening) (w : watcher) : watcher :=
  {| isWatching := isWatching w; useForeachFn := useForeachFn w;
     lastKeyList := lastKeyList w; lastNodeList := lastNodeList w;
     lastCallbackMap := lastCallbackMap w;
     lastVirtualNodesMap := lastVirtualNodesMap w;
     singleMode := singleMode w;
     singleModeLastValue := singleModeLastValue w;
     singleModeHasLastValue := singleModeHasLastValue w;
     singleModeCallback := singleModeCallback w; isEventsListening := x;
     _firstVirtualNode := _firstVirtualNode w;
     mapNodeToKey := mapNodeToKey w; keyComparer := keyComparer w;
     valueComparer := valueComparer w;
     isWatcherCheckerRunning := isWatcherCheckerRunning w;
     needCheckerRunAgainAfterCurrentSchedule := needCheckerRunAgainAfterCurrentSchedule w;
     _warning_forget_watch_ := _warning_forget_watch_ w;
     _warning_repeated_keys := _warning_repeated_keys w;
     _warning_single_mode := _warning_single_mode w;
     _warning_mutation_ := _warning_mutation_ w |}.

Definition set_firstVirtualNode (x : nat) (w : watcher) : watcher :=
  {| isWatching := isWatching w; useForeachFn := useForeachFn w;
     lastKeyList := lastKeyList w; lastNodeList := lastNodeList w;
     lastCallbackMap := lastCallbackMap w;
     lastVirtualNodesMap := lastVirtualNodesMap w;
     singleMode := singleMode w;
     singleModeLastValue := singleModeLastValue w;
     singleModeHasLastValue := singleModeHasLastValue w;
     singleModeCallback := singleModeCallback w;
     isEventsListening := isEventsListening w; _firstVirtualNode := x;
     mapNodeToKey := mapNodeToKey w; keyComparer := keyComparer w;
     valueComparer := valueComparer w;
     isWatcherCheckerRunning := isWatcherCheckerRunning w;
     needCheckerRunAgainAfterCurrentSchedule := needCheckerRunAgainAfterCurrentSchedule w;
     _warning_forget_watch_ := _warning_forget_watch_ w;
     _warning_repeated_keys := _warning_repeated_keys w;
     _warning_single_mode := _warning_single_mode w;
     _warning_mutation_ := _warning_mutation_ w |}.

Definition set_mapNodeToKey (x : option (value -> nat -> list value -> value)) (w : watcher) : watcher :=
  {| isWatching := isWatching w; useForeachFn := useForeachFn w;
     lastKeyList := lastKeyList w; lastNodeList := lastNodeList w;
     lastCallbackMap := lastCallbackMap w;
     lastVirtualNodesMap := lastVirtualNodesMap w;
     singleMode := singleMode w;
     singleModeLastValue := singleModeLastValue w;
     singleModeHasLastValue := singleModeHasLastValue w;
     singleModeCallback := singleModeCallback w;
     isEventsListening := isEventsListening w;
     _firstVirtualNode := _firstVirtualNode w; mapNodeToKey := x;
     keyComparer := keyComparer w; valueComparer := valueComparer w;
     isWatcherCheckerRunning := isWatcherCheckerRunning w;
     needCheckerRunAgainAfterCurrentSchedule := needCheckerRunAgainAfterCurrentSchedule w;
     _warning_forget_watch_ := _warning_forget_watch_ w;
     _warning_repeated_keys := _warning_repeated_keys w;
     _warning_single_mode := _warning_single_mode w;
     _warning_mutation_ := _warning_mutation_ w |}.

Definition set_keyComparer (x : value -> value -> bool) (w : watcher) : watcher :=
  {| isWatching := isWatching w; useForeachFn := useForeachFn w;
     lastKeyList := lastKeyList w; lastNodeList := lastNodeList w;
     lastCallbackMap := lastCallbackMap w;
     lastVirtualNodesMap := lastVirtualNodesMap w;
     singleMode := singleMode w;
     singleModeLastValue := singleModeLastValue w;
     singleModeHasLastValue := singleModeHasLastValue w;
     singleModeCallback := singleModeCallback w;
     isEventsListening := isEventsListening w;
     _firstVirtualNode := _firstVirtualNode w;
     mapNodeToKey := mapNodeToKey w; keyComparer := x;
     valueComparer := valueComparer w;
     isWatcherCheckerRunning := isWatcherCheckerRunning w;
     needCheckerRunAgainAfterCurrentSchedule := needCheckerRunAgainAfterCurrentSchedule w;
     _warning_forget_watch_ := _warning_forget_watch_ w;
     _warning_repeated_keys := _warning_repeated_keys w;
     _warning_single_mode := _warning_single_mode w;
     _warning_mutation_ := _warning_mutation_ w |}.

Definition set_valueComparer (x : value -> value -> bool) (w : watcher) : watcher :=
  {| isWatching := isWatching w; useForeachFn := useForeachFn w;
     lastKeyList := lastKeyList w; lastNodeList := lastNodeList w;
     lastCallbackMap := lastCallbackMap w;
     lastVirtualNodesMap := lastVirtualNodesMap w;
     singleMode := singleMode w;
     singleModeLastValue := singleModeLastValue w;
     singleModeHasLastValue := singleModeHasLastValue w;
     singleModeCallback := singleModeCallback w;
     isEventsListening := isEventsListening w;
     _firstVirtualNode := _firstVirtualNode w;
     mapNodeToKey := mapNodeToKey w; keyComparer := keyComparer w;
     valueComparer := x;
     isWatcherCheckerRunning := isWatcherCheckerRunning w;
     needCheckerRunAgainAfterCurrentSchedule := needCheckerRunAgainAfterCurrentSchedule w;
     _warning_forget_watch_ := _warning_forget_watch_ w;
     _warning_repeated_keys := _warning_repeated_keys w;
     _warning_single_mode := _warning_single_mode w;
     _warning_mutation_ := _warning_mutation_ w |}.



Definition set_warning_forget_watch (x : Warning.t) (w : watcher) : watcher :=
  {| isWatching := isWatching w; useForeachFn := useForeachFn w;
     lastKeyList := lastKeyList w; lastNodeList := lastNodeList w;
     lastCallbackMap := lastCallbackMap w;
     lastVirtualNodesMap := lastVirtualNodesMap w;
     singleMode := singleMode w;
     singleModeLastValue := singleModeLastValue w;
     singleModeHasLastValue := singleModeHasLastValue w;
     singleModeCallback := singleModeCallback w;
     isEventsListening := isEventsListening w;
     _firstVirtualNode := _firstVirtualNode w;
     mapNodeToKey := mapNodeToKey w; keyComparer := keyComparer w;
     valueComparer := valueComparer w;
     isWatcherCheckerRunning := isWatcherCheckerRunning w;
     needCheckerRunAgainAfterCurrentSchedule := needCheckerRunAgainAfterCurrentSchedule w;
     _warning_forget_watch_ := x;
     _warning_repeated_keys := _warning_repeated_keys w;
     _warning_single_mode := _warning_single_mode w;
     _warning_mutation_ := _warning_mutation_ w |}.

Definition set_warning_repeated_keys (x : Warning.t) (w : watcher) : watcher :=
  {| isWatching := isWatching w; useForeachFn := useForeachFn w;
     lastKeyList := lastKeyList w; lastNodeList := lastNodeList w;
     lastCallbackMap := lastCallbackMap w;
     lastVirtualNodesMap := lastVirtualNodesMap w;
     singleMode := singleMode w;
     singleModeLastValue := singleModeLastValue w;
     singleModeHasLastValue := singleModeHasLastValue w;
     singleModeCallback := singleModeCallback w;
     isEventsListening := isEventsListening w;
     _firstVirtualNode := _firstVirtualNode w;
     mapNodeToKey := mapNodeToKey w; keyComparer := keyComparer w;
     valueComparer := valueComparer w;
     isWatcherCheckerRunning := isWatcherCheckerRunning w;
     needCheckerRunAgainAfterCurrentSchedule := needCheckerRunAgainAfterCurrentSchedule w;
     _warning_forget_watch_ := _warning_forget_watch_ w;
     _warning_repeated_keys := x;
     _warning_single_mode := _warning_single_mode w;
     _warning_mutation_ := _warning_mutation_ w |}.

Definition set_warning_single_mode (x : Warning.t) (w : watcher) : watcher :=
  {| isWatching := isWatching w; useForeachFn := useForeachFn w;
     lastKeyList := lastKeyList w; lastNodeList := lastNodeList w;
     lastCallbackMap := lastCallbackMap w;
     lastVirtualNodesMap := lastVirtualNodesMap w;
     singleMode := singleMode w;
     singleModeLastValue := singleModeLastValue w;
     singleModeHasLastValue := singleModeHasLastValue w;
     singleModeCallback := singleModeCallback w;
     isEventsListening := isEventsListening w;
     _firstVirtualNode := _firstVirtualNode w;
     mapNodeToKey := mapNodeToKey w; keyComparer := keyComparer w;
     valueComparer := valueComparer w;
     isWatcherCheckerRunning := isWatcherCheckerRunning w;
     needCheckerRunAgainAfterCurrentSchedule := needCheckerRunAgainAfterCurrentSchedule w;
     _warning_forget_watch_ := _warning_forget_watch_ w;
     _warning_repeated_keys := _warning_repeated_keys w;
     _warning_single_mode := x; _warning_mutation_ := _warning_mutation_ w |}.

Definition set_warning_mutation (x : Warning.t) (w : watcher) : watcher :=
  {| isWatching := isWatching w; useForeachFn := useForeachFn w;
     lastKeyList := lastKeyList w; lastNodeList := lastNodeList w;
     lastCallbackMap := lastCallbackMap w;
     lastVirtualNodesMap := lastVirtualNodesMap w;
     singleMode := singleMode w;
     singleModeLastValue := singleModeLastValue w;
     singleModeHasLastValue := singleModeHasLastValue w;
     singleModeCallback := singleModeCallback w;
     isEventsListening := isEventsListening w;
     _firstVirtualNode := _firstVirtualNode w;
     mapNodeToKey := mapNodeToKey w; keyComparer := keyComparer w;
     valueComparer := valueComparer w;
     isWatcherCheckerRunning := isWatcherCheckerRunning w;
     needCheckerRunAgainAfterCurrentSchedule := needCheckerRunAgainAfterCurrentSchedule w;
     _warning_forget_watch_ := _warning_forget_watch_ w;
     _warning_repeated_keys := _warning_repeated_keys w;
     _warning_single_mode := _warning_single_mode w;
     _warning_mutation_ := x |}.

Definition set_generation (cb : JsMap.t useForeachReturns)
  (vn : JsMap.t (option nat)) (ks ns : list value) (w : watcher) : watcher :=
  {| isWatching := isWatching w; useForeachFn := useForeachFn w;
     lastKeyList := ks; lastNodeList := ns; lastCallbackMap := cb;
     lastVirtualNodesMap := vn; singleMode := singleMode w;
     singleModeLastValue := singleModeLastValue w;
     singleModeHasLastValue := singleModeHasLastValue w;
     singleModeCallback := singleModeCallback w;
     isEventsListening := isEventsListening w;
     _firstVirtualNode := _firstVirtualNode w;
     mapNodeToKey := mapNodeToKey w; keyComparer := keyComparer w;
     valueComparer := valueComparer w;
     isWatcherCheckerRunning := isWatcherCheckerRunning w;
     needCheckerRunAgainAfterCurrentSchedule := needCheckerRunAgainAfterCurrentSchedule w;
     _warning_forget_watch_ := _warning_forget_watch_ w;
     _warning_repeated_keys := _warning_repeated_keys w;
     _warning_single_mode := _warning_single_mode w;
     _warning_mutation_ := _warning_mutation_ w |}.

Definition set_singleModeLast (v : value) (has : bool) (w : watcher) : watcher :=
  {| isWatching := isWatching w; useForeachFn := useForeachFn w;
     lastKeyList := lastKeyList w; lastNodeList := lastNodeList w;
     lastCallbackMap := lastCallbackMap w;
     lastVirtualNodesMap := lastVirtualNodesMap w;
     singleMode := singleMode w; singleModeLastValue := v;
     singleModeHasLastValue := has;
     singleModeCallback := singleModeCallback w;
     isEventsListening := isEventsListening w;
     _firstVirtualNode := _firstVirtualNode w;
     mapNodeToKey := mapNodeToKey w; keyComparer := keyComparer w;
     valueComparer := valueComparer w;
     isWatcherCheckerRunning := isWatcherCheckerRunning w;
     needCheckerRunAgainAfterCurrentSchedule := needCheckerRunAgainAfterCurrentSchedule w;
     _warning_forget_watch_ := _warning_forget_watch_ w;
     _warning_repeated_keys := _warning_repeated_keys w;
     _warning_single_mode := _warning_single_mode w;
     _warning_mutation_ := _warning_mutation_ w |}.

(** The instance together with its collaborators: the handles and the
    document, the LiveSelector (the [n]-th call of [evaluateOnce] yields
    [selector n]), the idle queue, the pending awaits and the trace. *)
Record world : Type := mkWorld {
  self : watcher;
  heap : DomProxy.heap;
  selector : nat -> value;
  evaluations : nat;
  idle : list idle_task;
  awaiting : list awaiter;
  trace : list effect
}.

Definition put_self (x : watcher) (s : world) : world :=
  {| self := x; heap := heap s; selector := selector s;
     evaluations := evaluations s; idle := idle s; awaiting := awaiting s;
     trace := trace s |}.

Definition put_heap (x : DomProxy.heap) (s : world) : world :=
  {| self := self s; heap := x; selector := selector s;
     evaluations := evaluations s; idle := idle s; awaiting := awaiting s;
     trace := trace s |}.

Definition put_selector (x : nat -> value) (s : world) : world :=
  {| self := self s; heap := heap s; selector := x;
     evaluations := evaluations s; idle := idle s; awaiting := awaiting s;
     trace := trace s |}.

Definition put_evaluations (x : nat) (s : world) : world :=
  {| self := self s; heap := heap s; selector := selector s;
     evaluations := x; idle := idle s; awaiting := awaiting s;
     trace := trace s |}.

Definition put_idle (x : list idle_task) (s : world) : world :=
  {| self := self s; heap := heap s; selector := selector s;
     evaluations := evaluations s; idle := x; awaiting := awaiting s;
     trace := trace s |}.

Definition put_awaiting (x : list awaiter) (s : world) : world :=
  {| self := self s; heap := heap s; selector := selector s;
     evaluations := evaluations s; idle := idle s; awaiting := x;
     trace := trace s |}.

Definition put_trace (x : list effect) (s : world) : world :=
  {| self := self s; heap := heap s; selector := selector s;
     evaluations := evaluations s; idle := idle s; awaiting := awaiting s;
     trace := x |}.

Definition W (A : Type) : Type := M world A.

Definition this : W watcher := gets self.

Definition update_this (f : watcher -> watcher) : W unit :=
  modify (fun s => put_self (f (self s)) s).

Definition in_heap {A : Type} (m : M DomProxy.heap A) : W A :=
  zoom heap put_heap m.

Definition note (e : effect) : W unit :=
  modify (fun s => put_trace (trace s ++ [e]) s).

(** [this.liveSelector.evaluateOnce()] *)
Definition evaluateOnce : W value :=
  fun s => Ret (selector s (evaluations s))
               (put_evaluations (S (evaluations s)) s).

(** [this.<warning>.warn(...)], the default message being [m] *)
Definition raise (field : watcher -> Warning.t)
  (store : Warning.t -> watcher -> watcher) (m : console_message)
  : W unit :=
  w <- this ;;
  update_this (store (fst (Warning.warn (field w)))) ;;
  when (snd (Warning.warn (field w))) (note (ConsoleWarn m)).

(** [noNeedInSingleMode(method)] *)
Definition noNeedInSingleMode (method : string) : W unit :=
  w <- this ;;
  when (singleMode w) (note (ConsoleWarn (NoEffectInSingleMode method))).

(** **** Default implementations *)

Definition defaultEqualityComparer (a b : value) : bool := strict_eq a b.

(** A newly constructed watcher; [first] is the handle made for
    [_firstVirtualNode].  [mapNodeToKey = None] is [defaultMapNodeToKey],
    which the engine recognises by identity. *)
Definition new_watcher (first : nat) : watcher :=
  {| isWatching := false; useForeachFn := None;
     lastKeyList := []; lastNodeList := [];
     lastCallbackMap := JsMap.empty _;
     lastVirtualNodesMap := JsMap.empty _;
     singleMode := false;
     singleModeLastValue := VUndefined;
     singleModeHasLastValue := false;
     singleModeCallback := URVoid;
     isEventsListening :=
       {| onAdd := false; onChange := false; onIteration := false;
          onRemove := false |};
     _firstVirtualNode := first;
     mapNodeToKey := None;
     keyComparer := defaultEqualityComparer;
     valueComparer := defaultEqualityComparer;
     isWatcherCheckerRunning := false;
     needCheckerRunAgainAfterCurrentSchedule := false;
     _warning_forget_watch_ := Warning.warning (Warning.OnceBool true);
     _warning_repeated_keys := Warning.warning (Warning.OnceBool true);
     _warning_single_mode := Warning.warning (Warning.OnceNum 15);
     _warning_mutation_ := Warning.warning (Warning.OnceBool true) |}.

(** [new Watcher(liveSelector)] in an empty document *)
Definition construct (liveSelector : nat -> value) : world :=
  match DomProxy.DomProxy DomProxy.empty_heap with
  | Ret first hp =>
      {| self := new_watcher first; heap := hp;
         selector := liveSelector; evaluations := 0; idle := [];
         awaiting := []; trace := [] |}
  | Throw _ hp =>
      {| self := new_watcher 0; heap := hp;
         selector := liveSelector; evaluations := 0; idle := [];
         awaiting := []; trace := [] |}
  end.

(** **** [applyUseForeachCallback] *)

Definition remove_of (cb : useForeachReturns) : option hook :=
  match cb with
  | URVoid => None
  | URRemove f => Some f
  | URObject r _ _ => r
  end.

Definition change_of (cb : useForeachReturns) : option hook :=
  match cb with
  | URObject _ c _ => c
  | _ => None
  end.

Definition mutation_of (cb : useForeachReturns) : option hook :=
  match cb with
  | URObject _ _ m => m
  | _ => None
  end.

(** [applyUseForeachCallback(cb)('remove')(node)] *)
Definition apply_remove (cb : useForeachReturns) (node : value) : W unit :=
  match remove_of cb with
  | Some f => note (HookRemove f node)
  | None => ret tt
  end.

(** [applyUseForeachCallback(cb)('target change')(newNode, oldNode)] *)
Definition apply_target_change (cb : useForeachReturns)
  (newNode oldNode : value) : W unit :=
  match change_of cb with
  | Some f => note (HookTargetChanged f newNode oldNode)
  | None => ret tt
  end.

(** [applyUseForeachCallback(cb)('warn mutation')(this._warning_mutation_)]:
    [mutation && args[0]()], where [args[0]] is the object that [warning]
    returned, which is not callable. *)
Definition apply_warn_mutation (cb : useForeachReturns) : W unit :=
  match mutation_of cb with
  | Some _ => throw (TypeError "args[0] is not a function")
  | None => ret tt
  end.

(** **** How to start and stop the watcher *)

(** [stopWatch()] *)
Definition stopWatch : W unit := update_this (set_isWatching false).

(** **** [useForeach] *)

Inductive useForeach_argument : Type :=
| NoArgument
| NotAFunction (v : value)
| AFunction (fn : forEachFn).

Definition useForeach (forEach : useForeach_argument) : W unit :=
  match forEach with
  | NoArgument => ret tt
  | NotAFunction _ => throw (TypeError "useForeach must be a function.")
  | AFunction fn =>
      w <- this ;;
      when (match useForeachFn w with Some _ => true | None => false end)
           (note (ConsoleWarn ChainedUseForeach)) ;;
      update_this (set_useForeachFn (Some fn))
  end.

(** **** Multiple mode *)

(** [findNodeFromListByKey(list, keys)(key)] *)
Definition findNodeFromListByKey (cmp : value -> value -> bool)
  (list keys : list value) (key : value) : value :=
  match findIndex (fun x => cmp x key) keys with
  | None => VNull
  | Some i => array_get list i
  end.

Definition or_undefined (o : option value) : value :=
  match o with
  | Some v => v
  | None => VUndefined
  end.

(** [map.get(key)] of the callback map *)
Definition callbacks_at (m : JsMap.t useForeachReturns) (key : value)
  : useForeachReturns :=
  match JsMap.get m key with
  | Some cb => cb
  | None => URVoid
  end.

(** [map.get(key)] of the handle map, [None] being [undefined] *)
Definition handle_at (m : JsMap.t (option nat)) (key : value)
  : option nat :=
  match JsMap.get m key with
  | Some h => h
  | None => None
  end.

(** [thisKeyList] *)
Definition keys_of (w : watcher) (currentIteration : list value)
  : list value :=
  match mapNodeToKey w with
  | None => currentIteration
  | Some f => map_indexed (fun node i => f node i currentIteration) 0
                currentIteration
  end.

(** [goneKeys], [newKeys], [oldSameKeys] and [newSameKeys] of a pass over
    [thisKeyList] *)
Definition goneKeys (w : watcher) (thisKeyList : list value) : list value :=
  Lodash.differenceWith (keyComparer w) (lastKeyList w) thisKeyList.

Definition newKeys (w : watcher) (thisKeyList : list value) : list value :=
  Lodash.differenceWith (keyComparer w) thisKeyList (lastKeyList w).

Definition oldSameKeys (w : watcher) (thisKeyList : list value)
  : list value :=
  Lodash.intersectionWith (keyComparer w) (lastKeyList w) thisKeyList.

Definition newSameKeys (w : watcher) (thisKeyList : list value)
  : list value :=
  Lodash.intersectionWith (keyComparer w) thisKeyList (lastKeyList w).

Definition findFromLast (w : watcher) : value -> value :=
  findNodeFromListByKey (keyComparer w) (lastNodeList w) (lastKeyList w).

Definition findFromNew (w : watcher) (currentIteration thisKeyList
  : list value) : value -> value :=
  findNodeFromListByKey (keyComparer w) currentIteration thisKeyList.

(** [changedNodes]: [(oldNode, newNode, oldKey, newKey)] *)
Definition changedNodes (w : watcher) (currentIteration thisKeyList
  : list value) : list (value * value * value * value) :=
  filter (fun u => match u with
                   | (a, b, _, _) => Bool.eqb (valueComparer w a b) false
                   end)
    (map (fun x =>
            (findFromLast w x,
             findFromNew w currentIteration thisKeyList x,
             x,
             or_undefined
               (array_find (fun newK => keyComparer w newK x)
                  (newSameKeys w thisKeyList))))
       (oldSameKeys w thisKeyList)).

(** The next-generation maps under construction *)
Definition next_maps : Type :=
  (JsMap.t useForeachReturns * JsMap.t (option nat))%type.

(** Region "Key is gone": one idle task per gone key *)
Definition schedule_removals (w : watcher) (gone : list value) : W unit :=
  for_each gone (fun oldKey =>
    modify (fun s =>
      put_idle (idle s ++
        [{| task_virtualNode := handle_at (lastVirtualNodesMap w) oldKey;
            task_callbacks := callbacks_at (lastCallbackMap w) oldKey;
            task_node := findFromLast w oldKey |}]) s)).

(** What an idle task does when the scheduler runs it. *)
Definition run_idle_task (t : idle_task) : W unit :=
  apply_remove (task_callbacks t) (task_node t) ;;
  match task_virtualNode t with
  | Some virtualNode => in_heap (DomProxy.destroy virtualNode)
  | None => ret tt
  end.

(** Region "Key is new" *)
Fixpoint add_new_keys (find_new : value -> value) (keys : list value)
  (next : next_maps) : W next_maps :=
  match keys with
  | [] => ret next
  | newKey :: rest =>
      w <- this ;;
      match useForeachFn w with
      | None => ret next
      | Some fn =>
          let node := find_new newKey in
          match node with
          | VNode n =>
              virtualNode <- in_heap DomProxy.DomProxy ;;
              in_heap (DomProxy.set_realCurrent virtualNode (Some n)) ;;
              note (Factory (WithNode virtualNode newKey node)) ;;
              let callbacks := fn (WithNode virtualNode newKey node) in
              match callbacks with
              | URObject _ _ (Some m) =>
                  in_heap (DomProxy.update_proxy virtualNode
                             (DomProxy.set_observer (Some (m, node))))
              | _ => ret tt
              end ;;
              add_new_keys find_new rest
                (JsMap.set newKey callbacks (fst next),
                 JsMap.set newKey (Some virtualNode) (snd next))
          | _ =>
              note (Factory (WithoutNode node newKey)) ;;
              let callbacks := fn (WithoutNode node newKey) in
              apply_warn_mutation callbacks ;;
              add_new_keys find_new rest
                (JsMap.set newKey callbacks (fst next), snd next)
          end
      end
  end.

(** Region "Key is the same, but node is changed" *)
Definition rebind_changed (w : watcher)
  (changed : list (value * value * value * value)) : W unit :=
  for_each changed (fun u =>
    match u with
    | (oldNode, newNode, oldKey, _) =>
        match newNode with
        | VNode n =>
            match handle_at (lastVirtualNodesMap w) oldKey with
            | Some virtualNode =>
                in_heap (DomProxy.set_realCurrent virtualNode (Some n))
            | None =>
                throw (TypeError "Cannot set properties of undefined")
            end
        | _ => ret tt
        end ;;
        apply_target_change (callbacks_at (lastCallbackMap w) oldKey)
          newNode oldNode
    end).

(** Region "Final: Copy the same keys" *)
Definition copy_same_keys (w : watcher) (oldSame newSame : list value)
  (next : next_maps) : next_maps :=
  fold_left (fun nx newKey =>
    let oldKey :=
      or_undefined (array_find (fun o => keyComparer w newKey o) oldSame) in
    (JsMap.set newKey (callbacks_at (lastCallbackMap w) oldKey) (fst nx),
     JsMap.set newKey (handle_at (lastVirtualNodesMap w) oldKey) (snd nx)))
    newSame next.

(** **** Events *)

Inductive event_name : Type :=
| OnIteration
| OnChange
| OnRemove
| OnAdd.

Definition set_listening (name : event_name) (l : listening) : listening :=
  match name with
  | OnIteration =>
      {| onAdd := onAdd l; onChange := onChange l; onIteration := true;
         onRemove := onRemove l |}
  | OnChange =>
      {| onAdd := onAdd l; onChange := true; onIteration := onIteration l;
         onRemove := onRemove l |}
  | OnRemove =>
      {| onAdd := onAdd l; onChange := onChange l;
         onIteration := onIteration l; onRemove := true |}
  | OnAdd =>
      {| onAdd := true; onChange := onChange l;
         onIteration := onIteration l; onRemove := onRemove l |}
  end.

(** [addListener(event, fn)] for a listener of the caller *)
Definition addListener (name : event_name) : W unit :=
  match name with
  | OnIteration => noNeedInSingleMode "addListener('onIteration', ...)"
  | _ => ret tt
  end ;;
  update_this (fun w =>
    set_isEventsListening (set_listening name (isEventsListening w)) w).

Definition listening_to (flag : listening -> bool) : W bool :=
  w <- this ;; ret (flag (isEventsListening w)).

(** [onfulfilled || (x => x)] *)
Definition map_of (f : option (value -> value)) : value -> value :=
  match f with
  | Some g => g
  | None => fun x => x
  end.

(** [resolve(v)] of the promise inside [then], followed by the
    [.then(onfulfilled, onrejected)] chained on it: the first call
    settles the promise that [then] returned, later calls do nothing. *)
Definition resolve (a : awaiter) (v : value) : W awaiter :=
  if resolved a then ret a
  else
    note (Resolved (map_of (onfulfilled a) v)) ;;
    ret {| minimal := minimal a; onfulfilled := onfulfilled a;
           resolved := true |}.

(** The listeners [f] of the pending awaits, called in turn with
    [v.values.current]; the result is the list of those that stay
    registered. *)
Fixpoint run_awaiters (nodes : list value) (l : list awaiter)
  : W (list awaiter) :=
  match l with
  | [] => ret []
  | a :: rest =>
      w <- this ;;
      a1 <- (if singleMode w && Nat.leb 1 (List.length nodes)
             then resolve a (map_of (onfulfilled a) (array_get nodes 0))
             else ret a) ;;
      if Z.ltb (Z.of_nat (List.length nodes)) (minimal a1)
      then kept <- run_awaiters nodes rest ;; ret (a1 :: kept)
      else
        stopWatch ;;
        resolve a1 (VArr (map (map_of (onfulfilled a1)) nodes)) ;;
        run_awaiters nodes rest
  end.

(** [this.emit(event, data)] *)
Definition emit (e : event) : W unit :=
  note (Emit e) ;;
  match e with
  | EvIteration _ _ _ values_current _ _ =>
      l <- gets awaiting ;;
      kept <- run_awaiters values_current l ;;
      modify (put_awaiting kept)
  | _ => ret tt
  end.

(** [this._firstVirtualNode.realCurrent = node] *)
Definition bind_first (node : option nat) : W unit :=
  w <- this ;;
  in_heap (DomProxy.set_realCurrent (_firstVirtualNode w) node).

(** [normalModeWatcherCallback(currentIteration)] *)
Definition normalModeWatcherCallback (currentIteration : list value)
  : W unit :=
  w <- this ;;
  let thisKeyList := keys_of w currentIteration in
  (* Warn about repeated keys *)
  let uniq := Lodash.uniqWith (keyComparer w) thisKeyList in
  when (Nat.ltb (List.length uniq) (List.length thisKeyList))
       (raise _warning_repeated_keys set_warning_repeated_keys
          (RepeatedKeys uniq thisKeyList)) ;;
  (* Key is gone *)
  let gone := goneKeys w thisKeyList in
  schedule_removals w gone ;;
  (* Key is new *)
  let find_new := findFromNew w currentIteration thisKeyList in
  let new := newKeys w thisKeyList in
  next <- add_new_keys find_new new (JsMap.empty _, JsMap.empty _) ;;
  (* Key is the same, but node is changed *)
  let changed := changedNodes w currentIteration thisKeyList in
  rebind_changed w changed ;;
  (* Final: copy the same keys *)
  let next' := copy_same_keys w (oldSameKeys w thisKeyList)
                 (newSameKeys w thisKeyList) next in
  update_this (set_generation (fst next') (snd next') thisKeyList
                 currentIteration) ;;
  iteration <- listening_to onIteration ;;
  when (iteration
        && negb (Nat.eqb (List.length changed + List.length gone
                          + List.length new) 0))
       (emit (EvIteration thisKeyList new gone currentIteration
                (map find_new new) (map (findFromLast w) gone))) ;;
  change <- listening_to onChange ;;
  when change
       (for_each changed (fun u =>
          match u with
          | (oldNode, newNode, oldKey, newKey) =>
              emit (EvChange oldKey newKey oldNode newNode)
          end)) ;;
  remove <- listening_to onRemove ;;
  when remove
       (for_each gone (fun key => emit (EvRemove key (findFromLast w key)))) ;;
  add <- listening_to onAdd ;;
  when add
       (for_each new (fun key => emit (EvAdd key (find_new key)))) ;;
  (* For firstVirtualNode *)
  match array_get currentIteration 0 with
  | VNode n => bind_first (Some n)
  | VUndefined | VNull => bind_first None
  | _ => ret tt
  end ;;
  (* Prompt developer to open single mode *)
  when (Nat.ltb 1 (List.length currentIteration))
       (update_this (fun w =>
          set_warning_single_mode
            (Warning.set_ignored true (_warning_single_mode w)) w)) ;;
  when (Nat.eqb (List.length currentIteration) 1)
       (raise _warning_single_mode set_warning_single_mode
          SuggestSingleMode).

(** **** Single mode *)

(** [_enableSingleMode()]; the LiveSelector is told as well, and yields
    single values from then on. *)
Definition enableSingleMode : W unit :=
  update_this (fun w =>
    set_singleMode true
      (set_warning_single_mode
         (Warning.set_ignored true (_warning_single_mode w)) w)).

(** [singleModeWatcherCallback(firstValue)] *)
Definition singleModeWatcherCallback (firstValue : value) : W unit :=
  match firstValue with
  | VUndefined => bind_first None
  | _ => ret tt
  end ;;
  match firstValue with
  | VNode n => bind_first (Some n)
  | _ => ret tt
  end ;;
  w <- this ;;
  if singleModeHasLastValue w && isNil firstValue then
    (* Case: value is gone *)
    apply_remove (singleModeCallback w) (singleModeLastValue w) ;;
    when (instanceofNode (singleModeLastValue w)) (bind_first None) ;;
    emit (EvRemove VUndefined (singleModeLastValue w)) ;;
    update_this (set_singleModeLast VUndefined false)
  else if negb (singleModeHasLastValue w) && truthy firstValue then
    (* Case: value is new *)
    (if instanceofNode firstValue then
       match useForeachFn w with
       | Some fn =>
           note (Factory (WithNode (_firstVirtualNode w) firstValue
                            firstValue)) ;;
           update_this (set_singleModeCallback
             (fn (WithNode (_firstVirtualNode w) firstValue firstValue)))
       | None => ret tt
       end
     else
       match useForeachFn w with
       | Some fn =>
           note (Factory (WithoutNode firstValue VUndefined)) ;;
           update_this (set_singleModeCallback
             (fn (WithoutNode firstValue VUndefined))) ;;
           apply_warn_mutation (fn (WithoutNode firstValue VUndefined))
       | None => ret tt
       end) ;;
    emit (EvAdd VUndefined firstValue) ;;
    update_this (set_singleModeLast firstValue true)
  else if singleModeHasLastValue w
          && negb (valueComparer w (singleModeLastValue w) firstValue) then
    (* Case: value has changed *)
    apply_target_change (singleModeCallback w) firstValue
      (singleModeLastValue w) ;;
    emit (EvChange VUndefined VUndefined (singleModeLastValue w)
            firstValue) ;;
    update_this (set_singleModeLast firstValue true)
  else
    (* Case: value is not changed *)
    ret tt.

(** **** Watcher callback *)

(** [watcherChecker()].  Outside single mode the LiveSelector is to yield
    an array; the engine reads [length] of whatever it got. *)
Definition watcherChecker : W unit :=
  w <- this ;;
  if negb (isWatching w) then ret tt
  else
    thisNodes <- evaluateOnce ;;
    if singleMode w then singleModeWatcherCallback thisNodes
    else match thisNodes with
         | VArr currentIteration =>
             normalModeWatcherCallback currentIteration
         | _ => throw (TypeError "Cannot read properties of undefined")
         end.

(** [startWatch()] *)
Definition startWatch : W unit :=
  update_this (set_isWatching true) ;;
  update_this (fun w =>
    set_warning_forget_watch
      (Warning.set_ignored true (_warning_forget_watch_ w)) w) ;;
  watcherChecker.

(** **** [.then()] *)

(** How the promise that [then] returns stands when [then] returns. *)
Inductive settlement : Type :=
| Fulfilled (v : value)
| Rejected (reason : js_error)
| Pending.

(** [promise.then(onfulfilled, onrejected)] for handlers that return plain
    values *)
Definition chain (onfulfilled : option (value -> value))
  (onrejected : option (js_error -> value)) (p : settlement) : settlement :=
  match p with
  | Fulfilled v => Fulfilled (map_of onfulfilled v)
  | Rejected e =>
      match onrejected with
      | Some g => Fulfilled (g e)
      | None => Rejected e
      end
  | Pending => Pending
  end.

(** [Array.isArray(result) && result.length >= minimalResultsRequired],
    with [result.map(v => map(v))] when it holds *)
Definition enough_now (onfulfilled : option (value -> value))
  (minimalResultsRequired : Z) (result : value) : option value :=
  match result with
  | VArr nodes =>
      if Z.leb minimalResultsRequired (Z.of_nat (List.length nodes))
      then Some (VArr (map (map_of onfulfilled) nodes))
      else None
  | _ => None
  end.

(** The executor of the promise that waits: start, then listen. *)
Definition wait_for_iteration (onfulfilled : option (value -> value))
  (minimalResultsRequired : Z) (starter : W unit) : W settlement :=
  try_catch
    (starter ;;
     addListener OnIteration ;;
     modify (fun s =>
       put_awaiting (awaiting s ++
         [{| minimal := minimalResultsRequired;
             onfulfilled := onfulfilled;
             resolved := false |}]) s) ;;
     ret Pending)
    (fun e => ret (Rejected e)).

(** The inner [const then = async () => ...] *)
Definition then_async (onfulfilled : option (value -> value))
  (minimalResultsRequired : Z) (starter : W unit) : W settlement :=
  if Z.ltb minimalResultsRequired 1 then
    ret (Rejected (TypeError
      "Invalid minimalResultsRequired, must equal to or bigger than 1"))
  else
    w <- this ;;
    when (singleMode w && Z.ltb 1 minimalResultsRequired)
         (note (ConsoleWarn IgnoredMinimalResults)) ;;
    result <- evaluateOnce ;;
    match enough_now onfulfilled minimalResultsRequired result with
    | Some mapped => ret (Fulfilled mapped)
    | None =>
        if singleMode w then ret (Fulfilled result)
        else wait_for_iteration onfulfilled minimalResultsRequired starter
    end.

(** [then(onfulfilled, onrejected, options, starter)];
    [minimalResultsRequired = None] when the option is left out. *)
Definition then_ (onfulfilled : option (value -> value))
  (onrejected : option (js_error -> value))
  (minimalResultsRequired : option Z) (starter : W unit) : W settlement :=
  p <- then_async onfulfilled
         (match minimalResultsRequired with Some n => n | None => 1 end)
         starter ;;
  ret (chain onfulfilled onrejected p).

(** **** Watcher settings *)

(** [assignKeys(keyAssigner)] *)
Definition assignKeys (keyAssigner : value -> nat -> list value -> value)
  : W unit :=
  noNeedInSingleMode "assignKeys" ;;
  update_this (set_mapNodeToKey (Some keyAssigner)).

(** [setComparer(keyComparer, valueComparer)] *)
Definition setComparer (keyCmp valueCmp : option (value -> value -> bool))
  : W unit :=
  match keyCmp with
  | Some c => noNeedInSingleMode "setComparer" ;;
              update_this (set_keyComparer c)
  | None => ret tt
  end ;;
  match valueCmp with
  | Some c => update_this (set_valueComparer c)
  | None => ret tt
  end.

(** [omitWarningForRepeatedKeys()] *)
Definition omitWarningForRepeatedKeys : W unit :=
  noNeedInSingleMode "omitWarningForRepeatedKeys" ;;
  update_this (fun w =>
    set_warning_repeated_keys
      (Warning.set_ignored true (_warning_repeated_keys w)) w).

(** [enableBatchMode()] *)
Definition enableBatchMode : W unit :=
  update_this (fun w =>
    set_warning_single_mode
      (Warning.set_ignored true (_warning_single_mode w)) w).

(** **** Schedule a watcher callback run *)




(** **** Utils *)

(** [getVirtualNodeByKey(key)], [None] being [null] *)
Definition getVirtualNodeByKey (key : value) : W (option nat) :=
  noNeedInSingleMode "getVirtualNodeByKey" ;;
  w <- this ;;
  ret (handle_at (lastVirtualNodesMap w)
         (or_undefined
            (array_find (fun k => keyComparer w k key)
               (JsMap.keys (lastVirtualNodesMap w))))).

End Watcher.

(* ================================================================== *)
(** * Vocabulary of the properties *)

Import Watcher.

(** ** Outcomes and framing *)

Definition state_of {S A : Type} (o : outcome S A) : S :=
  match o with
  | Ret _ s => s
  | Throw _ s => s
  end.

(** [m] never changes the component [f] of the state, whether it returns
    or throws. *)
Definition keeps {S A X : Type} (f : S -> X) (m : M S A) : Prop :=
  forall s, f (state_of (m s)) = f s.

(** The configuration of the instance, the two scheduling flags and the
    LiveSelector. *)
Definition settings (s : world) :=
  (useForeachFn (self s), singleMode (self s), mapNodeToKey (self s),
   keyComparer (self s), valueComparer (self s),
   _firstVirtualNode (self s), isWatcherCheckerRunning (self s),
   needCheckerRunAgainAfterCurrentSchedule (self s), selector s).

(** The retained previous generation. *)
Definition generation (s : world) :=
  (lastKeyList (self s), lastNodeList (self s), lastCallbackMap (self s),
   lastVirtualNodesMap (self s)).

(** [n] checks in a row, exceptions left to the caller of each *)
Fixpoint checks (n : nat) (s : world) : world :=
  match n with
  | O => s
  | S n' => checks n' (state_of (watcherChecker s))
  end.

(** ** Keys *)

(** The comparator is an equivalence on the keys in [D]. *)
Record key_equality (A : Type) (cmp : A -> A -> bool) (D : A -> Prop)
  : Prop := {
  same_refl : forall a, D a -> cmp a a = true;
  same_sym : forall a b, D a -> D b -> cmp a b = true -> cmp b a = true;
  same_trans : forall a b c, D a -> D b -> D c ->
               cmp a b = true -> cmp b c = true -> cmp a c = true
}.

(** The values on which [===] is an equivalence *)
Definition not_NaN (v : value) : Prop := v <> VNaN.

(** The loop of [baseIntersection] without the bound on the length of the
    result; the accumulator holds the result so far, latest first. *)
Fixpoint intersect (A : Type) (cmp : A -> A -> bool)
  (other rest result : list A) : list A :=
  match rest with
  | [] => result
  | v :: rest' =>
      if negb (Lodash.arrayIncludesWith cmp result v)
         && Lodash.arrayIncludesWith cmp other v
      then intersect cmp other rest' (v :: result)
      else intersect cmp other rest' result
  end.

(** No element is equal, under the comparator, to a later one. *)
Fixpoint distinct (A : Type) (cmp : A -> A -> bool) (l : list A) : Prop :=
  match l with
  | [] => True
  | x :: l' => Lodash.arrayIncludesWith cmp l' x = false /\ distinct cmp l'
  end.

(** Where [r] first finds its like in [other] *)
Definition place (A : Type) (cmp : A -> A -> bool) (other : list A) (r : A)
  : nat :=
  match findIndex (fun y => cmp r y) other with
  | Some i => i
  | None => O
  end.

(** ** The handle map *)

(** [for (const k of ks) m.set(k, f(k))] *)
Definition set_all (V : Type) (f : value -> V) (ks : list value)
  (m : JsMap.t V) : JsMap.t V :=
  fold_left (fun acc k => JsMap.set k (f k) acc) ks m.



(** The new keys that get a handle: all of them are skipped when no
    callback factory is registered. *)
Definition handled_keys (fn : option forEachFn) (find_new : value -> value)
  (ks : list value) : list value :=
  match fn with
  | None => []
  | Some _ => filter (fun k => instanceofNode (find_new k)) ks
  end.

(** The old key that the copy loop pairs with [newKey] *)
Definition old_of (cmp : value -> value -> bool) (last this : list value)
  (newKey : value) : value :=
  or_undefined
    (array_find (fun o => cmp newKey o)
       (Lodash.intersectionWith cmp last this)).

(** The handle map after the copy loop, [nvn] being the map of the new
    keys *)
Definition carried (cmp : value -> value -> bool) (last this : list value)
  (vn nvn : JsMap.t (option nat)) : JsMap.t (option nat) :=
  set_all (fun newKey => handle_at vn (old_of cmp last this newKey))
    (Lodash.intersectionWith cmp this last) nvn.


(** ** Scheduling *)




(** ** Diagnostics and awaiting *)

Definition is_suggestion (e : effect) : bool :=
  match e with
  | ConsoleWarn SuggestSingleMode => true
  | _ => false
  end.

Definition invalid_minimalResultsRequired : js_error :=
  TypeError "Invalid minimalResultsRequired, must equal to or bigger than 1".

(** [x => [x]] *)
Definition wrap (v : value) : value := VArr [v].

(** ** Scenarios on a handle *)

(** A document of [n] elements, as [createElement] makes them, and no
    handle yet *)
Fixpoint document (n : nat) : Dom.t :=
  match n with
  | O => Dom.empty
  | S n' => state_of (Dom.createElement (document n'))
  end.

Definition page (n : nat) : DomProxy.heap :=
  DomProxy.set_dom (document n) DomProxy.empty_heap.

(** A new handle is bound to [A]; through it a style property is assigned
    and a listener registered. *)
Definition use_handle (A : nat) (name val : string) (listener : list value)
  : M DomProxy.heap nat :=
  h <- DomProxy.DomProxy ;;
  DomProxy.set_realCurrent h (Some A) ;;
  DomProxy.assign_style h name val ;;
  DomProxy.call_method h "addEventListener" listener ;;
  ret h.


Definition click : list value := [VStr "click"; VObj 7].

Definition upd_elem (id : nat) (f : Dom.element -> Dom.element)
  (hp : DomProxy.heap) : DomProxy.heap :=
  DomProxy.set_dom (Dom.update id f (DomProxy.dom hp)) hp.

Definition upd_proxy (h : nat) (f : DomProxy.t -> DomProxy.t)
  (hp : DomProxy.heap) : DomProxy.heap :=
  DomProxy.set_proxy h (f (DomProxy.proxies hp h)) hp.

Definition log (cs : list DomProxy.change) (p : DomProxy.t) : DomProxy.t :=
  DomProxy.set_changes (DomProxy.changes p ++ cs) p.



(** The live handle [h] is bound to [cur], without anchors. *)
Definition bound_to (hp : DomProxy.heap) (h cur : nat) : Prop :=
  DomProxy.isDestroyed (DomProxy.proxies hp h) = false
  /\ DomProxy.revoked (DomProxy.proxies hp h) = false
  /\ DomProxy.current (DomProxy.proxies hp h) = Some cur
  /\ DomProxy.virtualBefore (DomProxy.proxies hp h) = None
  /\ DomProxy.virtualAfter (DomProxy.proxies hp h) = None.


(** ** Scenarios on a watcher *)

(** The instance after [setup] and [startWatch()] in an empty document,
    [sel] being what the LiveSelector yields. *)
Definition watching (setup : W unit) (sel : nat -> value) : world :=
  state_of ((setup ;; startWatch) (construct sel)).

(** Every node gets the key ['k']; the callback factory returns nothing. *)
Definition one_key : W unit :=
  assignKeys (fun _ _ _ => VStr "k") ;;
  useForeach (AFunction (fun _ => URVoid)).

(** The [i]-th evaluation yields the node [i] alone. *)
Definition another_node_each_time (i : nat) : value := VArr [VNode i].

(** Every evaluation yields ['a'] and ['b']. *)
Definition letters_a_b (_ : nat) : value := VArr [VStr "a"; VStr "b"].

(** ** Repeated calls *)

(** [n] calls of [obj.warn()] in a row: the object afterwards and how many
    of the calls ran the warn function *)
Fixpoint warn_times (n : nat) (w : Warning.t) : Warning.t * nat :=
  match n with
  | O => (w, O)
  | S n' =>
      let (w1, fired) := Warning.warn w in
      let (w2, c) := warn_times n' w1 in
      (w2, ((if fired then 1 else 0) + c)%nat)
  end.

(** ** Handles *)

(** A document of [n] elements with one handle, the handle 0, bound to the
    placeholder it was made with *)
Definition with_handle (n : nat) : DomProxy.heap :=
  state_of (DomProxy.DomProxy (page n)).

(** What a handle is bound to and whether it is in use: everything but its
    log *)
Definition binding (h : nat) (hp : DomProxy.heap) :=
  (DomProxy.isDestroyed (DomProxy.proxies hp h),
   DomProxy.revoked (DomProxy.proxies hp h),
   DomProxy.current (DomProxy.proxies hp h),
   DomProxy.virtualBefore (DomProxy.proxies hp h),
   DomProxy.virtualAfter (DomProxy.proxies hp h)).

(** The number of elements made so far *)
Definition elements (hp : DomProxy.heap) : nat :=
  Dom.next_node (DomProxy.dom hp).

(** ** Passes *)

(** The removal task that a pass queues for the key [oldKey] of the
    generation retained by [w] *)
Definition removal (w : watcher) (oldKey : value) : idle_task :=
  {| task_virtualNode := handle_at (lastVirtualNodesMap w) oldKey;
     task_callbacks := callbacks_at (lastCallbackMap w) oldKey;
     task_node := findFromLast w oldKey |}.

(** Every node gets the key [undefined]; the callback factory returns
    nothing. *)
Definition no_key : W unit :=
  assignKeys (fun _ _ _ => VUndefined) ;;
  useForeach (AFunction (fun _ => URVoid)).

(** Whether an outcome is a return *)
Definition returns {S A : Type} (o : outcome S A) : bool :=
  match o with
  | Ret _ _ => true
  | Throw _ _ => false
  end.

(** ** Pending awaits *)

(** Whether an iteration of [n] results leaves the await registered *)
Definition stays_pending (n : nat) (a : awaiter) : bool :=
  Z.ltb (Z.of_nat n) (minimal a).

(** What the promise of [a] is fulfilled with by an iteration over
    [nodes]: nothing if the listener returns early or the promise is
    settled already. *)
Definition fulfilment (nodes : list value) (a : awaiter) : list effect :=
  if stays_pending (List.length nodes) a || resolved a then []
  else [Resolved (map_of (onfulfilled a)
                    (VArr (map (map_of (onfulfilled a)) nodes)))].

(** A watcher whose query found nothing and that has one await waiting
    for two results *)
Definition waiting_for_two : world :=
  state_of (then_ None None (Some 2) (ret tt)
              (construct (fun _ => VArr []))).

(** ** Quiet computations *)

(** [m] queues no removal, touches no await, and lets nothing out but
    console messages, whether it returns or throws. *)
Definition quiet {A : Type} (m : W A) : Prop :=
  forall s,
    idle (state_of (m s)) = idle s
    /\ awaiting (state_of (m s)) = awaiting s
    /\ exists msgs,
         trace (state_of (m s)) = (trace s ++ map ConsoleWarn msgs)%list.

(** ** Invariants *)

(** [m] leaves [P] true when it finds it true, whether it returns or
    throws. *)
Definition preserves {A : Type} (P : world -> Prop) (m : W A) : Prop :=
  forall s, P s -> P (state_of (m s)).

(** What single mode tracks *)
Definition tracked (s : world) : bool * value :=
  (singleModeHasLastValue (self s), singleModeLastValue (self s)).

(** The value tracked in single mode, if any, is not nil. *)
Definition tracks_a_value (s : world) : Prop :=
  singleModeHasLastValue (self s) = true ->
  isNil (singleModeLastValue (self s)) = false.


(** A new handle is bound to [A] and [c] is appended through it. *)
Definition append_through (A c : nat) : M DomProxy.heap nat :=
  h <- DomProxy.DomProxy ;;
  DomProxy.set_realCurrent h (Some A) ;;
  DomProxy.call_method h "appendChild" [VNode c] ;;
  ret h.

(** ** Single mode *)

(** What a single-mode pass over [v] tracks when it returns: a value that
    the value comparer takes for [v], or nothing if [v] is falsy. *)
Definition settled_on (v : value) (s : world) : Prop :=
  (singleModeHasLastValue (self s) = true
   /\ isNil v = false
   /\ valueComparer (self s) (singleModeLastValue (self s)) v = true)
  \/ (singleModeHasLastValue (self s) = false /\ truthy v = false).

(** The instance with other settings for the keys: the key assigner, the
    key comparer and the warning about repeated keys *)
Definition with_key_settings
  (assigner : option (value -> nat -> list value -> value))
  (cmp : value -> value -> bool) (wr : Warning.t) (s : world) : world :=
  put_self
    (set_mapNodeToKey assigner
       (set_keyComparer cmp (set_warning_repeated_keys wr (self s)))) s.

(** The instance with [p] printed before everything else *)
Definition with_history (p : list effect) (s : world) : world :=
  put_trace (p ++ trace s) s.

(** A watching instance in single mode whose query finds the node 1 each
    time *)
Definition the_same_node : world :=
  watching enableSingleMode (fun _ => VNode 1).

(** ** The warning about repeated keys *)

Definition is_repeated_keys (e : effect) : bool :=
  match e with
  | ConsoleWarn (RepeatedKeys _ _) => true
  | _ => false
  end.

(** How often the warning about repeated keys has been printed *)
Definition repeated_keys_warnings (s : world) : nat :=
  List.length (filter is_repeated_keys (trace s)).

(** How often a warning of [once: true] can still fire: once, unless it
    is ignored or has fired *)
Definition warnings_left (w : Warning.t) : nat :=
  if Warning.ignored w || negb (Nat.eqb (Warning.warned w) 0)
  then 0%nat else 1%nat.

(** The count of the printed warnings and the warning object *)
Definition repeated_keys_tally (s : world) : nat * Warning.t :=
  (repeated_keys_warnings s, _warning_repeated_keys (self s)).

(** The warning is of [once: true], it can fire at most [b] times more, and
    with those the count comes to [B]. *)
Definition within (b B : nat) (s : world) : Prop :=
  Warning.once (_warning_repeated_keys (self s)) = Warning.OnceBool true
  /\ (warnings_left (_warning_repeated_keys (self s)) <= b)%nat
  /\ (repeated_keys_warnings s
      + warnings_left (_warning_repeated_keys (self s)))%nat = B.

(** A watching instance that gives every node the same key and whose query
    finds two values each time *)
Definition same_key_twice : world := watching one_key letters_a_b.

(** A callback factory that returns an [onNodeMutation] hook for every
    key *)
Definition mutation_hooks : forEachFn :=
  fun _ => URObject None None (Some 0%nat).

(** ** What a pass lets out *)

Definition call_key (c : factory_call) : value :=
  match c with
  | WithNode _ key _ => key
  | WithoutNode _ key => key
  end.

Definition call_node (c : factory_call) : value :=
  match c with
  | WithNode _ _ realNode => realNode
  | WithoutNode node _ => node
  end.

(** The [onTargetChanged] calls of the keys whose node has changed *)
Definition target_changes (w : watcher)
  (changed : list (value * value * value * value)) : list effect :=
  flat_map (fun u =>
    match u with
    | (oldNode, newNode, oldKey, _) =>
        match change_of (callbacks_at (lastCallbackMap w) oldKey) with
        | Some f => [HookTargetChanged f newNode oldNode]
        | None => []
        end
    end) changed.

(** Events, settled awaits and console messages *)
Definition is_report (e : effect) : Prop :=
  match e with
  | Emit _ | Resolved _ | ConsoleWarn _ => True
  | _ => False
  end.

(** [m] lets out nothing but reports, whether it returns or throws. *)
Definition reports {A : Type} (m : W A) : Prop :=
  forall s,
    exists d,
      trace (state_of (m s)) = (trace s ++ d)%list /\ Forall is_report d.

(* ================================================================== *)
(** * Properties *)

(** ** Same-value-zero decides equality *)

Section ValueInduction.
Variable P : value -> Prop.
Hypothesis P_undefined : P VUndefined.
Hypothesis P_null : P VNull.
Hypothesis P_bool : forall b, P (VBool b).
Hypothesis P_num : forall n, P (VNum n).
Hypothesis P_nan : P VNaN.
Hypothesis P_str : forall s, P (VStr s).
Hypothesis P_node : forall n, P (VNode n).
Hypothesis P_obj : forall r, P (VObj r).
Hypothesis P_arr : forall xs, Forall P xs -> P (VArr xs).

Fixpoint value_nested_ind (v : value) : P v :=
  match v with
  | VUndefined => P_undefined
  | VNull => P_null
  | VBool b => P_bool b
  | VNum n => P_num n
  | VNaN => P_nan
  | VStr s => P_str s
  | VNode n => P_node n
  | VObj r => P_obj r
  | VArr xs =>
      P_arr ((fix all (l : list value) : Forall P l :=
                match l with
                | [] => Forall_nil P
                | x :: l' => Forall_cons x (value_nested_ind x) (all l')
                end) xs)
  end.
End ValueInduction.

Lemma value_eqb_eq (a b : value) : value_eqb a b = true <-> a = b.
Proof.
  revert b. induction a using value_nested_ind; intros y; destruct y;
    simpl; try (split; [discriminate | intros E; discriminate E]);
    try (split; reflexivity).
  - rewrite Bool.eqb_true_iff. split; congruence.
  - rewrite Z.eqb_eq. split; congruence.
  - rewrite String.eqb_eq. split; congruence.
  - rewrite Nat.eqb_eq. split; congruence.
  - rewrite Nat.eqb_eq. split; congruence.
  - rename xs0 into ys. revert ys.
    induction H as [|x xs Hx Hxs IH]; intros ys; destruct ys as [|y ys];
      try (split; [discriminate | intros E; discriminate E]).
    + split; reflexivity.
    + rewrite Bool.andb_true_iff, Hx, IH.
      split; [intros [-> E]; congruence | intros E; split; congruence].
Qed.

Lemma value_eqb_refl (a : value) : value_eqb a a = true.
Proof. apply value_eqb_eq. reflexivity. Qed.

Lemma value_eqb_neq (a b : value) : value_eqb a b = false <-> a <> b.
Proof.
  split.
  - intros E ->. rewrite value_eqb_refl in E. discriminate.
  - intros N. destruct (value_eqb a b) eqn:E; [|reflexivity].
    apply value_eqb_eq in E. contradiction.
Qed.


(** ** Framing: what a computation leaves alone *)

Section Keeps.
Variables S X : Type.
Variable f : S -> X.

Lemma keeps_ret (A : Type) (a : A) : keeps f (ret a).
Proof. intros s. reflexivity. Qed.

Lemma keeps_throw (A : Type) (e : js_error) : keeps f (@throw S A e).
Proof. intros s. reflexivity. Qed.

Lemma keeps_gets (A : Type) (g : S -> A) : keeps f (gets g).
Proof. intros s. reflexivity. Qed.

Lemma keeps_bind (A B : Type) (m : M S A) (k : A -> M S B) :
  keeps f m -> (forall a, keeps f (k a)) -> keeps f (bind m k).
Proof.
  intros Hm Hk s. unfold bind. specialize (Hm s).
  destruct (m s) as [a s'|e s']; simpl in Hm.
  - rewrite Hk. exact Hm.
  - exact Hm.
Qed.

Lemma keeps_modify (g : S -> S) :
  (forall s, f (g s) = f s) -> keeps f (modify g).
Proof. intros H s. apply H. Qed.

Lemma keeps_when (c : bool) (m : M S unit) :
  keeps f m -> keeps f (when c m).
Proof. intros H. destruct c; [exact H | apply keeps_ret]. Qed.

Lemma keeps_for_each (A : Type) (l : list A) (body : A -> M S unit) :
  (forall a, keeps f (body a)) -> keeps f (for_each l body).
Proof.
  intros H. induction l as [|x l IH]; simpl.
  - apply keeps_ret.
  - apply keeps_bind; [apply H | intros _; exact IH].
Qed.

Lemma keeps_try_catch (A : Type) (m : M S A) (h : js_error -> M S A) :
  keeps f m -> (forall e, keeps f (h e)) -> keeps f (try_catch m h).
Proof.
  intros Hm Hh s. unfold try_catch. specialize (Hm s).
  destruct (m s) as [a s'|e s']; simpl in Hm.
  - exact Hm.
  - rewrite Hh. exact Hm.
Qed.

End Keeps.

Lemma keeps_zoom (S T A X : Type) (f : S -> X) (proj : S -> T)
  (inj : T -> S -> S) (m : M T A) :
  (forall t s, f (inj t s) = f s) -> keeps f (zoom proj inj m).
Proof.
  intros H s. unfold zoom. destruct (m (proj s)); simpl; apply H.
Qed.

(** ** What a check leaves alone *)

Ltac frame_leaf := intros; cbv beta; first [reflexivity | solve [auto]].

Ltac frame_step :=
  lazymatch goal with
  | |- keeps _ (bind _ _) => apply keeps_bind; [|intros ?]
  | |- keeps _ (ret _) => apply keeps_ret
  | |- keeps _ (throw _) => apply keeps_throw
  | |- keeps _ (gets _) => apply keeps_gets
  | |- keeps _ (when _ _) => apply keeps_when
  | |- keeps _ (for_each _ _) => apply keeps_for_each; intros ?
  | |- keeps _ (try_catch _ _) => apply keeps_try_catch; [|intros ?]
  | |- keeps _ (zoom _ _ _) => apply keeps_zoom; frame_leaf
  | |- keeps _ (modify _) => apply keeps_modify; frame_leaf
  | |- keeps _ (match ?x with _ => _ end) => destruct x
  | |- keeps _ (let _ := _ in _) => cbv zeta
  | |- keeps _ _ =>
      progress unfold this, update_this, in_heap, note, noNeedInSingleMode,
        raise, listening_to, bind_first, apply_remove, apply_target_change,
        apply_warn_mutation, stopWatch, resolve
  end.

Ltac frame := repeat frame_step.

(** A component [f] of the state that none of the following touches: the
    handles and the document, the trace, the idle queue, the pending
    awaits, [isWatching] and the two warnings of a pass. *)
Section Frame.
Variable X : Type.
Variable f : world -> X.
Hypothesis f_heap : forall x s, f (put_heap x s) = f s.
Hypothesis f_trace : forall x s, f (put_trace x s) = f s.
Hypothesis f_idle : forall x s, f (put_idle x s) = f s.
Hypothesis f_awaiting : forall x s, f (put_awaiting x s) = f s.
Hypothesis f_isWatching :
  forall x s, f (put_self (set_isWatching x (self s)) s) = f s.
Hypothesis f_repeated_keys :
  forall x s, f (put_self (set_warning_repeated_keys x (self s)) s) = f s.
Hypothesis f_single_mode :
  forall x s, f (put_self (set_warning_single_mode x (self s)) s) = f s.
Hypothesis f_generation :
  forall cb vn ks ns s,
    f (put_self (set_generation cb vn ks ns (self s)) s) = f s.
Hypothesis f_last :
  forall v has s, f (put_self (set_singleModeLast v has (self s)) s) = f s.
Hypothesis f_callback :
  forall x s, f (put_self (set_singleModeCallback x (self s)) s) = f s.

Lemma run_awaiters_keeps (nodes : list value) (l : list awaiter) :
  keeps f (run_awaiters nodes l).
Proof.
  induction l as [|a l IH]; simpl; frame; try exact IH.
Qed.

Lemma emit_keeps (e : event) : keeps f (emit e).
Proof. unfold emit. frame; apply run_awaiters_keeps. Qed.

Lemma add_new_keys_keeps (find_new : value -> value) (keys : list value)
  (next : next_maps) : keeps f (add_new_keys find_new keys next).
Proof.
  revert next. induction keys as [|k keys IH]; intros next; simpl;
    frame; try apply IH.
Qed.

Lemma schedule_removals_keeps (w : watcher) (gone : list value) :
  keeps f (schedule_removals w gone).
Proof. unfold schedule_removals. frame. Qed.

Lemma rebind_changed_keeps (w : watcher)
  (changed : list (value * value * value * value)) :
  keeps f (rebind_changed w changed).
Proof. unfold rebind_changed. frame. Qed.

Lemma repeated_keys_warning_keeps (c : bool) (m : console_message) :
  keeps f (when c (raise _warning_repeated_keys set_warning_repeated_keys
                     m)).
Proof. frame. Qed.

(** The part of a pass that follows the assignment of the generation *)
Lemma pass_tail_keeps (iteration_event : event)
  (changed : list (value * value * value * value)) (gone new : list value)
  (c : bool) (old_node new_node : value -> value) (cur : list value) :
  keeps f
    (iteration <- listening_to onIteration ;;
     when (iteration && c) (emit iteration_event) ;;
     change <- listening_to onChange ;;
     when change
       (for_each changed (fun u =>
          match u with
          | (oldNode, newNode, oldKey, newKey) =>
              emit (EvChange oldKey newKey oldNode newNode)
          end)) ;;
     remove <- listening_to onRemove ;;
     when remove
       (for_each gone (fun key => emit (EvRemove key (old_node key)))) ;;
     add <- listening_to onAdd ;;
     when add
       (for_each new (fun key => emit (EvAdd key (new_node key)))) ;;
     match array_get cur 0 with
     | VNode n => bind_first (Some n)
     | VUndefined | VNull => bind_first None
     | _ => ret tt
     end ;;
     when (Nat.ltb 1 (List.length cur))
       (update_this (fun w =>
          set_warning_single_mode
            (Warning.set_ignored true (_warning_single_mode w)) w)) ;;
     when (Nat.eqb (List.length cur) 1)
       (raise _warning_single_mode set_warning_single_mode
          SuggestSingleMode)).
Proof. frame; apply emit_keeps. Qed.

Lemma normalModeWatcherCallback_keeps (cur : list value) :
  keeps f (normalModeWatcherCallback cur).
Proof.
  unfold normalModeWatcherCallback. frame;
    first [ apply schedule_removals_keeps
          | apply add_new_keys_keeps
          | apply rebind_changed_keeps
          | apply emit_keeps ].
Qed.

Lemma singleModeWatcherCallback_keeps (v : value) :
  keeps f (singleModeWatcherCallback v).
Proof. unfold singleModeWatcherCallback. frame; apply emit_keeps. Qed.

Hypothesis f_evaluations : forall x s, f (put_evaluations x s) = f s.

Lemma watcherChecker_keeps : keeps f watcherChecker.
Proof.
  unfold watcherChecker. frame;
    first [ intros s; apply f_evaluations
          | apply singleModeWatcherCallback_keeps
          | apply normalModeWatcherCallback_keeps ].
Qed.

End Frame.

Lemma watcherChecker_keeps_settings : keeps settings watcherChecker.
Proof. apply watcherChecker_keeps; intros; reflexivity. Qed.


(** ** Single mode: falsy values *)

(** C10.  In single mode, when no last value is tracked, a pass that
    evaluates a value that is falsy but neither [undefined] nor [null]
    (0, the empty string, [false], [NaN]) is a no-op: the callback factory
    is not called, no [onAdd] is emitted (the trace is as before) and the
    value is not stored (the instance is as before). *)
Theorem single_mode_ignores_falsy_values (firstValue : value) (s : world) :
  truthy firstValue = false ->
  isNil firstValue = false ->
  singleModeHasLastValue (self s) = false ->
  singleModeWatcherCallback firstValue s = Ret tt s.
Proof.
  intros Hfalsy Hnil Hlast.
  unfold singleModeWatcherCallback, bind, this, gets, ret.
  destruct firstValue; simpl in Hfalsy, Hnil; try discriminate;
    simpl; rewrite Hlast; simpl; try rewrite Hfalsy; reflexivity.
Qed.

Lemma single_mode_ignores_falsy_values_witness :
  let s := construct (fun _ => VUndefined) in
  singleModeWatcherCallback (VNum 0) s = Ret tt s
  /\ singleModeWatcherCallback (VStr EmptyString) s = Ret tt s
  /\ singleModeWatcherCallback (VBool false) s = Ret tt s
  /\ singleModeWatcherCallback VNaN s = Ret tt s.
Proof.
  intros s. split; [|split; [|split]];
    apply single_mode_ignores_falsy_values; reflexivity.
Defined.

(** ** Stopping keeps the generation *)

(** C9.  [stopWatch] clears [isWatching] and nothing else: the key list,
    the node list, both maps and the single-mode last value are the ones
    seen before the stop, and so are the handles, the idle queue and the
    trace.  A [startWatch] after it therefore runs exactly the pass that
    [startWatch] would have run without the stop, diffing against the
    retained generation. *)
Theorem stopWatch_keeps_generation (s : world) :
  exists s',
    stopWatch s = Ret tt s'
    /\ isWatching (self s') = false
    /\ lastKeyList (self s') = lastKeyList (self s)
    /\ lastNodeList (self s') = lastNodeList (self s)
    /\ lastCallbackMap (self s') = lastCallbackMap (self s)
    /\ lastVirtualNodesMap (self s') = lastVirtualNodesMap (self s)
    /\ singleModeLastValue (self s') = singleModeLastValue (self s)
    /\ singleModeHasLastValue (self s') = singleModeHasLastValue (self s)
    /\ singleModeCallback (self s') = singleModeCallback (self s)
    /\ set_isWatching (isWatching (self s)) (self s') = self s
    /\ put_self (self s) s' = s
    /\ startWatch s' = startWatch s.
Proof.
  eexists. split; [reflexivity|].
  destruct s as [w hp sel n q aw tr]. destruct w. simpl.
  repeat split; reflexivity.
Qed.

(** ** The suggestion to switch to single mode *)

(** A [warning] created with [once: 15] never calls its function:
    [warned] is only incremented past the test [warned <= once], which
    holds from the start. *)
Lemma warn_once_number_is_silent (n : Z) (w : Warning.t) :
  Warning.once w = Warning.OnceNum n -> (0 <= n)%Z ->
  Warning.warned w = O ->
  Warning.warn w = (w, false).
Proof.
  intros Honce Hn Hwarned. unfold Warning.warn.
  rewrite Honce, Hwarned. simpl.
  destruct (Warning.ignored w); [reflexivity|].
  destruct (Z.leb_spec 0 n); [reflexivity | lia].
Qed.

(** C8 (as the code runs).  A new multi-mode watcher whose LiveSelector
    yields exactly one Target in each of twenty passes never prints the
    suggestion, and its warning object still has [warned = 0]. *)
Theorem single_mode_suggestion_stays_silent :
  let s := checks 19 (state_of (startWatch
                         (construct (fun _ => VArr [VNode 0])))) in
  evaluations s = 20%nat
  /\ existsb is_suggestion (trace s) = false
  /\ Warning.ignored (_warning_single_mode (self s)) = false
  /\ Warning.warned (_warning_single_mode (self s)) = O.
Proof. vm_compute. repeat split; reflexivity. Qed.

(** ** Scheduling: coalescing of triggers *)





(** ** Awaiting the watcher *)

(** A threshold below 1 is refused before anything else happens. *)
Lemma then_rejects_small_threshold (f : option (value -> value))
  (n : Z) (starter : W unit) (s : world) :
  (n < 1)%Z ->
  then_ f None (Some n) starter s
  = Ret (Rejected invalid_minimalResultsRequired) s.
Proof.
  intros H. unfold then_, then_async, bind.
  destruct (Z.ltb_spec n 1); [reflexivity | lia].
Qed.

(** With enough results at the first evaluation nothing is started: the
    only change is that the LiveSelector was evaluated once.  The value
    delivered is the elementwise image of the results, passed once more
    through [onfulfilled] by the final [.then(onfulfilled, onrejected)]. *)
Lemma then_with_enough_results (f : option (value -> value))
  (g : option (js_error -> value)) (n : option Z) (starter : W unit)
  (s : world) (nodes : list value) :
  let threshold := match n with Some k => k | None => 1%Z end in
  singleMode (self s) = false ->
  (1 <= threshold <= Z.of_nat (List.length nodes))%Z ->
  selector s (evaluations s) = VArr nodes ->
  then_ f g n starter s
  = Ret (Fulfilled (map_of f (VArr (map (map_of f) nodes))))
        (put_evaluations (S (evaluations s)) s).
Proof.
  intros threshold Hmode [Hlo Hhi] Hsel.
  unfold then_, then_async, bind, this, gets, evaluateOnce.
  fold threshold.
  destruct (Z.ltb_spec threshold 1); [lia|].
  rewrite Hmode. simpl. rewrite Hsel. simpl.
  destruct (Z.leb_spec threshold (Z.of_nat (List.length nodes))); [|lia].
  reflexivity.
Qed.

(** C4 (as the code runs).  A multi-mode watcher whose query yields two
    results is awaited with the transform [x => [x]] and the default
    threshold.  The promise is fulfilled at once and nothing is started,
    but with the transform applied to the list of transformed results,
    [[[["a"], ["b"]]]], not with the transformed results [[["a"], ["b"]]]. *)
Theorem then_transforms_the_mapped_results_again :
  let s := construct (fun _ => VArr [VStr "a"; VStr "b"]) in
  then_ (Some wrap) None None startWatch s
  = Ret (Fulfilled (VArr [VArr [VArr [VStr "a"]; VArr [VStr "b"]]]))
        (put_evaluations 1 s)
  /\ VArr [VArr [VArr [VStr "a"]; VArr [VStr "b"]]]
     <> VArr (map wrap [VStr "a"; VStr "b"]).
Proof.
  intros s. split.
  - exact (then_with_enough_results (Some wrap) None None startWatch s
             (nodes := [VStr "a"; VStr "b"]) eq_refl
             (conj (Z.le_refl 1) (Zle_bool_imp_le 1 2 eq_refl)) eq_refl).
  - discriminate.
Qed.




(** ** The handle: effects across rebinding *)

Section HandleEffects.
Import DomProxy.

Ltac heap_simpl :=
  cbn [proxies dom next_proxy set_dom set_proxy upd_elem upd_proxy log
       Dom.elem Dom.next_node Dom.update
       isDestroyed virtualBefore virtualBeforeShadow current virtualAfter
       virtualAfterShadow changes revoked observer
       set_current set_changes unused] in *.

Ltac run_monad :=
  repeat (progress (unfold bind, ret, gets, modify, throw, when, in_dom,
                     zoom, proxy, update_proxy, element_of, push, live,
                     get_current, for_anchor; heap_simpl)).









Lemma rebind_no_effects (hp : heap) (h cur next : nat) :
  bound_to hp h cur ->
  cur <> next ->
  changes (proxies hp h) = [] ->
  set_realCurrent h (Some next) hp
  = Ret tt (upd_proxy h (set_current (Some next)) hp).
Proof.
  intros (Hd & Hr & Hc & Hb & Ha) Hne Hlog.
  assert (E : Nat.eqb next cur = false) by (apply Nat.eqb_neq; congruence).
  unfold set_realCurrent. run_monad.
  rewrite Hd, Hc. unfold option_nat_eqb. rewrite E.
  unfold undoEffects, redoEffects. run_monad. rewrite Hlog, Hb, Ha.
  cbn [for_each]. run_monad. rewrite Nat.eqb_refl. run_monad.
  rewrite Hlog. reflexivity.
Qed.









(** C6 (as the code runs).  Through a handle bound to element 0 a style
    property is assigned, a listener registered and element 1 appended;
    then the handle is unbound.  The listener is removed from element 0
    and the style value restored, but element 1 is still a child of
    element 0: the undo looks for the appended node in [thisArg[0]], which
    is [undefined], not in the recorded arguments. *)
Theorem unbinding_leaves_the_appended_child :
  match (h <- use_handle 0 "color" "red" click ;;
         call_method h "appendChild" [VNode 1] ;;
         set_realCurrent h None ;;
         ret h) (page 2)
  with
  | Ret h hp =>
      realCurrent (proxies hp h) <> Some 0%nat
      /\ Dom.has_listener (Dom.elem (dom hp) 0) click = false
      /\ Dom.style_value (Dom.elem (dom hp) 0) "color" = EmptyString
      /\ Dom.is_child (dom hp) 0 1 = true
  | Throw _ _ => False
  end.
Proof. vm_compute. repeat split; try reflexivity. discriminate. Qed.




End HandleEffects.
(** ** Keys under an equivalence *)

Section KeyEquality.
Variable A : Type.
Variable cmp : A -> A -> bool.
Variable D : A -> Prop.

Hypothesis E : key_equality cmp D.

Local Abbreviation includes := (Lodash.arrayIncludesWith cmp).

Lemma includes_In (l : list A) (v : A) :
  includes l v = true <-> exists x, In x l /\ cmp v x = true.
Proof. unfold Lodash.arrayIncludesWith. apply existsb_exists. Qed.

Lemma includes_same (l : list A) (v v' : A) :
  Forall D l -> D v -> D v' -> cmp v v' = true ->
  includes l v = includes l v'.
Proof.
  intros Hl Hv Hv' Hc. apply Bool.eq_iff_eq_true. rewrite !includes_In.
  rewrite Forall_forall in Hl.
  split; intros (x & Hx & Hcx); exists x; (split; [exact Hx|]).
  - apply (same_trans E) with v; auto. apply (same_sym E); auto.
  - apply (same_trans E) with v'; auto.
Qed.

Lemma includes_app (l r : list A) (v : A) :
  includes (l ++ r) v = includes l v || includes r v.
Proof. apply existsb_app. Qed.

Lemma In_differenceWith (a b : list A) (x : A) :
  In x (Lodash.differenceWith cmp a b) <-> In x a /\ includes b x = false.
Proof.
  unfold Lodash.differenceWith. rewrite filter_In, Bool.negb_true_iff.
  reflexivity.
Qed.

Lemma includes_differenceWith (a b : list A) (k : A) :
  Forall D a -> Forall D b -> D k ->
  includes (Lodash.differenceWith cmp a b) k
  = includes a k && negb (includes b k).
Proof.
  intros Ha Hb Hk. apply Bool.eq_iff_eq_true.
  rewrite Bool.andb_true_iff, Bool.negb_true_iff, !includes_In.
  pose proof Ha as Ha'. rewrite Forall_forall in Ha'.
  split.
  - intros (x & Hx & Hc). apply In_differenceWith in Hx as [Hx Hn].
    split; [exists x; auto|].
    rewrite (includes_same (v := k) (v' := x)); auto.
  - intros [(x & Hx & Hc) Hn]. exists x. split; [|exact Hc].
    apply In_differenceWith. split; [exact Hx|].
    rewrite <- (includes_same (v := k) (v' := x)); auto.
Qed.

(** *** The intersection loop *)

Lemma includes_rev (l : list A) (v : A) : includes (rev l) v = includes l v.
Proof.
  apply Bool.eq_iff_eq_true. rewrite !includes_In.
  split; intros (x & Hx & Hc); exists x; (split; [|exact Hc]).
  - apply in_rev. exact Hx.
  - apply in_rev in Hx. exact Hx.
Qed.

Lemma findIndex_Some (p : A -> bool) (l : list A) (i : nat) (d : A) :
  findIndex p l = Some i -> (i < List.length l)%nat /\ p (nth i l d) = true.
Proof.
  revert i. induction l as [|x l IH]; intros i; simpl; [discriminate|].
  destruct (p x) eqn:Hp.
  - intros [= <-]. split; [lia | exact Hp].
  - destruct (findIndex p l) as [j|]; [|discriminate].
    intros [= <-]. destruct (IH j eq_refl). split; [lia | assumption].
Qed.

Lemma findIndex_existsb (p : A -> bool) (l : list A) :
  existsb p l = true -> exists i, findIndex p l = Some i.
Proof.
  induction l as [|x l IH]; simpl; [discriminate|].
  destruct (p x); [eexists; reflexivity|]. simpl. intros H.
  destruct (IH H) as [i ->]. eexists; reflexivity.
Qed.

Lemma place_spec (other : list A) (r d : A) :
  includes other r = true ->
  (place cmp other r < List.length other)%nat
  /\ cmp r (nth (place cmp other r) other d) = true.
Proof.
  intros H. unfold place.
  destruct (@findIndex_existsb _ _ H) as [i Hi]. rewrite Hi.
  exact (@findIndex_Some _ _ _ d Hi).
Qed.

Lemma distinct_places (other l : list A) :
  Forall D other -> Forall D l -> distinct cmp l ->
  Forall (fun r => includes other r = true) l ->
  NoDup (map (place cmp other) l).
Proof.
  intros Ho. induction l as [|x l IH]; intros Hl Hd Hi; simpl.
  - constructor.
  - destruct Hd as [Hx Hd]. inversion Hl as [|? ? Dx Dl]; subst.
    inversion Hi as [|? ? Ix Il]; subst.
    constructor; [|apply IH; assumption].
    intros Hin. apply in_map_iff in Hin as (y & Hy & Iny).
    assert (Dy : D y) by (rewrite Forall_forall in Dl; auto).
    assert (Iy : includes other y = true)
      by (rewrite Forall_forall in Il; auto).
    destruct (@place_spec other x x Ix) as [Lx Cx].
    destruct (@place_spec other y x Iy) as [Ly Cy].
    rewrite Hy in Cy.
    assert (Dn : D (nth (place cmp other x) other x)).
    { rewrite Forall_forall in Ho. apply Ho. apply nth_In. exact Lx. }
    assert (cmp x y = true).
    { apply (same_trans E) with (nth (place cmp other x) other x); auto.
      apply (same_sym E); auto. }
    assert (includes l x = true) by (apply includes_In; exists y; auto).
    congruence.
Qed.

(** As many distinct keys as [other] has elements leave no element of
    [other] without its like. *)
Lemma saturated (other l : list A) :
  Forall D other -> Forall D l -> distinct cmp l ->
  Forall (fun r => includes other r = true) l ->
  (List.length other <= List.length l)%nat ->
  forall v, D v -> includes other v = true -> includes l v = true.
Proof.
  intros Ho Hl Hd Hi Hlen v Dv Hv.
  pose proof (distinct_places Ho Hl Hd Hi) as ND.
  assert (Incl : incl (map (place cmp other) l) (seq 0 (List.length other))).
  { intros i Hin. apply in_map_iff in Hin as (y & <- & Iny).
    apply in_seq. rewrite Forall_forall in Hi.
    destruct (@place_spec other y y (Hi y Iny)). lia. }
  assert (Back : incl (seq 0 (List.length other)) (map (place cmp other) l)).
  { apply NoDup_length_incl; [exact ND| |exact Incl].
    rewrite length_seq, length_map. exact Hlen. }
  apply includes_In in Hv as (y & Iny & Cy).
  destruct (In_nth _ _ v Iny) as (i & Li & <-).
  assert (Hin : In i (map (place cmp other) l)).
  { apply Back. apply in_seq. lia. }
  apply in_map_iff in Hin as (r & Hr & Inr).
  rewrite Forall_forall in Hi, Hl, Ho.
  destruct (@place_spec other r v (Hi r Inr)) as [_ Cr]. rewrite Hr in Cr.
  assert (Dn : D (nth i other v)) by (apply Ho; apply nth_In; exact Li).
  apply includes_In. exists r. split; [exact Inr|].
  apply (same_trans E) with (nth i other v); auto.
  apply (same_sym E); auto.
Qed.

Lemma intersect_saturated (other rest result : list A) :
  (forall v, In v rest -> includes other v = true ->
             includes result v = true) ->
  intersect cmp other rest result = result.
Proof.
  induction rest as [|v rest IH]; intros H; simpl; [reflexivity|].
  destruct (includes other v) eqn:Hv.
  - rewrite (H v (or_introl eq_refl) Hv). simpl.
    apply IH. intros x Hx. apply H. right. exact Hx.
  - rewrite Bool.andb_false_r. apply IH. intros x Hx. apply H. right.
    exact Hx.
Qed.

(** On keys, the bound of [baseIntersection] never cuts the result. *)
Lemma intersection_loop_intersect (whole other rest result : list A) :
  Forall D other -> Forall D rest -> Forall D result ->
  distinct cmp result ->
  Forall (fun r => includes other r = true) result ->
  (List.length result + List.length rest <= List.length whole)%nat ->
  Lodash.intersection_loop cmp
    (Nat.min (List.length whole) (List.length other)) other rest result
  = rev (intersect cmp other rest result).
Proof.
  intros Ho. revert result.
  induction rest as [|v rest IH]; intros result Hr Hres Hd Hi Hlen;
    [reflexivity|].
  cbn [Lodash.intersection_loop].
  inversion Hr as [|? ? Dv Drest]; subst.
  rewrite includes_rev.
  destruct (Nat.ltb_spec (List.length result)
              (Nat.min (List.length whole) (List.length other)))
    as [Hlt|Hge].
  - cbn [intersect].
    destruct (negb (includes result v) && includes other v) eqn:Hc.
    + apply Bool.andb_true_iff in Hc as [Hn Hv].
      apply Bool.negb_true_iff in Hn.
      apply IH; auto.
      * simpl. split; assumption.
      * simpl in *. lia.
    + apply IH; auto. simpl in *. lia.
  - simpl in Hlen.
    assert (Hfull : (List.length other <= List.length result)%nat) by lia.
    rewrite (@intersect_saturated other (v :: rest) result).
    + reflexivity.
    + intros x Hx Hox. apply (saturated Ho Hres Hd Hi Hfull); auto.
      rewrite Forall_forall in Hr. apply Hr. exact Hx.
Qed.

Lemma In_intersect (other rest result : list A) (x : A) :
  In x (intersect cmp other rest result) ->
  In x result \/ (In x rest /\ includes other x = true).
Proof.
  revert result. induction rest as [|v rest IH]; intros result; simpl.
  - intros H. left. exact H.
  - destruct (negb (includes result v) && includes other v) eqn:Hc.
    + intros H. apply IH in H as [[<-|H]|[H Hx]]; auto.
      apply Bool.andb_true_iff in Hc as [_ Hv]. auto.
    + intros H. apply IH in H as [H|[H Hx]]; auto.
Qed.

Lemma find_snoc (p : A -> bool) (l : list A) (v : A) :
  find p (l ++ [v])
  = match find p l with
    | Some r => Some r
    | None => if p v then Some v else None
    end.
Proof.
  induction l as [|x l IH]; simpl; [reflexivity|].
  destruct (p x); [reflexivity | exact IH].
Qed.

Lemma find_app (p : A -> bool) (l r : list A) :
  find p (l ++ r)
  = match find p l with
    | Some x => Some x
    | None => find p r
    end.
Proof.
  induction l as [|x l IH]; simpl; [reflexivity|].
  destruct (p x); [reflexivity | exact IH].
Qed.


Lemma find_includes (l : list A) (k : A) :
  includes l k = true <-> find (fun o => cmp k o) l <> None.
Proof.
  unfold Lodash.arrayIncludesWith.
  induction l as [|x l IH]; simpl.
  - split; [discriminate | intros H; contradiction].
  - destruct (cmp k x); simpl; [split; [discriminate | reflexivity]|].
    exact IH.
Qed.

(** The intersection keeps, of every kind of key that [other] knows, the
    first one in the array. *)
Lemma find_intersect (other rest result : list A) (k : A) :
  Forall D other -> Forall D rest -> Forall D result -> D k ->
  includes other k = true ->
  find (fun o => cmp k o) (rev (intersect cmp other rest result))
  = match find (fun o => cmp k o) (rev result) with
    | Some r => Some r
    | None => find (fun o => cmp k o) rest
    end.
Proof.
  intros Ho Hr Hres Dk Hk. revert result Hres.
  induction rest as [|v rest IH]; intros result Hres; cbn [intersect find].
  - destruct (find _ (rev result)); reflexivity.
  - inversion Hr as [|? ? Dv Drest]; subst.
    destruct (negb (includes result v) && includes other v) eqn:Hc.
    + rewrite IH by (try constructor; assumption).
      cbn [rev]. rewrite find_snoc.
      destruct (find _ (rev result)); [reflexivity|].
      destruct (cmp k v); reflexivity.
    + rewrite IH by assumption.
      destruct (find (fun o => cmp k o) (rev result)) eqn:Hf;
        [reflexivity|].
      destruct (cmp k v) eqn:Hkv; [|reflexivity].
      exfalso.
      assert (Hov : includes other v = true).
      { rewrite <- (@includes_same other k v); auto. }
      rewrite Hov, Bool.andb_true_r in Hc.
      apply Bool.negb_false_iff in Hc.
      apply includes_In in Hc as (r & Hin & Hvr).
      assert (Dr : D r) by (rewrite Forall_forall in Hres; auto).
      assert (Hkr : cmp k r = true)
        by (apply (same_trans E) with v; auto).
      assert (Hno : cmp k r = false).
      { apply (find_none _ _ Hf r). rewrite <- in_rev. exact Hin. }
      congruence.
Qed.

Lemma intersectionWith_intersect (a b : list A) :
  Forall D a -> Forall D b ->
  Lodash.intersectionWith cmp a b = rev (intersect cmp b a []).
Proof.
  intros Ha Hb. unfold Lodash.intersectionWith.
  apply intersection_loop_intersect; simpl; auto.
Qed.

Lemma In_intersectionWith (a b : list A) (x : A) :
  Forall D a -> Forall D b ->
  In x (Lodash.intersectionWith cmp a b) ->
  In x a /\ includes b x = true.
Proof.
  intros Ha Hb. rewrite intersectionWith_intersect by assumption.
  rewrite <- in_rev. intros H.
  apply In_intersect in H as [[]|H]. exact H.
Qed.

Lemma find_intersectionWith (a b : list A) (k : A) :
  Forall D a -> Forall D b -> D k -> includes b k = true ->
  find (fun o => cmp k o) (Lodash.intersectionWith cmp a b)
  = find (fun o => cmp k o) a.
Proof.
  intros Ha Hb Dk Hk. rewrite intersectionWith_intersect by assumption.
  rewrite find_intersect by (try constructor; assumption). reflexivity.
Qed.

Lemma includes_intersectionWith (a b : list A) (k : A) :
  Forall D a -> Forall D b -> D k ->
  includes (Lodash.intersectionWith cmp a b) k
  = includes a k && includes b k.
Proof.
  intros Ha Hb Dk. destruct (includes b k) eqn:Hk.
  - rewrite Bool.andb_true_r. apply Bool.eq_iff_eq_true.
    rewrite !find_includes, find_intersectionWith by assumption.
    reflexivity.
  - rewrite Bool.andb_false_r.
    destruct (includes (Lodash.intersectionWith cmp a b) k) eqn:Hi;
      [|reflexivity].
    apply includes_In in Hi as (x & Hx & Hc).
    apply In_intersectionWith in Hx as [Hxa Hxb]; try assumption.
    assert (Dx : D x) by (rewrite Forall_forall in Ha; auto).
    rewrite (@includes_same b k x) in Hk by assumption. congruence.
Qed.


Lemma same_flip (a b : A) : D a -> D b -> cmp a b = cmp b a.
Proof.
  intros Da Db. apply Bool.eq_iff_eq_true.
  split; apply (same_sym E); auto.
Qed.




Lemma find_absent (p : A -> bool) (l : list A) :
  (forall x, In x l -> p x = false) -> find p l = None.
Proof.
  induction l as [|x l IH]; intros H; simpl; [reflexivity|].
  rewrite (H x (or_introl eq_refl)). apply IH. intros y Hy. apply H.
  right. exact Hy.
Qed.


End KeyEquality.


(** ** The handle map across a pass *)

Section MapFacts.
Variable V : Type.

Lemma keys_set (k : value) (v : V) (m : JsMap.t V) (x : value) :
  In x (JsMap.keys (JsMap.set k v m)) <-> In x (JsMap.keys m) \/ x = k.
Proof.
  induction m as [|[k' v'] m IH]; simpl.
  - split; [intros [<- | []]; auto | intros [[] | ->]; auto].
  - destruct (value_eqb k' k) eqn:Ek; simpl.
    + apply value_eqb_eq in Ek. subst. intuition.
    + unfold JsMap.keys in IH. rewrite IH. intuition.
Qed.

Lemma find_keys_set (p : value -> bool) (k : value) (v : V)
  (m : JsMap.t V) :
  find p (JsMap.keys (JsMap.set k v m)) = find p (JsMap.keys m ++ [k]).
Proof.
  induction m as [|[k' v'] m IH]; simpl; [reflexivity|].
  destruct (value_eqb k' k) eqn:Ek; simpl.
  - apply value_eqb_eq in Ek. subst k'.
    destruct (p k) eqn:Hp; [reflexivity|].
    rewrite find_snoc, Hp. unfold JsMap.keys.
    destruct (find p (map fst m)); reflexivity.
  - destruct (p k'); [reflexivity | exact IH].
Qed.

Lemma get_set (k x : value) (v : V) (m : JsMap.t V) :
  JsMap.get (JsMap.set k v m) x
  = if value_eqb k x then Some v else JsMap.get m x.
Proof.
  induction m as [|[k' v'] m IH]; simpl.
  - reflexivity.
  - destruct (value_eqb k' k) eqn:Ek; simpl.
    + apply value_eqb_eq in Ek. subst k'.
      destruct (value_eqb k x); reflexivity.
    + destruct (value_eqb k' x) eqn:Ex; [|exact IH].
      apply value_eqb_eq in Ex. subst k'.
      destruct (value_eqb k x) eqn:Ekx; [|reflexivity].
      apply value_eqb_eq in Ekx. subst k.
      rewrite value_eqb_refl in Ek. discriminate.
Qed.

Lemma get_In_keys (m : JsMap.t V) (x : value) (v : V) :
  JsMap.get m x = Some v -> In x (JsMap.keys m).
Proof.
  induction m as [|[k' v'] m IH]; simpl; [discriminate|].
  destruct (value_eqb k' x) eqn:Ex.
  - apply value_eqb_eq in Ex. auto.
  - auto.
Qed.

Lemma keys_set_all (f : value -> V) (ks : list value) (m : JsMap.t V)
  (x : value) :
  In x (JsMap.keys (set_all f ks m)) <-> In x (JsMap.keys m) \/ In x ks.
Proof.
  unfold set_all. revert m. induction ks as [|k ks IH]; intros m; simpl.
  - intuition.
  - rewrite IH, keys_set. intuition.
Qed.


Lemma get_set_all (f : value -> V) (ks : list value) (m : JsMap.t V)
  (x : value) :
  JsMap.get (set_all f ks m) x
  = if existsb (value_eqb x) ks then Some (f x) else JsMap.get m x.
Proof.
  unfold set_all. revert m.
  induction ks as [|k ks IH]; intros m; simpl; [reflexivity|].
  rewrite IH, get_set.
  destruct (existsb (value_eqb x) ks);
    [rewrite Bool.orb_true_r; reflexivity|].
  rewrite Bool.orb_false_r.
  destruct (value_eqb k x) eqn:Ek.
  - apply value_eqb_eq in Ek. subst. rewrite value_eqb_refl. reflexivity.
  - destruct (value_eqb x k) eqn:Ek'; [|reflexivity].
    apply value_eqb_eq in Ek'. subst. rewrite value_eqb_refl in Ek.
    discriminate.
Qed.

End MapFacts.


Section Carry.
Variable cmp : value -> value -> bool.
Variable D : value -> Prop.
Hypothesis E : key_equality cmp D.

Variables last this : list value.
Variable vn : JsMap.t (option nat).
Variable handled : list value.
Variable nvn : JsMap.t (option nat).

Local Abbreviation includes := (Lodash.arrayIncludesWith cmp).
Local Abbreviation new := (Lodash.differenceWith cmp this last).
Local Abbreviation newSame := (Lodash.intersectionWith cmp this last).

Hypothesis Dlast : Forall D last.
Hypothesis Dthis : Forall D this.
Hypothesis keys_known : incl (JsMap.keys vn) last.
Hypothesis keys_first : forall m, In m (JsMap.keys vn) ->
  find (fun x => cmp x m) (JsMap.keys vn) = find (fun x => cmp x m) last.
Hypothesis nvn_keys : forall x, In x (JsMap.keys nvn) <-> In x handled.
Hypothesis nvn_find : forall p,
  find p (JsMap.keys nvn) = find p handled.
Hypothesis handled_new : incl handled new.
Hypothesis handled_first : forall m, In m handled ->
  find (fun x => cmp x m) handled = find (fun x => cmp x m) this.






Lemma carried_keys_known : incl (JsMap.keys (carried cmp last this vn nvn)) this.
Proof.
  intros x Hx. unfold carried in Hx. apply keys_set_all in Hx as [Hx|Hx].
  - apply nvn_keys, handled_new, In_differenceWith in Hx as [Hx _].
    exact Hx.
  - apply (@In_intersectionWith _ cmp D E this last x Dthis Dlast) in Hx
      as [Hx _].
    exact Hx.
Qed.



End Carry.

Lemma add_new_keys_handled (find_new : value -> value) (ks : list value) :
  forall (next next' : next_maps) (s s' : world),
  add_new_keys find_new ks next s = Ret next' s' ->
  (forall p, find p (JsMap.keys (snd next'))
             = find p (JsMap.keys (snd next)
                       ++ handled_keys (useForeachFn (self s)) find_new ks))
  /\ (forall x, In x (JsMap.keys (snd next'))
                <-> In x (JsMap.keys (snd next))
                    \/ In x (handled_keys (useForeachFn (self s))
                               find_new ks)).
Proof.
  induction ks as [|k ks IH]; intros next next' s s'.
  - simpl. intros [= <- <-]. unfold handled_keys.
    destruct (useForeachFn (self s)); simpl; rewrite ?app_nil_r;
      split; intros; intuition.
  - cbn [add_new_keys]. unfold bind at 1. unfold this, gets.
    destruct (useForeachFn (self s)) as [fn|] eqn:Hfn.
    2:{ intros [= <- <-]. simpl. rewrite app_nil_r.
        split; intros; intuition. }
    cbn [handled_keys filter].
    destruct (find_new k) eqn:Hnode; cbn [instanceofNode].
    7:{ (* a node *)
      unfold bind, in_heap, zoom, note, modify.
      destruct (DomProxy.DomProxy (heap s)) as [vnode hp1|];
        [|discriminate].
      cbn [heap put_heap].
      destruct (DomProxy.set_realCurrent vnode (Some id) hp1)
        as [[] hp2|]; [|discriminate].
      cbn [heap put_heap put_trace].
      set (callbacks := fn (WithNode vnode k (VNode id))).
      destruct callbacks as [|f|r c [m|]].
      all: cbn [ret heap put_heap put_trace];
        try (destruct (DomProxy.update_proxy _ _ _) as [[] hp3|];
             [|discriminate]);
        intros H; apply IH in H as [H1 H2]; cbn [self put_heap put_trace snd]
          in H1, H2; rewrite Hfn in H1, H2; cbn [handled_keys] in H1, H2;
        split.
      all: try (intros p; rewrite H1;
                change (k :: ?l) with ([k] ++ l)%list;
                rewrite app_assoc, !(find_app p _ (filter _ ks)),
                  find_keys_set; reflexivity).
      all: intros x; rewrite H2, keys_set; cbn [In]; intuition. }
    all: unfold bind, note, modify, apply_warn_mutation;
      destruct (mutation_of _); [unfold throw; discriminate|];
      cbn [ret]; intros H; apply IH in H as [H1 H2];
      cbn [self put_trace snd] in H1, H2; rewrite Hfn in H1, H2;
      cbn [handled_keys] in H1, H2; split; assumption.
Qed.

Section HandledFirst.
Variable cmp : value -> value -> bool.
Variable D : value -> Prop.
Hypothesis E : key_equality cmp D.
Variables last this cur : list value.
Hypothesis Dlast : Forall D last.
Hypothesis Dthis : Forall D this.
Variable fn : option forEachFn.


Lemma handled_keys_new :
  incl (handled_keys fn (findNodeFromListByKey cmp cur this)
          (Lodash.differenceWith cmp this last))
       (Lodash.differenceWith cmp this last).
Proof.
  unfold handled_keys. destruct fn; [|intros x []].
  intros x Hx. apply filter_In in Hx as [Hx _]. exact Hx.
Qed.


End HandledFirst.

Lemma copy_same_keys_snd (w : watcher) (old new : list value)
  (next : next_maps) :
  snd (copy_same_keys w old new next)
  = set_all (fun newKey =>
               handle_at (lastVirtualNodesMap w)
                 (or_undefined
                    (array_find (fun o => keyComparer w newKey o) old)))
      new (snd next).
Proof.
  unfold copy_same_keys, set_all. revert next.
  induction new as [|k new IH]; intros next; simpl; [reflexivity|].
  rewrite IH. reflexivity.
Qed.

Lemma state_of_bind (S A B : Type) (P : S -> Prop) (m : M S A)
  (k : A -> M S B) (s : S) :
  (forall e s1, m s = Throw e s1 -> P s1) ->
  (forall a s1, m s = Ret a s1 -> P (state_of (k a s1))) ->
  P (state_of (bind m k s)).
Proof.
  intros Ht Hr. unfold bind. destruct (m s) as [a s1|e s1].
  - exact (Hr a s1 eq_refl).
  - exact (Ht e s1 eq_refl).
Qed.

Lemma keeps_Ret (S A X : Type) (f : S -> X) (m : M S A) (s s1 : S)
  (a : A) : keeps f m -> m s = Ret a s1 -> f s1 = f s.
Proof. intros K H. specialize (K s). rewrite H in K. exact K. Qed.

Lemma keeps_Throw (S A X : Type) (f : S -> X) (m : M S A) (s s1 : S)
  (e : js_error) : keeps f m -> m s = Throw e s1 -> f s1 = f s.
Proof. intros K H. specialize (K s). rewrite H in K. exact K. Qed.


(** ** The default comparer *)

Lemma strict_eq_eq (a b : value) : strict_eq a b = true -> a = b.
Proof.
  unfold strict_eq. destruct a; try discriminate; intros H;
    apply value_eqb_eq in H; exact H.
Qed.

Lemma strict_eq_refl (a : value) : not_NaN a -> strict_eq a a = true.
Proof.
  unfold not_NaN, strict_eq. intros H.
  destruct a; try apply value_eqb_refl. contradiction.
Qed.

Lemma strict_eq_key_equality : key_equality strict_eq not_NaN.
Proof.
  split.
  - exact strict_eq_refl.
  - intros a b Da _ H. apply strict_eq_eq in H. subst b.
    apply strict_eq_refl. exact Da.
  - intros a b c _ _ _ H1 H2. apply strict_eq_eq in H1. subst b. exact H2.
Qed.

(** ** Handles across passes *)









(** ** The partition of the keys *)

(** C1.  Partition completeness.  For a pass over [currentIteration] with
    a key comparer that is an equivalence on the keys in play: a key is
    among the previous or the current keys exactly when it is among the
    gone, the new or the same keys; the same keys taken from the previous
    list and from the current list are the same set; and no key is in two
    of the three sets.  Membership is membership under the key
    comparer. *)
Theorem keys_are_partitioned (D : value -> Prop) (w : watcher)
  (currentIteration : list value) (k : value)
  (E : key_equality (keyComparer w) D)
  (Dlast : Forall D (lastKeyList w))
  (Dthis : Forall D (keys_of w currentIteration))
  (Dk : D k) :
  Lodash.arrayIncludesWith (keyComparer w)
    (lastKeyList w ++ keys_of w currentIteration) k
  = Lodash.arrayIncludesWith (keyComparer w)
      (goneKeys w (keys_of w currentIteration)) k
    || Lodash.arrayIncludesWith (keyComparer w)
         (newKeys w (keys_of w currentIteration)) k
    || Lodash.arrayIncludesWith (keyComparer w)
         (oldSameKeys w (keys_of w currentIteration)) k
  /\ Lodash.arrayIncludesWith (keyComparer w)
       (oldSameKeys w (keys_of w currentIteration)) k
     = Lodash.arrayIncludesWith (keyComparer w)
         (newSameKeys w (keys_of w currentIteration)) k
  /\ Lodash.arrayIncludesWith (keyComparer w)
       (goneKeys w (keys_of w currentIteration)) k
     && Lodash.arrayIncludesWith (keyComparer w)
          (newKeys w (keys_of w currentIteration)) k = false
  /\ Lodash.arrayIncludesWith (keyComparer w)
       (goneKeys w (keys_of w currentIteration)) k
     && Lodash.arrayIncludesWith (keyComparer w)
          (oldSameKeys w (keys_of w currentIteration)) k = false
  /\ Lodash.arrayIncludesWith (keyComparer w)
       (newKeys w (keys_of w currentIteration)) k
     && Lodash.arrayIncludesWith (keyComparer w)
          (oldSameKeys w (keys_of w currentIteration)) k = false.
Proof.
  unfold goneKeys, newKeys, oldSameKeys, newSameKeys.
  rewrite includes_app.
  rewrite !(@includes_differenceWith _ _ D E) by assumption.
  rewrite !(@includes_intersectionWith _ _ D E) by assumption.
  destruct (Lodash.arrayIncludesWith (keyComparer w) (lastKeyList w) k),
    (Lodash.arrayIncludesWith (keyComparer w) (keys_of w currentIteration)
       k); repeat split; reflexivity.
Qed.

(** After a first pass over ['a'] and ['b'], a pass over ['b'] and ['c']:
    ['b'] is not both gone and the same. *)
Lemma keys_are_partitioned_witness :
  let w := self (watching (ret tt) letters_a_b) in
  let this := keys_of w [VStr "b"; VStr "c"] in
  Lodash.arrayIncludesWith (keyComparer w) (goneKeys w this) (VStr "b")
  && Lodash.arrayIncludesWith (keyComparer w) (oldSameKeys w this) (VStr "b")
  = false.
Proof.
  intros w this.
  apply (@keys_are_partitioned not_NaN w [VStr "b"; VStr "c"] (VStr "b")).
  - exact strict_eq_key_equality.
  - vm_compute. repeat constructor; discriminate.
  - vm_compute. repeat constructor; discriminate.
  - discriminate.
Defined.

(* ================================================================== *)
(** * Further properties of the code *)

(** ** The [warning] helper *)

Lemma warn_ignored (w : Warning.t) :
  Warning.ignored w = true -> Warning.warn w = (w, false).
Proof. intros H. unfold Warning.warn. rewrite H. reflexivity. Qed.

Lemma warn_times_ignored (n : nat) (w : Warning.t) :
  Warning.ignored w = true -> warn_times n w = (w, O).
Proof.
  intros H. induction n as [|n IH]; [reflexivity|].
  cbn [warn_times]. rewrite (warn_ignored w H), IH. reflexivity.
Qed.

(** After a first warning, an object with a truthy [once] stays silent. *)
Lemma warn_times_warned (n : nat) (w : Warning.t) :
  Warning.warned w <> O -> Warning.once_truthy (Warning.once w) = true ->
  warn_times n w = (w, O).
Proof.
  intros Hw Ho. induction n as [|n IH]; [reflexivity|].
  cbn [warn_times]. unfold Warning.warn at 1.
  destruct (Warning.ignored w); [rewrite IH; reflexivity|].
  apply Nat.eqb_neq in Hw. rewrite Hw, Ho. cbn [negb andb].
  rewrite IH. reflexivity.
Qed.

Lemma warn_times_number (n : nat) (k : Z) (w : Warning.t) :
  Warning.once w = Warning.OnceNum k -> (0 <= k)%Z ->
  Warning.warned w = O -> warn_times n w = (w, O).
Proof.
  intros Ho Hk Hw. induction n as [|n IH]; [reflexivity|].
  cbn [warn_times]. rewrite (@warn_once_number_is_silent k w Ho Hk Hw), IH.
  reflexivity.
Qed.

(** X1.  How often a new [warning] fires in [n] calls: once at most when
    [once] is [true] or a negative number, every time when [once] is
    [false], and never when [once] is a number from 0 on; an ignored
    warning never fires and is left as it is. *)
Theorem warning_fires_by_once (o : Warning.once_option) (n : nat) :
  snd (warn_times n (Warning.warning o))
  = match o with
    | Warning.OnceBool true => Nat.min 1 n
    | Warning.OnceBool false => n
    | Warning.OnceNum k => if (k <? 0)%Z then Nat.min 1 n else O
    end
  /\ forall w, warn_times n (Warning.set_ignored true w)
               = (Warning.set_ignored true w, O).
Proof.
  split; [|intros w; apply warn_times_ignored; reflexivity].
  destruct o as [[|]|k].
  - destruct n as [|n]; [reflexivity|].
    cbn [warn_times]. cbn.
    rewrite warn_times_warned by (cbn; congruence). reflexivity.
  - assert (H : forall c, snd (warn_times n
                {| Warning.ignored := false; Warning.warned := c;
                   Warning.once := Warning.OnceBool false |}) = n).
    { clear. induction n as [|n IH]; intros c; [reflexivity|].
      cbn [warn_times]. unfold Warning.warn at 1. cbn.
      rewrite Bool.andb_false_r.
      specialize (IH (S c)).
      destruct (warn_times n _) as [w2 c2]. cbn in *. congruence. }
    exact (H O).
  - destruct (Z.ltb_spec k 0) as [Hk|Hk].
    + destruct n as [|n]; [reflexivity|].
      cbn [warn_times]. unfold Warning.warn at 1. cbn.
      destruct (Z.leb_spec 0 k); [lia|].
      rewrite warn_times_warned; [reflexivity|cbn; congruence|].
      cbn. destruct (Z.eqb_spec k 0); [lia|reflexivity].
    + rewrite (@warn_times_number n k); reflexivity || assumption.
Qed.

(** ** The handle on its own *)

Section Handles.
Import DomProxy.

Ltac hp_simpl :=
  cbn [proxies dom next_proxy set_dom set_proxy
       Dom.elem Dom.next_node Dom.update
       isDestroyed virtualBefore virtualBeforeShadow current virtualAfter
       virtualAfterShadow changes revoked observer
       set_current set_changes set_virtualBefore set_virtualAfter unused
       upd_elem upd_proxy log]
    in *.

Ltac hp_run :=
  repeat (progress (unfold bind, ret, gets, modify, throw, when, in_dom,
                     zoom, proxy, update_proxy, element_of, push, live,
                     get_current, for_anchor, Dom.remove; hp_simpl)).

Lemma destroy_returns (hp : heap) (h : nat) :
  exists hp',
    destroy h hp = Ret tt hp' /\ isDestroyed (proxies hp' h) = true.
Proof.
  unfold destroy. hp_run.
  destruct (virtualBefore (proxies hp h)), (virtualAfter (proxies hp h));
    hp_run; eexists; (split; [reflexivity|]); hp_simpl;
    rewrite Nat.eqb_refl; reflexivity.
Qed.

(** X2.  [destroy()] always returns.  Afterwards the getters [realCurrent],
    [weakBefore] and [weakAfter] read [null]; [before], [after], [current]
    and the setter [realCurrent] throw a [TypeError]; every operation on the
    forwarding reference throws, the proxy being revoked; none of these
    changes anything.  The other handles are as they were. *)
Theorem destroyed_handle_is_unusable (hp : heap) (h : nat)
  (node : option nat) (key : string) :
  exists hp',
    destroy h hp = Ret tt hp'
    /\ realCurrent (proxies hp' h) = None
    /\ weakBefore (proxies hp' h) = None
    /\ weakAfter (proxies hp' h) = None
    /\ before h hp'
       = Throw (TypeError
           "Try to access `before` node after VirtualNode is destroyed") hp'
    /\ after h hp'
       = Throw (TypeError
           "Try to access `after` node after VirtualNode is destroyed") hp'
    /\ get_current h hp'
       = Throw (TypeError
           "Try to access `current` node after VirtualNode is destroyed") hp'
    /\ set_realCurrent h node hp'
       = Throw (TypeError "You can not set current for a destroyed proxy")
           hp'
    /\ trap_get h key hp'
       = Throw (TypeError "Cannot perform operation on a revoked proxy") hp'
    /\ forall h', h' <> h -> proxies hp' h' = proxies hp h'.
Proof.
  unfold destroy. hp_run.
  destruct (virtualBefore (proxies hp h)), (virtualAfter (proxies hp h));
    hp_run; eexists; (split; [reflexivity|]);
    unfold realCurrent, weakBefore, weakAfter, before, after,
      set_realCurrent, trap_get; hp_run; rewrite Nat.eqb_refl; hp_run;
    repeat (split; [reflexivity|]);
    intros h' Hne; apply Nat.eqb_neq in Hne; rewrite Hne; reflexivity.
Qed.

Lemma insert_adjacent_next_node (side : bool) (target : nat)
  (ns : list nat) (d : Dom.t) :
  Dom.next_node (state_of (Dom.insert_adjacent side target ns d))
  = Dom.next_node d.
Proof.
  unfold Dom.insert_adjacent, modify. cbn [state_of].
  destruct (Dom.parent_of d target); [|reflexivity].
  cbn [Dom.update Dom.next_node].
  induction ns as [|x ns IH]; [reflexivity|exact IH].
Qed.

(** X3.  The anchors are made on demand and once.  On a handle that is not
    destroyed, [before] returns an element and never throws; [weakBefore]
    and every later [before] return that same element, and the later call
    changes nothing.  If the handle had no [before] anchor, the element is
    a new one; if it had one, this is it and nothing changes.  The same
    holds of [after] and [weakAfter]. *)
Theorem anchors_are_created_once (hp : heap) (h : nat) :
  isDestroyed (proxies hp h) = false ->
  (exists b hp',
     before h hp = Ret b hp'
     /\ weakBefore (proxies hp' h) = Some b
     /\ before h hp' = Ret b hp'
     /\ (weakBefore (proxies hp h) = None ->
         b = Dom.next_node (dom hp) /\ Dom.next_node (dom hp') = S b)
     /\ (forall b0, weakBefore (proxies hp h) = Some b0 ->
         b = b0 /\ hp' = hp))
  /\ (exists a hp',
        after h hp = Ret a hp'
        /\ weakAfter (proxies hp' h) = Some a
        /\ after h hp' = Ret a hp'
        /\ (weakAfter (proxies hp h) = None ->
            a = Dom.next_node (dom hp) /\ Dom.next_node (dom hp') = S a)
        /\ (forall a0, weakAfter (proxies hp h) = Some a0 ->
            a = a0 /\ hp' = hp)).
Proof.
  intros Hd. split.
  - unfold before, weakBefore. hp_run. rewrite Hd.
    destruct (virtualBefore (proxies hp h)) as [b0|] eqn:Hb.
    + exists b0, hp. rewrite Hd, Hb.
      repeat (split; [reflexivity|]). split; [discriminate|].
      intros b1 [= <-]. split; reflexivity.
    + unfold Dom.createElement. hp_run.
      destruct (current (proxies hp h)) as [cur|]; hp_run.
      * destruct (Dom.insert_adjacent false cur [Dom.next_node (dom hp)] _)
          as [[] d'|e d'] eqn:Hins; [|discriminate Hins].
        eexists _, _. split; [reflexivity|]. hp_simpl.
        rewrite Nat.eqb_refl. hp_simpl. rewrite Hd.
        repeat (split; [reflexivity|]). split; [|discriminate].
        intros _. split; [reflexivity|].
        match type of Hins with
        | Dom.insert_adjacent ?s ?t ?n ?d = _ =>
            pose proof (insert_adjacent_next_node s t n d) as Hn
        end.
        rewrite Hins in Hn. exact Hn.
      * eexists _, _. split; [reflexivity|]. hp_simpl.
        rewrite Nat.eqb_refl. hp_simpl. rewrite Hd.
        repeat (split; [reflexivity|]). split; [|discriminate].
        intros _. split; reflexivity.
  - unfold after, weakAfter. hp_run. rewrite Hd.
    destruct (virtualAfter (proxies hp h)) as [a0|] eqn:Ha.
    + exists a0, hp. rewrite Hd, Ha.
      repeat (split; [reflexivity|]). split; [discriminate|].
      intros a1 [= <-]. split; reflexivity.
    + unfold Dom.createElement. hp_run.
      destruct (current (proxies hp h)) as [cur|]; hp_run.
      * destruct (Dom.insert_adjacent true cur [Dom.next_node (dom hp)] _)
          as [[] d'|e d'] eqn:Hins; [|discriminate Hins].
        eexists _, _. split; [reflexivity|]. hp_simpl.
        rewrite Nat.eqb_refl. hp_simpl. rewrite Hd.
        repeat (split; [reflexivity|]). split; [|discriminate].
        intros _. split; [reflexivity|].
        match type of Hins with
        | Dom.insert_adjacent ?s ?t ?n ?d = _ =>
            pose proof (insert_adjacent_next_node s t n d) as Hn
        end.
        rewrite Hins in Hn. exact Hn.
      * eexists _, _. split; [reflexivity|]. hp_simpl.
        rewrite Nat.eqb_refl. hp_simpl. rewrite Hd.
        repeat (split; [reflexivity|]). split; [|discriminate].
        intros _. split; reflexivity.
Qed.

Lemma anchors_are_created_once_witness :
  exists b hp',
    before 0 (with_handle 1) = Ret b hp'
    /\ weakBefore (proxies hp' 0) = Some b.
Proof.
  destruct (@anchors_are_created_once (with_handle 1) 0%nat eq_refl)
    as [(b & hp' & H1 & H2 & _) _].
  exists b, hp'. split; assumption.
Defined.

(** *** What the undo and the replay leave alone *)

Lemma bind_Ret (S A B : Type) (m : M S A) (k : A -> M S B) (s s' : S)
  (b : B) :
  bind m k s = Ret b s' ->
  exists a s1, m s = Ret a s1 /\ k a s1 = Ret b s'.
Proof.
  unfold bind. destruct (m s) as [a s1|e s1]; [|discriminate].
  intros H. exists a, s1. split; [reflexivity|exact H].
Qed.

Lemma keeps_zoom_in (S T A X : Type) (g : T -> X) (proj : S -> T)
  (inj : T -> S -> S) (m : M T A) :
  (forall t s, proj (inj t s) = t) ->
  keeps g m -> keeps (fun s => g (proj s)) (zoom proj inj m).
Proof.
  intros Hp Hm s. unfold zoom. specialize (Hm (proj s)).
  destruct (m (proj s)); cbn [state_of] in *; rewrite Hp; exact Hm.
Qed.

Lemma binding_set_proxy (h0 h : nat) (f : t -> t) (hp : heap) :
  (forall p, (isDestroyed (f p), revoked (f p), current (f p),
              virtualBefore (f p), virtualAfter (f p))
             = (isDestroyed p, revoked p, current p, virtualBefore p,
                virtualAfter p)) ->
  binding h0 (set_proxy h (f (proxies hp h)) hp) = binding h0 hp.
Proof.
  intros Hf. unfold binding. cbn [proxies set_proxy].
  destruct (Nat.eqb_spec h0 h) as [->|_]; [apply Hf|reflexivity].
Qed.

Ltac binding_leaf :=
  intros; cbv beta;
  first [ reflexivity
        | apply binding_set_proxy; intros; reflexivity ].

Ltac handle_frame leaf :=
  repeat
    lazymatch goal with
    | |- keeps _ (bind _ _) => apply keeps_bind; [|intros ?]
    | |- keeps _ (ret _) => apply keeps_ret
    | |- keeps _ (throw _) => apply keeps_throw
    | |- keeps _ (gets _) => apply keeps_gets
    | |- keeps _ (when false _) => apply keeps_ret
    | |- keeps _ (when _ _) => apply keeps_when
    | |- keeps _ (for_each _ _) => apply keeps_for_each; intros ?
    | |- keeps _ (modify _) => apply keeps_modify; leaf
    | |- keeps _ (zoom _ _ _) => leaf
    | |- keeps _ (match ?x with _ => _ end) => destruct x
    | |- keeps _ _ =>
        progress unfold in_dom, proxy, update_proxy, element_of, push, live,
          trap_get, trap_set, trap_deleteProperty, trap_meta, this_index0,
          removeChild_value, for_anchor
    end.

Ltac binding_frame :=
  handle_frame ltac:(first [ apply keeps_zoom; binding_leaf
                           | binding_leaf ]).

Lemma undoEffects_keeps_binding (h0 h : nat) (next : option nat) :
  keeps (binding h0) (undoEffects h next).
Proof. unfold undoEffects, undo_change. binding_frame. Qed.

Lemma redoEffects_keeps_binding (h0 h : nat) :
  keeps (binding h0) (redoEffects h).
Proof. unfold redoEffects, redo_change. binding_frame. Qed.

Lemma dom_keeps_next_node_modify (f : Dom.t -> Dom.t) :
  (forall d, Dom.next_node (f d) = Dom.next_node d) ->
  keeps Dom.next_node (modify f).
Proof. intros H. apply keeps_modify. exact H. Qed.

Lemma detach_next_node (c : nat) (d : Dom.t) :
  Dom.next_node (Dom.detach c d) = Dom.next_node d.
Proof. reflexivity. Qed.

Lemma removeEventListener_keeps_next_node (id : nat) (l : list value) :
  keeps Dom.next_node (Dom.removeEventListener id l).
Proof. apply keeps_modify. reflexivity. Qed.

Lemma addEventListener_keeps_next_node (id : nat) (l : list value) :
  keeps Dom.next_node (Dom.addEventListener id l).
Proof. apply keeps_modify. reflexivity. Qed.

Lemma removeChild_keeps_next_node (p c : nat) :
  keeps Dom.next_node (Dom.removeChild p c).
Proof.
  intros d. unfold Dom.removeChild. destruct (Dom.is_child d p c);
    reflexivity.
Qed.

Lemma appendChild_keeps_next_node (p c : nat) :
  keeps Dom.next_node (Dom.appendChild p c).
Proof. apply keeps_modify. reflexivity. Qed.

Lemma assign_style_keeps_next_node (id : nat) (name val : string) :
  keeps Dom.next_node (Dom.assign_style id name val).
Proof.
  intros d. unfold Dom.assign_style. destruct (Dom.hasStyle _); reflexivity.
Qed.

Lemma insert_adjacent_keeps_next_node (side : bool) (target : nat)
  (ns : list nat) :
  keeps Dom.next_node (Dom.insert_adjacent side target ns).
Proof. intros d. apply insert_adjacent_next_node. Qed.

Lemma remove_keeps_next_node (c : nat) : keeps Dom.next_node (Dom.remove c).
Proof. apply keeps_modify. reflexivity. Qed.

Lemma call_keeps_next_node (id : nat) (name : string) (args : list value) :
  keeps Dom.next_node (Dom.call id name args).
Proof.
  unfold Dom.call.
  repeat lazymatch goal with
    | |- keeps _ (bind _ _) => apply keeps_bind; [|intros ?]
    | |- keeps _ (ret _) => apply keeps_ret
    | |- keeps _ (throw _) => apply keeps_throw
    | |- keeps _ (match ?x with _ => _ end) => destruct x
    end;
    first [ apply appendChild_keeps_next_node
          | apply removeChild_keeps_next_node
          | apply addEventListener_keeps_next_node
          | apply removeEventListener_keeps_next_node
          | apply insert_adjacent_keeps_next_node
          | apply remove_keeps_next_node ].
Qed.

Lemma in_dom_keeps_elements (A : Type) (m : M Dom.t A) :
  keeps Dom.next_node m -> keeps elements (in_dom m).
Proof.
  intros H. unfold in_dom.
  exact (@keeps_zoom_in _ _ _ _ Dom.next_node dom set_dom m
           (fun _ _ => eq_refl) H).
Qed.

Ltac elements_leaf :=
  first [ apply in_dom_keeps_elements;
          first [ apply removeEventListener_keeps_next_node
                | apply removeChild_keeps_next_node
                | apply assign_style_keeps_next_node
                | apply call_keeps_next_node
                | apply insert_adjacent_keeps_next_node
                | apply remove_keeps_next_node
                | apply keeps_modify; reflexivity ]
        | intros; reflexivity ].

Ltac elements_frame :=
  repeat
    lazymatch goal with
    | |- keeps _ (bind _ _) => apply keeps_bind; [|intros ?]
    | |- keeps _ (ret _) => apply keeps_ret
    | |- keeps _ (throw _) => apply keeps_throw
    | |- keeps _ (gets _) => apply keeps_gets
    | |- keeps _ (when false _) => apply keeps_ret
    | |- keeps _ (when _ _) => apply keeps_when
    | |- keeps _ (for_each _ _) => apply keeps_for_each; intros ?
    | |- keeps _ (modify _) => apply keeps_modify; elements_leaf
    | |- keeps _ (in_dom _) => elements_leaf
    | |- keeps _ (match ?x with _ => _ end) => destruct x
    | |- keeps _ _ =>
        progress unfold proxy, update_proxy, element_of, push, live,
          trap_get, trap_set, trap_deleteProperty, trap_meta, this_index0,
          removeChild_value, for_anchor
    end.

Lemma undoEffects_keeps_elements (h : nat) (next : option nat) :
  keeps elements (undoEffects h next).
Proof. unfold undoEffects, undo_change. elements_frame. Qed.

Lemma redoEffects_keeps_elements (h : nat) :
  keeps elements (redoEffects h).
Proof. unfold redoEffects, redo_change. elements_frame. Qed.

Lemma set_realCurrent_binds (hp hp' : heap) (h : nat)
  (node : option nat) :
  set_realCurrent h node hp = Ret tt hp' ->
  match node with
  | Some n => realCurrent (proxies hp' h) = Some n
  | None =>
      current (proxies hp h) <> None ->
      realCurrent (proxies hp' h) = Some (elements hp)
      /\ elements hp' = S (elements hp)
  end.
Proof.
  unfold set_realCurrent. intros H.
  apply bind_Ret in H as (p & hp0 & Hp & H).
  unfold proxy, gets in Hp. injection Hp as <- <-.
  destruct (isDestroyed (proxies hp h)) eqn:Hd; [discriminate|].
  destruct (option_nat_eqb node (current (proxies hp h))) eqn:Heq.
  { injection H as <-. unfold realCurrent. rewrite Hd.
    destruct node as [n|], (current (proxies hp h)) as [c|];
      cbn in Heq; try discriminate.
    - apply Nat.eqb_eq in Heq. subst. reflexivity.
    - intros Hc. congruence. }
  apply bind_Ret in H as ([] & hp1 & Hundo & H).
  assert (B1 : binding h hp1 = binding h hp).
  { eapply keeps_Ret; [|exact Hundo]. apply undoEffects_keeps_binding. }
  assert (E1 : elements hp1 = elements hp).
  { eapply keeps_Ret; [|exact Hundo]. apply undoEffects_keeps_elements. }
  destruct node as [n|].
  - apply bind_Ret in H as ([] & hp2 & Hset & H).
    apply bind_Ret in H as ([] & hp3 & Hafter & H).
    apply bind_Ret in H as ([] & hp4 & Hbefore & H).
    assert (B5 : binding h hp' = binding h hp4).
    { eapply keeps_Ret; [|exact H]. apply redoEffects_keeps_binding. }
    assert (B3 : binding h hp3 = binding h hp2).
    { eapply keeps_Ret; [|exact Hafter]. binding_frame. }
    assert (B4 : binding h hp4 = binding h hp3).
    { eapply keeps_Ret; [|exact Hbefore]. binding_frame. }
    unfold update_proxy, modify in Hset. injection Hset as <-.
    unfold binding in *. cbn [proxies set_proxy] in *.
    rewrite Nat.eqb_refl in *. cbn [isDestroyed current set_current] in *.
    unfold realCurrent.
    replace (isDestroyed (proxies hp' h)) with false by congruence.
    congruence.
  - intros _.
    apply bind_Ret in H as (div & hp2 & Hdiv & H).
    apply bind_Ret in H as ([] & hp3 & Hset & H).
    apply bind_Ret in H as ([] & hp4 & Hbefore & H).
    assert (B5 : binding h hp' = binding h hp4).
    { eapply keeps_Ret; [|exact H]. binding_frame. }
    assert (B4 : binding h hp4 = binding h hp3).
    { eapply keeps_Ret; [|exact Hbefore]. binding_frame. }
    assert (E5 : elements hp' = elements hp4).
    { eapply keeps_Ret; [|exact H]. elements_frame. }
    assert (E4 : elements hp4 = elements hp3).
    { eapply keeps_Ret; [|exact Hbefore]. elements_frame. }
    unfold in_dom, zoom, Dom.createElement in Hdiv.
    injection Hdiv as <- <-.
    unfold update_proxy, modify in Hset. injection Hset as <-.
    unfold binding, elements in *. cbn [proxies set_proxy dom set_dom
      Dom.next_node] in *.
    rewrite Nat.eqb_refl in *. cbn [isDestroyed current set_current] in *.
    unfold realCurrent.
    replace (isDestroyed (proxies hp' h)) with false by congruence.
    split; congruence.
Qed.

(** X4.  Reading [realCurrent] after it was set.  When the assignment of a
    node returns, [realCurrent] reads that node.  When the assignment of
    [null] to a bound handle returns, [realCurrent] does not read [null]
    but a new element, the placeholder the handle is now bound to. *)
Theorem realCurrent_after_set (hp hp' : heap) (h : nat)
  (node : option nat) :
  set_realCurrent h node hp = Ret tt hp' ->
  match node with
  | Some n => realCurrent (proxies hp' h) = Some n
  | None =>
      current (proxies hp h) <> None ->
      realCurrent (proxies hp' h) = Some (elements hp)
      /\ elements hp' = S (elements hp)
  end.
Proof. apply set_realCurrent_binds. Qed.

Lemma realCurrent_after_set_witness :
  realCurrent (proxies (state_of (set_realCurrent 0 (Some 0%nat)
                                    (with_handle 1))) 0) = Some 0%nat.
Proof.
  exact (@realCurrent_after_set (with_handle 1) _ 0%nat (Some 0%nat)
           eq_refl).
Defined.

(** *** Effects follow the handle *)




End Handles.

(** ** Assignments through a handle *)

Section Writes.
Import DomProxy.

Ltac hp_simpl :=
  cbn [proxies dom next_proxy set_dom set_proxy
       Dom.elem Dom.next_node Dom.update
       isDestroyed virtualBefore virtualBeforeShadow current virtualAfter
       virtualAfterShadow changes revoked observer
       set_current set_changes set_virtualBefore set_virtualAfter unused
       upd_elem upd_proxy log]
    in *.

Ltac hp_run :=
  repeat (progress (unfold bind, ret, gets, modify, throw, when, in_dom,
                     zoom, proxy, update_proxy, element_of, push, live,
                     get_current, for_anchor, Dom.remove; hp_simpl)).



Lemma is_child_app (d : Dom.t) (p c : nat) (l : list nat) :
  Dom.children (Dom.elem d p) = (l ++ [c])%list ->
  Dom.is_child d p c = true.
Proof.
  intros H. unfold Dom.is_child. rewrite H, existsb_app. cbn.
  rewrite Nat.eqb_refl. apply Bool.orb_true_r.
Qed.

Lemma is_child_without (c : nat) (l : list nat) :
  existsb (Nat.eqb c) (Dom.without c l) = false.
Proof.
  unfold Dom.without. induction l as [|x l IH]; [reflexivity|].
  cbn [filter]. destruct (Nat.eqb_spec x c) as [->|Hne]; cbn [negb].
  - exact IH.
  - cbn [existsb]. rewrite IH.
    destruct (Nat.eqb_spec c x); [congruence|reflexivity].
Qed.

(** X7.  Appended children move with the handle.  A new handle is bound to
    [A] and a node [c], another one and without children, is appended
    through it.  When the handle is then
    bound to [B], the call is replayed on [B]: [c] is a child of [B], the
    last one, and no longer a child of [A]. *)
Theorem appended_children_move (hp : heap) (A B c : nat) :
  A <> B ->
  (A < Dom.next_node (dom hp))%nat ->
  (B < Dom.next_node (dom hp))%nat ->
  c <> A -> c <> B ->
  Dom.children (Dom.elem (dom hp) c) = [] ->
  exists h appended moved,
    append_through A c hp = Ret h appended
    /\ Dom.is_child (dom appended) A c = true
    /\ set_realCurrent h (Some B) appended = Ret tt moved
    /\ Dom.is_child (dom moved) B c = true
    /\ Dom.is_child (dom moved) A c = false.
Proof.
  intros HAB HA HB _ _ _.
  assert (E3 : Nat.eqb A B = false) by (apply Nat.eqb_neq; lia).
  assert (E4 : Nat.eqb B A = false) by (apply Nat.eqb_neq; lia).
  set (h := next_proxy hp).
  set (div := Dom.next_node (dom hp)) in *.
  set (hp0 := state_of (DomProxy hp)).
  assert (S0 : DomProxy hp = Ret h hp0) by reflexivity.
  assert (P0 : proxies hp0 h = set_current (Some div) unused).
  { unfold hp0, DomProxy, Dom.createElement. hp_run. cbn [state_of].
    hp_simpl. fold h. rewrite Nat.eqb_refl. reflexivity. }
  assert (B0 : bound_to hp0 h div).
  { unfold bound_to. rewrite P0. repeat split; reflexivity. }
  assert (L0 : changes (proxies hp0 h) = []) by (rewrite P0; reflexivity).
  set (hp1 := upd_proxy h (set_current (Some A)) hp0).
  assert (S1 : set_realCurrent h (Some A) hp0 = Ret tt hp1).
  { apply rebind_no_effects with (cur := div); [exact B0 | lia | exact L0]. }
  assert (P1 : proxies hp1 h = set_current (Some A) unused).
  { unfold hp1. hp_simpl. rewrite Nat.eqb_refl, P0. reflexivity. }
  destruct (call_method h "appendChild" [VNode c] hp1)
    as [r hp2|e hp2] eqn:S2.
  2:{ exfalso. revert S2. unfold call_method, trap_get, trap_apply,
        Dom.call, Dom.appendChild. hp_run.
      repeat (progress (rewrite ?Nat.eqb_refl, ?P1; hp_run)).
      cbn. discriminate. }
  assert (F2 : proxies hp2 h
               = set_changes [ChGet "appendChild";
                              ChCallMethods "appendChild" [VNode c]
                                ThisProxy]
                   (set_current (Some A) unused)
               /\ dom hp2
                  = Dom.update A
                      (fun e => Dom.set_children (Dom.children e ++ [c]) e)
                      (Dom.detach c (dom hp1))).
  { revert S2. unfold call_method, trap_get, trap_apply,
      Dom.call, Dom.appendChild. hp_run.
    repeat (progress (rewrite ?Nat.eqb_refl, ?P1; hp_run)).
    cbn. intros [= _ <-]. hp_simpl. rewrite ?Nat.eqb_refl, ?P1.
    split; reflexivity. }
  destruct F2 as [P2 D2].
  destruct (set_realCurrent h (Some B) hp2) as [[] hp3|e hp3] eqn:S3.
  2:{ exfalso. revert S3. unfold set_realCurrent. hp_run. rewrite P2.
      hp_simpl. unfold option_nat_eqb. rewrite E4.
      unfold undoEffects, redoEffects. hp_run. rewrite P2. hp_simpl.
      cbn [for_each undo_change]. hp_run. cbn.
      repeat (progress (rewrite ?Nat.eqb_refl, ?P2; hp_run)).
      cbn [for_each redo_change]. cbn. unfold Dom.call, Dom.appendChild.
      hp_run. cbn. discriminate. }
  assert (D3 : dom hp3
               = Dom.update B
                   (fun e => Dom.set_children (Dom.children e ++ [c]) e)
                   (Dom.detach c (dom hp2))).
  { revert S3. unfold set_realCurrent. hp_run. rewrite P2.
    hp_simpl. unfold option_nat_eqb. rewrite E4.
    unfold undoEffects, redoEffects. hp_run. rewrite P2. hp_simpl.
    cbn [for_each undo_change]. hp_run. cbn.
    repeat (progress (rewrite ?Nat.eqb_refl, ?P2; hp_run)).
    cbn [for_each redo_change]. cbn. unfold Dom.call, Dom.appendChild.
    hp_run. cbn. intros [= <-]. reflexivity. }
  exists h, hp2, hp3.
  split; [unfold append_through, bind; rewrite S0, S1, S2; reflexivity|].
  split.
  { eapply is_child_app. rewrite D2. cbn. rewrite Nat.eqb_refl. cbn.
    reflexivity. }
  split; [exact S3|]. split.
  { eapply is_child_app. rewrite D3. cbn. rewrite Nat.eqb_refl. cbn.
    reflexivity. }
  unfold Dom.is_child. rewrite D3. cbn. rewrite E3. cbn.
  apply is_child_without.
Qed.

Lemma appended_children_move_witness :
  exists h appended moved,
    append_through 0 2 (page 3) = Ret h appended
    /\ set_realCurrent h (Some 1%nat) appended = Ret tt moved
    /\ Dom.is_child (dom moved) 1 2 = true.
Proof.
  destruct (@appended_children_move (page 3) 0%nat 1%nat 2%nat)
    as (h & appended & moved & H1 & _ & H2 & H3 & _);
    [lia | cbn; lia | cbn; lia | lia | lia | reflexivity |].
  exists h, appended, moved. repeat (split; [assumption|]). exact H3.
Defined.

End Writes.

(** ** What a pass retains *)

Lemma bind_cases (S A B : Type) (P : outcome S B -> Prop) (m : M S A)
  (k : A -> M S B) (s : S) :
  (forall e s1, m s = Throw e s1 -> P (Throw e s1)) ->
  (forall a s1, m s = Ret a s1 -> P (k a s1)) ->
  P (bind m k s).
Proof.
  intros Ht Hr. unfold bind. destruct (m s) as [a s1|e s1].
  - exact (Hr a s1 eq_refl).
  - exact (Ht e s1 eq_refl).
Qed.

(** A pass either throws before the final assignment, and retains the
    generation it found, or it assigns the generation it saw: the keys,
    the nodes, and the two maps built from the new keys and the carried
    ones.  What follows the assignment leaves the generation alone. *)
Lemma pass_outcome (cur : list value) (s : world) :
  ((exists e s', normalModeWatcherCallback cur s = Throw e s')
   /\ generation (state_of (normalModeWatcherCallback cur s))
      = generation s)
  \/ exists next s0 s1,
       useForeachFn (self s0) = useForeachFn (self s)
       /\ add_new_keys
            (findFromNew (self s) cur (keys_of (self s) cur))
            (newKeys (self s) (keys_of (self s) cur))
            (JsMap.empty _, JsMap.empty _) s0
          = Ret next s1
       /\ generation (state_of (normalModeWatcherCallback cur s))
          = (keys_of (self s) cur, cur,
             fst (copy_same_keys (self s)
                    (oldSameKeys (self s) (keys_of (self s) cur))
                    (newSameKeys (self s) (keys_of (self s) cur)) next),
             snd (copy_same_keys (self s)
                    (oldSameKeys (self s) (keys_of (self s) cur))
                    (newSameKeys (self s) (keys_of (self s) cur)) next)).
Proof.
  set (w := self s). set (thisKeyList := keys_of w cur).
  unfold normalModeWatcherCallback.
  apply bind_cases; [intros e s1 H; discriminate H|].
  intros w0 s0 H. unfold this, gets in H. inversion H; subst w0 s0.
  clear H. cbv zeta. fold w. fold thisKeyList.
  apply bind_cases.
  { intros e s1 H. left. split; [eauto|]. cbn [state_of].
    eapply keeps_Throw; [|exact H].
    apply keeps_when. unfold raise. frame. }
  intros [] s1 H1.
  assert (G1 : generation s1 = generation s).
  { eapply keeps_Ret; [|exact H1]. apply keeps_when. unfold raise. frame. }
  assert (T1 : settings s1 = settings s).
  { eapply keeps_Ret; [|exact H1]. apply keeps_when. unfold raise. frame. }
  apply bind_cases.
  { intros e s2 H. left. split; [eauto|]. cbn [state_of].
    rewrite <- G1. eapply keeps_Throw; [|exact H].
    apply schedule_removals_keeps; intros; reflexivity. }
  intros [] s2 H2.
  assert (G2 : generation s2 = generation s).
  { rewrite <- G1. eapply keeps_Ret; [|exact H2].
    apply schedule_removals_keeps; intros; reflexivity. }
  assert (T2 : settings s2 = settings s).
  { rewrite <- T1. eapply keeps_Ret; [|exact H2].
    apply schedule_removals_keeps; intros; reflexivity. }
  apply bind_cases.
  { intros e s3 H. left. split; [eauto|]. cbn [state_of].
    rewrite <- G2. eapply keeps_Throw; [|exact H].
    apply add_new_keys_keeps; intros; reflexivity. }
  intros next s3 H3.
  assert (G3 : generation s3 = generation s).
  { rewrite <- G2. eapply keeps_Ret; [|exact H3].
    apply add_new_keys_keeps; intros; reflexivity. }
  apply bind_cases.
  { intros e s4 H. left. split; [eauto|]. cbn [state_of].
    rewrite <- G3. eapply keeps_Throw; [|exact H].
    apply rebind_changed_keeps; intros; reflexivity. }
  intros [] s4 H4.
  apply bind_cases; [intros e s5 H; discriminate H|].
  intros [] s5 H5. unfold update_this, modify in H5.
  injection H5 as Hs5.
  right. exists next, s2, s3.
  split; [unfold settings in T2; fold w in T2; congruence|].
  split; [exact H3|].
  match goal with
  | |- generation (state_of (?t s5)) = _ =>
      assert (K : generation (state_of (t s5)) = generation s5)
  end.
  { match goal with
    | |- generation (state_of (?t s5)) = _ =>
        apply (fun H : keeps generation t => H s5)
    end.
    frame; apply emit_keeps; intros; reflexivity. }
  rewrite K, <- Hs5. reflexivity.
Qed.

Lemma pass_returns (cur : list value) (s s' : world) :
  normalModeWatcherCallback cur s = Ret tt s' ->
  exists next s0 s1,
    useForeachFn (self s0) = useForeachFn (self s)
    /\ add_new_keys
         (findFromNew (self s) cur (keys_of (self s) cur))
         (newKeys (self s) (keys_of (self s) cur))
         (JsMap.empty _, JsMap.empty _) s0
       = Ret next s1
    /\ generation s'
       = (keys_of (self s) cur, cur,
          fst (copy_same_keys (self s)
                 (oldSameKeys (self s) (keys_of (self s) cur))
                 (newSameKeys (self s) (keys_of (self s) cur)) next),
          snd (copy_same_keys (self s)
                 (oldSameKeys (self s) (keys_of (self s) cur))
                 (newSameKeys (self s) (keys_of (self s) cur)) next)).
Proof.
  intros H. destruct (pass_outcome cur s) as [[(e & s1 & He) _]|P].
  - congruence.
  - rewrite H in P. exact P.
Qed.

(** A check retains the generation it found, unless it runs a pass that
    reaches the final assignment. *)
Lemma check_outcome (s : world) :
  generation (state_of (watcherChecker s)) = generation s
  \/ exists cur next s0 s1,
       isWatching (self s) = true
       /\ singleMode (self s) = false
       /\ selector s (evaluations s) = VArr cur
       /\ useForeachFn (self s0) = useForeachFn (self s)
       /\ add_new_keys
            (findFromNew (self s) cur (keys_of (self s) cur))
            (newKeys (self s) (keys_of (self s) cur))
            (JsMap.empty _, JsMap.empty _) s0
          = Ret next s1
       /\ generation (state_of (watcherChecker s))
          = (keys_of (self s) cur, cur,
             fst (copy_same_keys (self s)
                    (oldSameKeys (self s) (keys_of (self s) cur))
                    (newSameKeys (self s) (keys_of (self s) cur)) next),
             snd (copy_same_keys (self s)
                    (oldSameKeys (self s) (keys_of (self s) cur))
                    (newSameKeys (self s) (keys_of (self s) cur)) next)).
Proof.
  remember (state_of (watcherChecker s)) as s' eqn:Hs'.
  unfold watcherChecker, bind, this, gets, evaluateOnce in Hs'.
  destruct (isWatching (self s)) eqn:Hw; cbn [negb] in Hs'.
  2:{ cbn [ret state_of] in Hs'. subst s'. left. reflexivity. }
  set (s1 := put_evaluations (S (evaluations s)) s) in Hs'.
  destruct (singleMode (self s)) eqn:Hm.
  - left. subst s'.
    change (generation s) with (generation s1).
    apply (@singleModeWatcherCallback_keeps _ generation); intros;
      reflexivity.
  - destruct (selector s (evaluations s)) as [| | | | | | | |cur] eqn:Hcur;
      try (cbn [throw state_of] in Hs'; subst s'; left; reflexivity).
    subst s'.
    destruct (pass_outcome cur s1) as [[_ G]|(next & s0 & s2 & P)].
    + left. exact G.
    + right. exists cur, next, s0, s2. repeat (split; [reflexivity|]).
      exact P.
Qed.

Lemma map_indexed_length (A B : Type) (f : A -> nat -> B) (l : list A) :
  forall i, List.length (map_indexed f i l) = List.length l.
Proof.
  induction l as [|x l IH]; intros i; simpl; [reflexivity|].
  rewrite IH. reflexivity.
Qed.

Lemma keys_of_length (w : watcher) (cur : list value) :
  List.length (keys_of w cur) = List.length cur.
Proof.
  unfold keys_of. destruct (mapNodeToKey w); [|reflexivity].
  apply map_indexed_length.
Qed.

Lemma checks_aligned (n : nat) :
  forall s,
  List.length (lastKeyList (self s)) = List.length (lastNodeList (self s)) ->
  List.length (lastKeyList (self (checks n s)))
  = List.length (lastNodeList (self (checks n s))).
Proof.
  induction n as [|n IH]; intros s H; [exact H|].
  cbn [checks]. apply IH.
  destruct (check_outcome s)
    as [G|(cur & next & s0 & s1 & _ & _ & _ & _ & _ & G)];
    unfold generation in G.
  - replace (lastKeyList (self (state_of (watcherChecker s))))
      with (lastKeyList (self s)) by congruence.
    replace (lastNodeList (self (state_of (watcherChecker s))))
      with (lastNodeList (self s)) by congruence.
    exact H.
  - replace (lastKeyList (self (state_of (watcherChecker s))))
      with (keys_of (self s) cur) by congruence.
    replace (lastNodeList (self (state_of (watcherChecker s))))
      with cur by congruence.
    apply keys_of_length.
Qed.

(** X8.  The retained keys and nodes stay aligned.  If the key list and
    the node list of an instance have the same length (as they have in a
    new instance), they have after any number of checks, whatever the
    checks find and whether they throw; and every retained key that the
    key comparer takes for itself then finds one of the retained nodes,
    never [null] or [undefined] from beyond the end of the list. *)
Theorem retained_keys_find_their_nodes (n : nat) (s : world) :
  List.length (lastKeyList (self s)) = List.length (lastNodeList (self s)) ->
  List.length (lastKeyList (self (checks n s)))
  = List.length (lastNodeList (self (checks n s)))
  /\ forall k,
       In k (lastKeyList (self (checks n s))) ->
       keyComparer (self (checks n s)) k k = true ->
       In (findFromLast (self (checks n s)) k)
          (lastNodeList (self (checks n s))).
Proof.
  intros H. pose proof (checks_aligned n s H) as L. split; [exact L|].
  intros k Hk Hrefl. unfold findFromLast, findNodeFromListByKey.
  set (w := self (checks n s)) in *.
  assert (E : existsb (fun x => keyComparer w x k) (lastKeyList w) = true).
  { apply existsb_exists. exists k. split; assumption. }
  destruct (findIndex_existsb _ _ E) as [i Hi]. rewrite Hi.
  destruct (findIndex_Some _ _ VUndefined Hi) as [Hlt _].
  unfold array_get. apply nth_In. rewrite <- L. exact Hlt.
Qed.

Lemma retained_keys_find_their_nodes_witness :
  List.length (lastKeyList
                 (self (checks 2 (watching (ret tt) letters_a_b))))
  = List.length (lastNodeList
                   (self (checks 2 (watching (ret tt) letters_a_b)))).
Proof.
  exact (proj1 (@retained_keys_find_their_nodes 2
                  (watching (ret tt) letters_a_b) eq_refl)).
Defined.

(** ** Handles and the callback factory *)

Lemma add_new_keys_without_factory (find_new : value -> value)
  (ks : list value) (next : next_maps) (s : world) :
  useForeachFn (self s) = None ->
  add_new_keys find_new ks next s = Ret next s.
Proof.
  intros H. destruct ks as [|k ks]; [reflexivity|].
  cbn [add_new_keys]. unfold bind, this, gets. rewrite H. reflexivity.
Qed.

Lemma handle_at_set_all_none (f : value -> option nat) (ks : list value)
  (k : value) :
  (forall x, f x = None) ->
  handle_at (set_all f ks (JsMap.empty _)) k = None.
Proof.
  intros H. unfold handle_at. rewrite get_set_all.
  destruct (existsb (value_eqb k) ks); [apply H|reflexivity].
Qed.

Lemma check_without_factory (s : world) :
  useForeachFn (self s) = None ->
  (forall k, handle_at (lastVirtualNodesMap (self s)) k = None) ->
  forall k,
    handle_at (lastVirtualNodesMap (self (state_of (watcherChecker s)))) k
    = None.
Proof.
  intros Hfn Hnone k.
  destruct (check_outcome s)
    as [G|(cur & next & s0 & s1 & _ & _ & _ & Hfn0 & Hadd & G)];
    unfold generation in G.
  - replace (lastVirtualNodesMap (self (state_of (watcherChecker s))))
      with (lastVirtualNodesMap (self s)) by congruence.
    apply Hnone.
  - rewrite add_new_keys_without_factory in Hadd by congruence.
    injection Hadd as <- _.
    replace (lastVirtualNodesMap (self (state_of (watcherChecker s))))
      with (snd (copy_same_keys (self s)
                   (oldSameKeys (self s) (keys_of (self s) cur))
                   (newSameKeys (self s) (keys_of (self s) cur))
                   (JsMap.empty _, JsMap.empty _)))
      by congruence.
    rewrite copy_same_keys_snd. cbn [snd].
    apply handle_at_set_all_none. intros x. apply Hnone.
Qed.

(** X9.  No callback factory, no handle.  While no [useForeach] callback
    is registered, no key ever gets a handle: if no key has one (as in a
    new instance), then after any number of checks [getVirtualNodeByKey]
    returns [null], for every key. *)
Theorem no_factory_no_handle (n : nat) (key : value) :
  forall s,
  useForeachFn (self s) = None ->
  (forall k, handle_at (lastVirtualNodesMap (self s)) k = None) ->
  match getVirtualNodeByKey key (checks n s) with
  | Ret r _ => r = None
  | Throw _ _ => False
  end.
Proof.
  induction n as [|n IH]; intros s Hfn Hnone.
  - cbn [checks].
    unfold getVirtualNodeByKey, noNeedInSingleMode, bind, this, gets, when,
      note, modify, ret.
    destruct (singleMode (self s)); cbn [self put_trace]; apply Hnone.
  - cbn [checks]. apply IH.
    + pose proof (watcherChecker_keeps_settings s) as T.
      unfold settings in T. congruence.
    + apply check_without_factory; assumption.
Qed.

Lemma no_factory_no_handle_witness :
  match getVirtualNodeByKey (VStr "a")
          (checks 2 (watching (ret tt) letters_a_b)) with
  | Ret r _ => r = None
  | Throw _ _ => False
  end.
Proof.
  apply (@no_factory_no_handle 2 (VStr "a")
           (watching (ret tt) letters_a_b)).
  - reflexivity.
  - intros k. vm_compute. reflexivity.
Defined.

(** ** Removals *)

Lemma schedule_removals_queues (w : watcher) (gone : list value) :
  forall s,
  schedule_removals w gone s
  = Ret tt (put_idle (idle s ++ map (removal w) gone)%list s).
Proof.
  unfold schedule_removals.
  induction gone as [|k gone IH]; intros s; cbn [for_each map].
  - rewrite app_nil_r. destruct s. reflexivity.
  - unfold bind at 1. unfold modify at 1. rewrite IH.
    cbn [idle put_idle]. rewrite <- app_assoc. reflexivity.
Qed.

(** X10.  Removals.  A pass queues one removal task for each key that is
    gone, in the order of the previous key list, and queues nothing else,
    whether it returns or throws.  The task of a key holds the handle and
    the callbacks recorded for the key and the node it had.  Running a
    task never throws: it calls the remove callback, if there is one, with
    that node, and then destroys the handle. *)
Theorem gone_keys_are_queued_for_removal (cur : list value) (s : world) :
  idle (state_of (normalModeWatcherCallback cur s))
  = (idle s ++ map (removal (self s))
                 (goneKeys (self s) (keys_of (self s) cur)))%list
  /\ forall t s0,
       exists s1,
         run_idle_task t s0 = Ret tt s1
         /\ trace s1
            = (trace s0 ++ match remove_of (task_callbacks t) with
                           | Some f => [HookRemove f (task_node t)]
                           | None => []
                           end)%list
         /\ forall h, task_virtualNode t = Some h ->
              DomProxy.isDestroyed (DomProxy.proxies (heap s1) h) = true.
Proof.
  split.
  - unfold normalModeWatcherCallback.
    apply state_of_bind; [intros e s1 H; discriminate H|].
    intros w0 s0 H. unfold this, gets in H. inversion H; subst w0 s0.
    clear H. cbv zeta.
    match goal with
    | |- idle (state_of (bind ?m ?k s)) = _ =>
        assert (K1 : keeps idle m)
          by (apply keeps_when; unfold raise; frame)
    end.
    apply state_of_bind.
    { intros e s1 H. exfalso. revert H. unfold when.
      destruct (Nat.ltb _ _); [|discriminate].
      unfold raise, bind, this, gets, update_this, modify, when, note.
      destruct (snd _); discriminate. }
    intros [] s1 H1.
    assert (I1 : idle s1 = idle s)
      by (eapply keeps_Ret; [exact K1|exact H1]).
    apply state_of_bind.
    { intros e s2 H. rewrite schedule_removals_queues in H.
      discriminate H. }
    intros [] s2 H2. rewrite schedule_removals_queues in H2.
    injection H2 as <-.
    match goal with
    | |- idle (state_of (?t ?x)) = _ =>
        assert (K2 : keeps idle t)
    end.
    { frame;
        first [ apply add_new_keys_keeps
              | apply rebind_changed_keeps
              | apply emit_keeps ]; intros; reflexivity. }
    rewrite K2. cbn [idle put_idle]. rewrite I1. reflexivity.
  - intros t s0. unfold run_idle_task, apply_remove, bind.
    destruct (remove_of (task_callbacks t)) as [f|];
      unfold note, modify, ret.
    + destruct (task_virtualNode t) as [h|].
      * destruct (destroy_returns
                    (heap (put_trace (trace s0 ++ [HookRemove f
                                                  (task_node t)])%list s0))
                    h) as (hp' & Hd & Hr).
        unfold in_heap, zoom. rewrite Hd. eexists. split; [reflexivity|].
        split; [reflexivity|]. intros h' [= <-]. exact Hr.
      * eexists. split; [reflexivity|]. split; [reflexivity|].
        discriminate.
    + destruct (task_virtualNode t) as [h|].
      * destruct (destroy_returns (heap s0) h) as (hp' & Hd & Hr).
        unfold in_heap, zoom. rewrite Hd. eexists. split; [reflexivity|].
        split; [cbn [trace put_heap]; rewrite app_nil_r; reflexivity|].
        intros h' [= <-]. exact Hr.
      * eexists. split; [reflexivity|].
        split; [rewrite app_nil_r; reflexivity|]. discriminate.
Qed.

(** ** Looking up a key that is not there *)

Lemma get_not_in_keys (V : Type) (m : JsMap.t V) (x : value) :
  ~ In x (JsMap.keys m) -> JsMap.get m x = None.
Proof.
  intros H. destruct (JsMap.get m x) as [v|] eqn:G; [|reflexivity].
  apply get_In_keys in G. contradiction.
Qed.

(** X11.  A key that is not in the generation.  After a pass that returns,
    [getVirtualNodeByKey] of a key that the pass did not see, under a key
    comparer that is an equivalence on the keys in play, returns what the
    handle map holds for the key [undefined]: [null] when no node of the
    generation has the key [undefined]. *)
Theorem absent_key_has_no_handle (D : value -> Prop) (cur : list value)
  (s s' : world) (key : value) :
  key_equality (keyComparer (self s)) D ->
  Forall D (lastKeyList (self s)) ->
  Forall D (keys_of (self s) cur) ->
  D key ->
  normalModeWatcherCallback cur s = Ret tt s' ->
  Lodash.arrayIncludesWith (keyComparer (self s)) (keys_of (self s) cur) key
  = false ->
  match getVirtualNodeByKey key s' with
  | Ret r _ =>
      r = handle_at (lastVirtualNodesMap (self s')) VUndefined
      /\ (~ In VUndefined (keys_of (self s) cur) -> r = None)
  | Throw _ _ => False
  end.
Proof.
  intros E Dlast Dthis Dk Hret Habs.
  assert (T : settings s' = settings s).
  { eapply keeps_Ret; [|exact Hret].
    apply normalModeWatcherCallback_keeps; intros; reflexivity. }
  assert (Hc : keyComparer (self s') = keyComparer (self s))
    by (unfold settings in T; congruence).
  destruct (@pass_returns cur s s' Hret) as (next & s0 & s1 & Hfn & Hadd & G).
  apply add_new_keys_handled in Hadd as [_ Hin].
  change (JsMap.keys (snd (JsMap.empty useForeachReturns,
                           JsMap.empty (option nat))))
    with (@nil value) in Hin.
  rewrite Hfn in Hin.
  assert (Hin' : forall x, In x (JsMap.keys (snd next))
            <-> In x (handled_keys (useForeachFn (self s))
                        (findFromNew (self s) cur (keys_of (self s) cur))
                        (newKeys (self s) (keys_of (self s) cur)))).
  { intros x. rewrite Hin. cbn [In]. tauto. }
  assert (Hmap : lastVirtualNodesMap (self s')
                 = carried (keyComparer (self s)) (lastKeyList (self s))
                     (keys_of (self s) cur) (lastVirtualNodesMap (self s))
                     (snd next)).
  { unfold generation in G. injection G as _ _ _ G.
    rewrite G, copy_same_keys_snd. reflexivity. }
  pose proof (@carried_keys_known _ D E _ _ (lastVirtualNodesMap (self s))
                _ (snd next) Dlast Dthis Hin'
                (@handled_keys_new (keyComparer (self s))
                   (lastKeyList (self s)) (keys_of (self s) cur) cur
                   (useForeachFn (self s)))) as Known.
  rewrite <- Hmap in Known.
  assert (Hfind : array_find (fun k => keyComparer (self s') k key)
                    (JsMap.keys (lastVirtualNodesMap (self s'))) = None).
  { unfold array_find. rewrite Hc. apply find_absent. intros x Hx.
    apply Known in Hx.
    pose proof Dthis as Dt. rewrite Forall_forall in Dt.
    rewrite (@same_flip _ _ D E x key (Dt x Hx) Dk).
    unfold Lodash.arrayIncludesWith in Habs.
    destruct (keyComparer (self s) key x) eqn:Hkx; [|reflexivity].
    assert (X : existsb (fun other => keyComparer (self s) key other)
                  (keys_of (self s) cur) = true)
      by (apply existsb_exists; exists x; split; assumption).
    congruence. }
  unfold getVirtualNodeByKey, noNeedInSingleMode, bind, this, gets, when,
    note, modify, ret.
  destruct (singleMode (self s')); cbn [self put_trace];
    rewrite Hfind; cbn [or_undefined];
    (split; [reflexivity|]); intros Hno; unfold handle_at;
    rewrite get_not_in_keys; auto.
Qed.

Lemma returns_unit (S : Type) (m : M S unit) (s : S) :
  returns (m s) = true -> m s = Ret tt (state_of (m s)).
Proof. destruct (m s) as [[] s1|e s1]; [reflexivity|discriminate]. Qed.

Lemma absent_key_has_no_handle_witness :
  match getVirtualNodeByKey (VStr "x")
          (state_of (normalModeWatcherCallback [VNode 0]
                       (state_of (no_key (construct
                                            another_node_each_time)))))
  with
  | Ret r _ => r = Some 1%nat
  | Throw _ _ => False
  end.
Proof.
  assert (Dthis : Forall not_NaN
                    (keys_of (self (state_of (no_key
                                     (construct another_node_each_time))))
                       [VNode 0]))
    by (vm_compute; repeat constructor; discriminate).
  pose proof (@absent_key_has_no_handle not_NaN [VNode 0]
                (state_of (no_key (construct another_node_each_time))) _
                (VStr "x") strict_eq_key_equality (Forall_nil _) Dthis
                ltac:(discriminate)
                (@returns_unit _ (normalModeWatcherCallback [VNode 0])
                   (state_of (no_key (construct another_node_each_time)))
                   ltac:(vm_compute; reflexivity))
                ltac:(vm_compute; reflexivity))
    as H.
  destruct (getVirtualNodeByKey _ _) as [r st|e st]; [|exact H].
  destruct H as [H _]. rewrite H. vm_compute. reflexivity.
Defined.

(** ** The first handle *)

Lemma bind_first_binds (n : nat) (u : unit) (s s' : world) :
  bind_first (Some n) s = Ret u s' ->
  self s' = self s
  /\ DomProxy.realCurrent
       (DomProxy.proxies (heap s') (_firstVirtualNode (self s)))
     = Some n.
Proof.
  unfold bind_first, bind, this, gets, in_heap, zoom.
  destruct (DomProxy.set_realCurrent _ _ _) as [[] hp|e hp] eqn:H;
    [|discriminate].
  intros [= _ <-]. split; [reflexivity|].
  exact (@set_realCurrent_binds _ _ _ (Some n) H).
Qed.

Ltac peel H :=
  let a := fresh "a" in
  let st := fresh "st" in
  let Hm := fresh "Hm" in
  apply bind_Ret in H as (a & st & Hm & H); cbv beta in H.

(** X12.  The first handle follows the first node.  After a pass that
    returns, over a list whose first element is a node, and after a
    single-mode pass that returns, over a node, [firstVirtualNode] is bound
    to that node. *)
Theorem first_handle_follows_the_first_node (v : value) (n : nat)
  (s s' : world) :
  isWatching (self s) = true ->
  selector s (evaluations s) = v ->
  (if singleMode (self s) then v = VNode n
   else exists rest, v = VArr (VNode n :: rest)) ->
  watcherChecker s = Ret tt s' ->
  DomProxy.realCurrent
    (DomProxy.proxies (heap s') (_firstVirtualNode (self s')))
  = Some n.
Proof.
  intros Hw Hv Hfirst H.
  assert (F : _firstVirtualNode (self s') = _firstVirtualNode (self s)).
  { assert (T : settings s' = settings s)
      by (eapply keeps_Ret; [apply watcherChecker_keeps_settings|exact H]).
    unfold settings in T. congruence. }
  unfold watcherChecker, bind, this, gets, evaluateOnce in H.
  rewrite Hw in H. cbn [negb] in H. rewrite Hv in H.
  set (s1 := put_evaluations (S (evaluations s)) s) in H.
  clearbody s1. clear Hw Hv.
  destruct (singleMode (self s)).
  - subst v. unfold singleModeWatcherCallback in H.
    peel H. peel H.
    apply bind_first_binds in Hm0 as [Hself Hb].
    peel H. unfold this, gets in Hm0. injection Hm0 as <- <-.
    rewrite Bool.andb_false_r, Bool.andb_true_r in H.
    cbn [instanceofNode] in H.
    match type of H with
    | ?t ?st = _ =>
        assert (K : keeps (fun s => (heap s, _firstVirtualNode (self s))) t);
          [frame; apply emit_keeps; intros; reflexivity|
        specialize (K st)]
    end.
    rewrite H in K. cbn [state_of] in K.
    injection K as Kh Kf. rewrite Kh, Kf, Hself. exact Hb.
  - destruct Hfirst as [rest ->].
    unfold normalModeWatcherCallback in H. cbv zeta in H.
    do 14 peel H.
    apply bind_Ret in H as (u & sb & Hb & H). cbv beta in H.
    cbn [array_get nth] in Hb.
    apply bind_first_binds in Hb as [Hself Hb].
    match type of H with
    | ?t ?st = _ =>
        assert (K : keeps (fun s => (heap s, _firstVirtualNode (self s))) t);
          [frame|specialize (K st)]
    end.
    rewrite H in K. cbn [state_of] in K.
    injection K as Kh Kf. rewrite Kh, Kf, Hself. exact Hb.
Qed.


Lemma first_handle_follows_the_first_node_witness :
  DomProxy.realCurrent
    (DomProxy.proxies
       (heap (state_of (watcherChecker
                          (watching one_key another_node_each_time))))
       (_firstVirtualNode
          (self (state_of (watcherChecker
                             (watching one_key another_node_each_time))))))
  = Some 1%nat.
Proof.
  apply (@first_handle_follows_the_first_node (VArr [VNode 1]) 1%nat
           (watching one_key another_node_each_time)).
  - vm_compute. reflexivity.
  - vm_compute. reflexivity.
  - vm_compute. exists []. reflexivity.
  - apply returns_unit. vm_compute. reflexivity.
Defined.

(** ** A pass over what is already known *)

Lemma quiet_keeps (A : Type) (m : W A) :
  keeps (fun s => (idle s, awaiting s, trace s)) m -> quiet m.
Proof.
  intros K s. specialize (K s). cbv beta in K. injection K as -> -> ->.
  split; [reflexivity|]. split; [reflexivity|].
  exists []. cbn. rewrite app_nil_r. reflexivity.
Qed.

Lemma quiet_bind (A B : Type) (m : W A) (k : A -> W B) :
  quiet m -> (forall a, quiet (k a)) -> quiet (bind m k).
Proof.
  intros Hm Hk s. unfold bind. specialize (Hm s).
  destruct (m s) as [a s1|e s1]; cbn [state_of] in *.
  - destruct Hm as (I1 & A1 & m1 & T1).
    destruct (Hk a s1) as (I2 & A2 & m2 & T2).
    split; [congruence|]. split; [congruence|].
    exists (m1 ++ m2)%list. rewrite T2, T1, map_app, app_assoc.
    reflexivity.
  - exact Hm.
Qed.

Lemma quiet_when (c : bool) (m : W unit) : quiet m -> quiet (when c m).
Proof.
  intros H. destruct c; [exact H|].
  apply quiet_keeps. apply keeps_ret.
Qed.

Lemma quiet_raise (field : watcher -> Warning.t)
  (store : Warning.t -> watcher -> watcher) (msg : console_message) :
  quiet (raise field store msg).
Proof.
  intros s. unfold raise, bind, this, gets, update_this, modify, when.
  destruct (snd (Warning.warn (field (self s)))); cbn.
  - split; [reflexivity|]. split; [reflexivity|]. exists [msg].
    reflexivity.
  - split; [reflexivity|]. split; [reflexivity|]. exists [].
    rewrite app_nil_r. reflexivity.
Qed.

Section Unchanged.
Variable cmp : value -> value -> bool.
Variable D : value -> Prop.
Hypothesis E : key_equality cmp D.
Variable keys : list value.
Hypothesis Dkeys : Forall D keys.

Lemma includes_member (k : value) :
  In k keys -> Lodash.arrayIncludesWith cmp keys k = true.
Proof.
  intros H. apply includes_In. exists k. split; [exact H|].
  apply (same_refl E). pose proof Dkeys as Dk.
  rewrite Forall_forall in Dk. auto.
Qed.

Lemma differenceWith_self : Lodash.differenceWith cmp keys keys = [].
Proof.
  unfold Lodash.differenceWith.
  assert (H : forall l, incl l keys ->
            filter (fun v => negb (Lodash.arrayIncludesWith cmp keys v)) l
            = []).
  { induction l as [|x l IH]; intros Hl; [reflexivity|].
    cbn [filter]. rewrite includes_member by (apply Hl; left; reflexivity).
    cbn [negb]. apply IH. intros y Hy. apply Hl. right. exact Hy. }
  apply H. apply incl_refl.
Qed.

End Unchanged.

Lemma unchanged_lists (D : value -> Prop) (w : watcher)
  (cur : list value) :
  key_equality (keyComparer w) D ->
  Forall D (lastKeyList w) ->
  keys_of w cur = lastKeyList w ->
  cur = lastNodeList w ->
  (forall v, In v cur -> valueComparer w v v = true) ->
  goneKeys w (keys_of w cur) = []
  /\ newKeys w (keys_of w cur) = []
  /\ changedNodes w cur (keys_of w cur) = [].
Proof.
  intros E Dl Hk Hn Hv. unfold goneKeys, newKeys. rewrite Hk.
  rewrite (differenceWith_self E Dl). split; [reflexivity|].
  split; [reflexivity|].
  unfold changedNodes, findFromLast, findFromNew. rewrite <- Hn.
  unfold oldSameKeys. 
  assert (L : List.length (lastKeyList w) = List.length cur)
    by (rewrite <- Hk; apply keys_of_length).
  assert (H : forall l, incl l (lastKeyList w) -> Forall D l ->
            filter (fun u => match u with
                             | (a, b, _, _) =>
                                 Bool.eqb (valueComparer w a b) false
                             end)
              (map (fun x =>
                      (findNodeFromListByKey (keyComparer w) cur
                         (lastKeyList w) x,
                       findNodeFromListByKey (keyComparer w) cur
                         (lastKeyList w) x, x,
                       or_undefined
                         (array_find (fun newK => keyComparer w newK x)
                            (newSameKeys w (lastKeyList w))))) l) = []).
  { induction l as [|x l IH]; intros Hl Dx; [reflexivity|].
    cbn [map filter].
    assert (Hin : In (findNodeFromListByKey (keyComparer w) cur
                        (lastKeyList w) x) cur).
    { unfold findNodeFromListByKey.
      assert (X : existsb (fun y => keyComparer w y x) (lastKeyList w)
                  = true).
      { apply existsb_exists. exists x. split.
        - apply Hl. left. reflexivity.
        - apply (same_refl E). inversion Dx. assumption. }
      destruct (findIndex_existsb _ _ X) as [i Hi]. rewrite Hi.
      destruct (findIndex_Some _ _ VUndefined Hi) as [Hlt _].
      unfold array_get. apply nth_In. rewrite <- L. exact Hlt. }
    rewrite (Hv _ Hin). cbn [Bool.eqb]. apply IH.
    - intros y Hy. apply Hl. right. exact Hy.
    - inversion Dx. assumption. }
  apply H.
  - intros x Hx.
    apply (@In_intersectionWith _ _ D E _ _ x Dl Dl) in Hx as [Hx _].
    exact Hx.
  - apply Forall_forall. intros x Hx.
    apply (@In_intersectionWith _ _ D E _ _ x Dl Dl) in Hx as [Hx _].
    rewrite Forall_forall in Dl. auto.
Qed.

Lemma bind_this (A : Type) (k : watcher -> W A) (s : world) :
  bind this k s = k (self s) s.
Proof. reflexivity. Qed.

(** X13.  A pass over what is already known is quiet.  If the keys and the
    nodes of the current iteration are those retained from the previous
    one, under a key comparer that is an equivalence on the keys and a
    value comparer that takes each node for itself, the pass queues no
    removal, calls no callback factory and no hook, emits no event and
    settles no await: whether it returns or throws, the trace grows by
    console messages at most, and the retained keys and nodes are the
    same. *)
Theorem known_generation_is_quiet (D : value -> Prop) (cur : list value)
  (s : world) :
  key_equality (keyComparer (self s)) D ->
  Forall D (lastKeyList (self s)) ->
  keys_of (self s) cur = lastKeyList (self s) ->
  cur = lastNodeList (self s) ->
  (forall v, In v cur -> valueComparer (self s) v v = true) ->
  idle (state_of (normalModeWatcherCallback cur s)) = idle s
  /\ awaiting (state_of (normalModeWatcherCallback cur s)) = awaiting s
  /\ (exists msgs,
        trace (state_of (normalModeWatcherCallback cur s))
        = (trace s ++ map ConsoleWarn msgs)%list)
  /\ lastKeyList (self (state_of (normalModeWatcherCallback cur s)))
     = lastKeyList (self s)
  /\ lastNodeList (self (state_of (normalModeWatcherCallback cur s)))
     = lastNodeList (self s).
Proof.
  intros E Dl Hk Hn Hv.
  destruct (@unchanged_lists D (self s) cur E Dl Hk Hn Hv)
    as (Hg & Hnew & Hc).
  assert (Q : idle (state_of (normalModeWatcherCallback cur s)) = idle s
              /\ awaiting (state_of (normalModeWatcherCallback cur s))
                 = awaiting s
              /\ exists msgs,
                   trace (state_of (normalModeWatcherCallback cur s))
                   = (trace s ++ map ConsoleWarn msgs)%list).
  { unfold normalModeWatcherCallback. rewrite bind_this. cbv zeta.
    rewrite Hg, Hnew, Hc.
    cbn [schedule_removals for_each add_new_keys rebind_changed
         List.length Nat.add Nat.eqb negb map].
    match goal with
    | |- idle (state_of (?m s)) = _ /\ _ => assert (Q : quiet m)
    end.
    { repeat
        first [ apply quiet_raise
              | apply quiet_bind; [|intros ?]
              | rewrite Bool.andb_false_r; apply quiet_keeps;
                apply keeps_ret
              | apply quiet_when
              | apply quiet_keeps; solve [frame] ]. }
    exact (Q s). }
  destruct Q as (Q1 & Q2 & Q3).
  split; [exact Q1|]. split; [exact Q2|]. split; [exact Q3|].
  destruct (pass_outcome cur s) as [[_ G]|(next & s0 & s1 & _ & _ & G)];
    unfold generation in G; split; congruence.
Qed.

Lemma known_generation_is_quiet_witness :
  idle (state_of (normalModeWatcherCallback [VStr "a"; VStr "b"]
                    (watching (ret tt) letters_a_b)))
  = idle (watching (ret tt) letters_a_b).
Proof.
  apply (@known_generation_is_quiet not_NaN [VStr "a"; VStr "b"]
           (watching (ret tt) letters_a_b)).
  - exact strict_eq_key_equality.
  - vm_compute. repeat constructor; discriminate.
  - vm_compute. reflexivity.
  - vm_compute. reflexivity.
  - intros v [<-|[<-|[]]]; vm_compute; reflexivity.
Defined.

(** ** The calls of a pass, in order *)

Lemma reports_keeps (A : Type) (m : W A) : keeps trace m -> reports m.
Proof.
  intros K s. exists []. rewrite (K s), app_nil_r. split; constructor.
Qed.

Lemma reports_bind (A B : Type) (m : W A) (k : A -> W B) :
  reports m -> (forall a, reports (k a)) -> reports (bind m k).
Proof.
  intros Hm Hk s. unfold bind. destruct (Hm s) as (d1 & T1 & F1).
  destruct (m s) as [a s1|e s1]; cbn [state_of] in *.
  - destruct (Hk a s1) as (d2 & T2 & F2).
    exists (d1 ++ d2)%list. rewrite T2, T1, app_assoc.
    split; [reflexivity|]. apply Forall_app. split; assumption.
  - exists d1. split; assumption.
Qed.

Lemma reports_when (c : bool) (m : W unit) : reports m -> reports (when c m).
Proof.
  intros H. destruct c; [exact H|]. apply reports_keeps, keeps_ret.
Qed.

Lemma reports_for_each (A : Type) (l : list A) (body : A -> W unit) :
  (forall a, reports (body a)) -> reports (for_each l body).
Proof.
  intros H. induction l as [|x l IH]; cbn [for_each].
  - apply reports_keeps, keeps_ret.
  - apply reports_bind; [apply H|intros _; exact IH].
Qed.

Lemma reports_note (e : effect) : is_report e -> reports (note e).
Proof.
  intros H s. exists [e]. split; [reflexivity|].
  constructor; [exact H|constructor].
Qed.

Lemma reports_raise (field : watcher -> Warning.t)
  (store : Warning.t -> watcher -> watcher) (msg : console_message) :
  reports (raise field store msg).
Proof.
  unfold raise. apply reports_bind; [apply reports_keeps; frame|intros w].
  apply reports_bind; [apply reports_keeps; frame|intros _].
  apply reports_when, reports_note. exact I.
Qed.

Lemma reports_run_awaiters (nodes : list value) (l : list awaiter) :
  reports (run_awaiters nodes l).
Proof.
  assert (R : forall a v, reports (resolve a v)).
  { intros a v. unfold resolve. destruct (resolved a).
    - apply reports_keeps, keeps_ret.
    - apply reports_bind; [apply reports_note; exact I|intros _].
      apply reports_keeps, keeps_ret. }
  induction l as [|a l IH]; cbn [run_awaiters].
  - apply reports_keeps, keeps_ret.
  - apply reports_bind; [apply reports_keeps; frame|intros w].
    apply reports_bind.
    { destruct (singleMode w && _); [apply R|apply reports_keeps, keeps_ret]. }
    intros a1. destruct (Z.ltb _ _).
    + apply reports_bind; [exact IH|intros kept].
      apply reports_keeps, keeps_ret.
    + apply reports_bind; [apply reports_keeps; frame|intros _].
      apply reports_bind; [apply R|intros _]. exact IH.
Qed.

Lemma reports_emit (e : event) : reports (emit e).
Proof.
  unfold emit. apply reports_bind; [apply reports_note; exact I|intros _].
  destruct e; try (apply reports_keeps, keeps_ret).
  apply reports_bind; [apply reports_keeps; frame|intros l].
  apply reports_bind; [apply reports_run_awaiters|intros kept].
  apply reports_keeps. frame.
Qed.

Lemma add_new_keys_calls (fn : forEachFn) (find_new : value -> value)
  (ks : list value) :
  forall (next next' : next_maps) (s s' : world),
  useForeachFn (self s) = Some fn ->
  add_new_keys find_new ks next s = Ret next' s' ->
  exists calls,
    trace s' = (trace s ++ map Factory calls)%list
    /\ map call_key calls = ks
    /\ map call_node calls = map find_new ks.
Proof.
  induction ks as [|k ks IH]; intros next next' s s' Hfn.
  - cbn. intros [= <- <-]. exists []. rewrite app_nil_r.
    repeat split; reflexivity.
  - cbn [add_new_keys]. rewrite bind_this, Hfn.
    destruct (find_new k) eqn:Hnode.
    7:{ unfold bind, in_heap, zoom, note, modify.
        destruct (DomProxy.DomProxy (heap s)) as [vnode hp1|];
          [|discriminate].
        cbn [heap put_heap].
        destruct (DomProxy.set_realCurrent vnode (Some id) hp1)
          as [[] hp2|]; [|discriminate].
        cbn [heap put_heap put_trace].
        set (callbacks := fn (WithNode vnode k (VNode id))).
        destruct callbacks as [|f|r c [m|]].
        all: cbn [ret heap put_heap put_trace];
          try (destruct (DomProxy.update_proxy _ _ _) as [[] hp3|];
               [|discriminate]);
          intros H; apply IH in H as (calls & H1 & H2 & H3);
          [|exact Hfn];
          exists (WithNode vnode k (VNode id) :: calls);
          cbn [map call_key call_node];
          rewrite H1, H2, H3, Hnode; cbn [trace put_trace put_heap];
          rewrite <- app_assoc; repeat split; reflexivity. }
    all: unfold bind, note, modify, apply_warn_mutation;
      destruct (mutation_of _); [unfold throw; discriminate|];
      cbn [ret]; intros H; apply IH in H as (calls & H1 & H2 & H3);
      [|exact Hfn];
      match type of H1 with
      | context [Factory (WithoutNode ?n ?k')] =>
          exists (WithoutNode n k' :: calls)
      end;
      cbn [map call_key call_node];
      rewrite H1, H2, H3, Hnode; cbn [trace put_trace];
      rewrite <- app_assoc; repeat split; reflexivity.
Qed.

Lemma rebind_changed_calls (w : watcher)
  (changed : list (value * value * value * value)) :
  forall s s',
  rebind_changed w changed s = Ret tt s' ->
  trace s' = (trace s ++ target_changes w changed)%list.
Proof.
  unfold rebind_changed, target_changes.
  induction changed as [|[[[o n] k] k'] changed IH]; intros s s';
    cbn [for_each flat_map].
  - intros [= <-]. rewrite app_nil_r. reflexivity.
  - intros H. apply bind_Ret in H as ([] & s1 & H1 & H).
    apply IH in H. rewrite H, app_assoc. f_equal.
    apply bind_Ret in H1 as ([] & s0 & H0 & H1).
    assert (T0 : trace s0 = trace s).
    { eapply keeps_Ret; [|exact H0]. frame. }
    unfold apply_target_change in H1.
    destruct (change_of _).
    + unfold note, modify in H1. injection H1 as <-. cbn [trace put_trace].
      rewrite T0. reflexivity.
    + injection H1 as <-. rewrite T0, app_nil_r. reflexivity.
Qed.

Ltac reports_tac :=
  repeat
    first [ apply reports_raise
          | apply reports_emit
          | apply reports_bind; [|intros ?]
          | apply reports_when
          | apply reports_for_each; intros ?
          | apply reports_keeps; solve [frame]
          | match goal with
            | |- reports (match ?u with _ => _ end) => destruct u
            end ].

(** X14.  The calls of a pass, in order.  A pass that returns lets out, in
    this order: the warning about repeated keys, if any; the calls of the
    callback factory, one for each new key in the order of the keys and
    with the node found for the key, if a factory is registered; the
    [onTargetChanged] calls of the keys whose node has changed, in the
    order of the previous keys; and only then events, settled awaits and
    console messages. *)
Theorem pass_calls_in_order (cur : list value) (s s' : world) :
  normalModeWatcherCallback cur s = Ret tt s' ->
  exists warned calls rest,
    trace s'
    = (trace s ++ map ConsoleWarn warned ++ map Factory calls
         ++ target_changes (self s)
              (changedNodes (self s) cur (keys_of (self s) cur))
         ++ rest)%list
    /\ map call_key calls
       = match useForeachFn (self s) with
         | Some _ => newKeys (self s) (keys_of (self s) cur)
         | None => []
         end
    /\ map call_node calls
       = map (findFromNew (self s) cur (keys_of (self s) cur))
           (map call_key calls)
    /\ Forall is_report rest.
Proof.
  intros H. unfold normalModeWatcherCallback in H.
  rewrite bind_this in H. cbv zeta in H.
  apply bind_Ret in H as ([] & s1 & H1 & H). cbv beta in H.
  assert (Q1 : exists warned,
            trace s1 = (trace s ++ map ConsoleWarn warned)%list).
  { match type of H1 with
    | ?m s = _ => assert (Q : quiet m) by (apply quiet_when, quiet_raise);
                  destruct (Q s) as (_ & _ & Q3)
    end.
    rewrite H1 in Q3. exact Q3. }
  assert (T1 : settings s1 = settings s).
  { eapply keeps_Ret; [|exact H1]. apply keeps_when. unfold raise. frame. }
  destruct Q1 as [warned Q1].
  apply bind_Ret in H as ([] & s2 & H2 & H). cbv beta in H.
  rewrite schedule_removals_queues in H2. injection H2 as <-.
  apply bind_Ret in H as (next & s3 & H3 & H). cbv beta in H.
  assert (Q3 : exists calls,
            trace s3 = (trace s1 ++ map Factory calls)%list
            /\ map call_key calls
               = match useForeachFn (self s) with
                 | Some _ => newKeys (self s) (keys_of (self s) cur)
                 | None => []
                 end
            /\ map call_node calls
               = map (findFromNew (self s) cur (keys_of (self s) cur))
                   (map call_key calls)).
  { assert (Hfn : useForeachFn (self s1) = useForeachFn (self s))
      by (unfold settings in T1; congruence).
    destruct (useForeachFn (self s)) as [fn|] eqn:Hs.
    - eapply (@add_new_keys_calls fn) in H3; [|exact Hfn].
      destruct H3 as (calls & C1 & C2 & C3).
      exists calls. rewrite C2. repeat split; assumption.
    - rewrite add_new_keys_without_factory in H3 by exact Hfn.
      injection H3 as _ <-. exists []. cbn. rewrite app_nil_r.
      repeat split; reflexivity. }
  destruct Q3 as (calls & Q3 & K3 & N3).
  apply bind_Ret in H as ([] & s4 & H4 & H). cbv beta in H.
  apply rebind_changed_calls in H4.
  match type of H with
  | ?m s4 = _ => assert (R : reports m) by reports_tac;
                 destruct (R s4) as (rest & R1 & R2)
  end.
  rewrite H in R1. cbn [state_of] in R1.
  exists warned, calls, rest. split.
  - rewrite R1, H4, Q3. cbn [trace put_idle]. rewrite Q1.
    rewrite <- !app_assoc. reflexivity.
  - repeat split; assumption.
Qed.

Lemma pass_calls_in_order_witness :
  exists calls,
    map call_key calls = [VStr "k"]
    /\ map call_node calls = [VNode 0].
Proof.
  destruct (@pass_calls_in_order [VNode 0]
              (state_of (one_key (construct another_node_each_time)))
              (state_of (normalModeWatcherCallback [VNode 0]
                           (state_of (one_key
                                        (construct
                                           another_node_each_time)))))
              (@returns_unit _ (normalModeWatcherCallback [VNode 0])
                 (state_of (one_key (construct another_node_each_time)))
                 ltac:(vm_compute; reflexivity)))
    as (warned & calls & rest & _ & H1 & H2 & _).
  exists calls. split; [exact H1|]. rewrite H2, H1. reflexivity.
Defined.

(** ** Awaits that wait *)

Lemma run_awaiters_multi (nodes : list value) (l : list awaiter) :
  forall s,
  singleMode (self s) = false ->
  exists s',
    run_awaiters nodes l s
    = Ret (filter (stays_pending (List.length nodes)) l) s'
    /\ trace s' = (trace s ++ flat_map (fulfilment nodes) l)%list
    /\ isWatching (self s')
       = (if forallb (stays_pending (List.length nodes)) l
          then isWatching (self s) else false)
    /\ singleMode (self s') = false
    /\ heap s' = heap s /\ idle s' = idle s /\ awaiting s' = awaiting s
    /\ generation s' = generation s.
Proof.
  induction l as [|a l IH]; intros s Hm.
  - exists s. cbn. rewrite app_nil_r.
    repeat split; assumption || reflexivity.
  - cbn [run_awaiters filter forallb flat_map].
    unfold bind at 1. unfold this, gets. rewrite Hm. cbn [andb].
    unfold bind at 1. unfold ret at 1.
    unfold fulfilment at 1.
    change (Z.of_nat (Datatypes.length nodes) <? minimal a)
      with (stays_pending (List.length nodes) a).
    destruct (stays_pending (List.length nodes) a) eqn:Hp; cbn [orb andb].
    + destruct (IH s Hm) as (s' & Hrun & Ht & Hw & Hm' & Hrest).
      unfold bind, ret. rewrite Hrun. exists s'. cbn [app].
      repeat (split; [assumption || reflexivity|]). exact Hrest.
    + unfold bind at 1. unfold stopWatch, update_this, modify.
      set (s1 := put_self (set_isWatching false (self s)) s).
      unfold bind at 1. unfold resolve.
      destruct (resolved a) eqn:Hr.
      * unfold ret at 1.
        destruct (IH s1 Hm) as (s' & Hrun & Ht & Hw & Hm' & Hrest).
        rewrite Hrun.
        exists s'. cbn [app]. split; [reflexivity|].
        split; [exact Ht|]. split.
        { rewrite Hw. destruct (forallb _ l); reflexivity. }
        split; [exact Hm'|]. exact Hrest.
      * unfold bind at 1. unfold note, modify. unfold ret at 1.
        match goal with
        | |- context [run_awaiters nodes l ?x] => set (s2 := x)
        end.
        destruct (IH s2 Hm) as (s' & Hrun & Ht & Hw & Hm' & Hrest).
        rewrite Hrun.
        exists s'. split; [reflexivity|].
        split.
        { rewrite Ht. unfold s2, s1. cbn [trace put_trace put_self].
          rewrite <- app_assoc. reflexivity. }
        split.
        { rewrite Hw. destruct (forallb _ l); reflexivity. }
        split; [exact Hm'|]. exact Hrest.
Qed.

(** X15.  What an iteration does to the awaits that wait.  Outside single
    mode, when [onIteration] is emitted, every pending await whose
    threshold the current results reach is fulfilled, in the order of
    registration, with the results passed through its transform one by one
    and the list through it once more; its listener is removed, and the
    watcher is stopped, also for the awaits that stay.  An await whose
    threshold is not reached stays registered and nothing is done for
    it. *)
Theorem iteration_resolves_the_awaits (kc kn kr vc vn vr : list value)
  (s : world) :
  singleMode (self s) = false ->
  exists s',
    emit (EvIteration kc kn kr vc vn vr) s = Ret tt s'
    /\ awaiting s' = filter (stays_pending (List.length vc)) (awaiting s)
    /\ trace s'
       = (trace s ++ Emit (EvIteration kc kn kr vc vn vr)
            :: flat_map (fulfilment vc) (awaiting s))%list
    /\ isWatching (self s')
       = (if forallb (stays_pending (List.length vc)) (awaiting s)
          then isWatching (self s) else false)
    /\ generation s' = generation s.
Proof.
  intros Hm. unfold emit, bind, note, modify, gets.
  set (s1 := put_trace _ s).
  destruct (@run_awaiters_multi vc (awaiting s1) s1 Hm)
    as (s' & -> & Ht & Hw & _ & _ & _ & _ & G).
  eexists. split; [reflexivity|].
  cbn [awaiting put_awaiting trace self]. split; [reflexivity|].
  split.
  { rewrite Ht. unfold s1. cbn [trace put_trace awaiting].
    rewrite <- app_assoc. reflexivity. }
  split; [exact Hw|]. exact G.
Qed.

Lemma iteration_resolves_the_awaits_witness :
  exists s',
    emit (EvIteration [] [] [] [VStr "a"; VStr "b"] [] []) waiting_for_two
    = Ret tt s'
    /\ awaiting s' = [].
Proof.
  destruct (@iteration_resolves_the_awaits [] [] []
              [VStr "a"; VStr "b"] [] [] waiting_for_two eq_refl)
    as (s' & H1 & H2 & _).
  exists s'. split; [exact H1|]. rewrite H2. reflexivity.
Defined.

(** ** An await that has to wait *)

(** X16.  Outside single mode, when the first evaluation has too few
    results, [then] runs the starter and only then registers its
    listener.  If the starter throws, the promise is rejected with what it
    threw (and handed to [onrejected], if given) and nothing is
    registered.  If the starter returns, the promise is pending, the
    await is the last of the registered ones, [onIteration] is listened
    to, and nothing else has changed since the starter returned. *)
Theorem await_that_waits (f : option (value -> value))
  (g : option (js_error -> value)) (n : option Z) (starter : W unit)
  (s : world) :
  let threshold := match n with Some k => k | None => 1%Z end in
  singleMode (self s) = false ->
  (1 <= threshold)%Z ->
  enough_now f threshold (selector s (evaluations s)) = None ->
  match starter (put_evaluations (S (evaluations s)) s) with
  | Throw e s2 => then_ f g n starter s = Ret (chain f g (Rejected e)) s2
  | Ret _ s2 =>
      then_ f g n starter s
      = Ret Pending
          (put_awaiting
             (awaiting s2 ++ [{| minimal := threshold; onfulfilled := f;
                                 resolved := false |}])%list
             (state_of (addListener OnIteration s2)))
      /\ awaiting (state_of (addListener OnIteration s2)) = awaiting s2
      /\ heap (state_of (addListener OnIteration s2)) = heap s2
      /\ generation (state_of (addListener OnIteration s2)) = generation s2
      /\ onIteration (isEventsListening
                        (self (state_of (addListener OnIteration s2))))
         = true
  end.
Proof.
  intros threshold Hm Hlo Hfew.
  unfold then_, then_async, wait_for_iteration, try_catch, bind, this,
    gets, evaluateOnce, ret, modify.
  fold threshold.
  destruct (Z.ltb_spec threshold 1); [lia|].
  rewrite Hm. cbn [andb when ret]. unfold ret. rewrite Hfew.
  destruct (starter _) as [[] s2|e s2]; [|reflexivity].
  destruct (addListener OnIteration s2) as [[] s3|e s3] eqn:Ha.
  2:{ exfalso. revert Ha. unfold addListener, noNeedInSingleMode, bind, this,
        gets, when, note, update_this, modify.
      destruct (singleMode (self s2)); discriminate. }
  cbn [state_of].
  assert (F : awaiting s3 = awaiting s2 /\ heap s3 = heap s2
              /\ generation s3 = generation s2
              /\ onIteration (isEventsListening (self s3)) = true).
  { revert Ha. unfold addListener, noNeedInSingleMode, bind, this, gets,
      when, note, update_this, modify, ret.
    destruct (singleMode (self s2)); intros [= <-]; repeat split;
      reflexivity. }
  destruct F as (F1 & F2 & F3 & F4).
  rewrite F1. repeat (split; [reflexivity || assumption|]). exact F4.
Qed.

Lemma await_that_waits_witness :
  exists s',
    then_ None None (Some 2%Z) (ret tt) (construct (fun _ => VArr []))
    = Ret Pending s'.
Proof.
  pose proof (@await_that_waits None None (Some 2%Z) (ret tt)
                (construct (fun _ => VArr [])) eq_refl
                ltac:(lia) eq_refl) as H.
  unfold ret at 1 in H. destruct H as [H _]. eexists. exact H.
Defined.

(** ** What single mode tracks *)

Lemma preserves_bind (A B : Type) (P : world -> Prop) (m : W A)
  (k : A -> W B) :
  preserves P m -> (forall a, preserves P (k a)) -> preserves P (bind m k).
Proof.
  intros Hm Hk s HP. unfold bind. specialize (Hm s HP).
  destruct (m s) as [a s1|e s1]; cbn [state_of] in *.
  - apply Hk. exact Hm.
  - exact Hm.
Qed.

Lemma preserves_keeps (A X : Type) (P : world -> Prop) (f : world -> X)
  (m : W A) :
  (forall s s', f s' = f s -> P s -> P s') ->
  keeps f m -> preserves P m.
Proof. intros Hf K s HP. exact (Hf s _ (K s) HP). Qed.

Lemma tracks_a_value_tracked (s s' : world) :
  tracked s' = tracked s -> tracks_a_value s -> tracks_a_value s'.
Proof.
  unfold tracked, tracks_a_value. intros [= -> ->] H. exact H.
Qed.

Lemma truthy_not_nil (v : value) : truthy v = true -> isNil v = false.
Proof. destruct v; cbn; congruence. Qed.

Ltac tracked_keeps :=
  apply (@preserves_keeps _ _ tracks_a_value tracked _
           tracks_a_value_tracked);
  first [ solve [frame]
        | frame; apply emit_keeps; intros; reflexivity ].

Lemma singleModeWatcherCallback_tracks (v : value) :
  preserves tracks_a_value (singleModeWatcherCallback v).
Proof.
  unfold singleModeWatcherCallback.
  apply preserves_bind; [tracked_keeps|intros _].
  apply preserves_bind; [tracked_keeps|intros _].
  apply preserves_bind; [tracked_keeps|intros w].
  destruct (singleModeHasLastValue w && isNil v) eqn:C1.
  { repeat (apply preserves_bind; [tracked_keeps|intros _]).
    intros s _. unfold update_this, modify. cbn. discriminate. }
  destruct (negb (singleModeHasLastValue w) && truthy v) eqn:C2.
  { apply Bool.andb_true_iff in C2 as [_ C2].
    apply preserves_bind; [tracked_keeps|intros _].
    apply preserves_bind; [tracked_keeps|intros _].
    intros s _ _. cbn. apply truthy_not_nil. exact C2. }
  destruct (singleModeHasLastValue w
            && negb (valueComparer w (singleModeLastValue w) v)) eqn:C3.
  { apply Bool.andb_true_iff in C3 as [C3 _]. rewrite C3 in C1.
    cbn [andb] in C1.
    repeat (apply preserves_bind; [tracked_keeps|intros _]).
    intros s _ _. cbn. exact C1. }
  tracked_keeps.
Qed.

(** X17.  In single mode the tracked value is never nil.  If the instance
    tracks no value or a value that is not nil (as a new instance does),
    so it does after any number of checks, in either mode and whether the
    checks return or throw: a value that becomes [undefined] or [null] is
    reported as removed and dropped, never stored. *)
Theorem tracked_value_is_never_nil (n : nat) :
  forall s, tracks_a_value s -> tracks_a_value (checks n s).
Proof.
  induction n as [|n IH]; intros s H; [exact H|].
  cbn [checks]. apply IH. revert s H.
  change (preserves tracks_a_value watcherChecker).
  unfold watcherChecker.
  apply preserves_bind; [tracked_keeps|intros w].
  destruct (negb (isWatching w)); [tracked_keeps|].
  apply preserves_bind.
  { apply (@preserves_keeps _ _ tracks_a_value tracked _
           tracks_a_value_tracked).
    intros s. reflexivity. }
  intros v. destruct (singleMode w).
  - apply singleModeWatcherCallback_tracks.
  - destruct v; try tracked_keeps.
    apply (@preserves_keeps _ _ tracks_a_value tracked _
           tracks_a_value_tracked).
    apply normalModeWatcherCallback_keeps; intros; reflexivity.
Qed.

Lemma tracked_value_is_never_nil_witness :
  tracks_a_value
    (checks 3 (watching enableSingleMode
                 (fun i => VNum (Z.of_nat i)))).
Proof.
  apply (@tracked_value_is_never_nil 3).
  vm_compute. discriminate.
Defined.

(** ** Binding twice *)

Lemma realCurrent_Some (p : DomProxy.t) (n : nat) :
  DomProxy.realCurrent p = Some n ->
  DomProxy.isDestroyed p = false /\ DomProxy.current p = Some n.
Proof.
  unfold DomProxy.realCurrent.
  destruct (DomProxy.isDestroyed p); [discriminate|auto].
Qed.

Lemma set_realCurrent_same (hp : DomProxy.heap) (h n : nat) :
  DomProxy.realCurrent (DomProxy.proxies hp h) = Some n ->
  DomProxy.set_realCurrent h (Some n) hp = Ret tt hp.
Proof.
  intros H. apply realCurrent_Some in H as [Hd Hc].
  unfold DomProxy.set_realCurrent, bind, DomProxy.proxy, gets.
  rewrite Hd, Hc. cbn [DomProxy.option_nat_eqb].
  rewrite Nat.eqb_refl. reflexivity.
Qed.

(** X18.  Binding a handle to the node it is bound to does nothing.  When
    the assignment of a node to [realCurrent] returns, assigning the same
    node again returns and changes nothing: no effect is undone or replayed
    a second time.  Assigning [null] is different: on a bound handle every
    assignment of [null] that returns has made one more placeholder
    element. *)
Theorem binding_again_does_nothing (hp hp' : DomProxy.heap) (h : nat)
  (node : option nat) :
  DomProxy.set_realCurrent h node hp = Ret tt hp' ->
  match node with
  | Some n => DomProxy.set_realCurrent h (Some n) hp' = Ret tt hp'
  | None =>
      DomProxy.current (DomProxy.proxies hp h) <> None ->
      forall hp'',
        DomProxy.set_realCurrent h None hp' = Ret tt hp'' ->
        elements hp'' = S (S (elements hp))
  end.
Proof.
  intros H. destruct node as [n|].
  - apply set_realCurrent_same.
    exact (@set_realCurrent_binds _ _ _ (Some n) H).
  - intros Hb hp'' H2.
    destruct (@set_realCurrent_binds _ _ _ None H Hb) as [Hr He].
    apply realCurrent_Some in Hr as [_ Hc].
    assert (Hb' : DomProxy.current (DomProxy.proxies hp' h) <> None)
      by (rewrite Hc; discriminate).
    destruct (@set_realCurrent_binds _ _ _ None H2 Hb') as [_ He'].
    rewrite He', He. reflexivity.
Qed.

Lemma binding_again_does_nothing_witness :
  DomProxy.set_realCurrent 0 (Some 1%nat)
    (state_of (DomProxy.set_realCurrent 0 (Some 1%nat) (with_handle 3)))
  = Ret tt
      (state_of (DomProxy.set_realCurrent 0 (Some 1%nat) (with_handle 3))).
Proof.
  apply (@binding_again_does_nothing (with_handle 3) _ 0%nat (Some 1%nat)).
  apply returns_unit. vm_compute. reflexivity.
Defined.

(** ** Single mode: the same value again *)

Lemma put_heap_heap (s : world) : put_heap (heap s) s = s.
Proof. destruct s; reflexivity. Qed.

Lemma bind_first_same (n : nat) (s : world) :
  DomProxy.realCurrent
    (DomProxy.proxies (heap s) (_firstVirtualNode (self s))) = Some n ->
  bind_first (Some n) s = Ret tt s.
Proof.
  intros H. unfold bind_first, bind, this, gets, in_heap, zoom.
  rewrite (set_realCurrent_same _ _ H), put_heap_heap. reflexivity.
Qed.

(** A single-mode pass over a node that returns has bound the first
    handle to it. *)
Lemma single_pass_binds_first (n : nat) (s s' : world) :
  singleModeWatcherCallback (VNode n) s = Ret tt s' ->
  DomProxy.realCurrent
    (DomProxy.proxies (heap s') (_firstVirtualNode (self s'))) = Some n.
Proof.
  intros H. unfold singleModeWatcherCallback in H.
  peel H. peel H.
  apply bind_first_binds in Hm0 as [Hself Hb].
  peel H. unfold this, gets in Hm0. injection Hm0 as <- <-.
  rewrite Bool.andb_false_r, Bool.andb_true_r in H.
  cbn [instanceofNode] in H.
  match type of H with
  | ?t ?st = _ =>
      assert (K : keeps (fun s => (heap s, _firstVirtualNode (self s))) t);
        [frame; apply emit_keeps; intros; reflexivity|
      specialize (K st)]
  end.
  rewrite H in K. cbn [state_of] in K.
  injection K as Kh Kf. rewrite Kh, Kf, Hself. exact Hb.
Qed.

Lemma update_this_Ret (f : watcher -> watcher) (u : unit) (s s' : world) :
  update_this f s = Ret u s' -> self s' = f (self s).
Proof. unfold update_this, modify. intros [= _ <-]. reflexivity. Qed.

Lemma single_pass_keeps_comparer (v : value) :
  keeps (fun s => (valueComparer (self s), isWatching (self s),
                   singleMode (self s)))
        (singleModeWatcherCallback v).
Proof.
  unfold singleModeWatcherCallback.
  frame; unfold emit; cbv beta iota; frame.
Qed.

Lemma single_pass_settles (v : value) (s s' : world) :
  singleModeWatcherCallback v s = Ret tt s' ->
  valueComparer (self s) v v = true ->
  settled_on v s'.
Proof.
  intros H Hrefl.
  assert (C : valueComparer (self s') = valueComparer (self s)).
  { pose proof (single_pass_keeps_comparer v s) as K.
    rewrite H in K. cbn [state_of] in K. congruence. }
  unfold settled_on. rewrite C.
  unfold singleModeWatcherCallback in H.
  apply bind_Ret in H as (u1 & s1 & H1 & H). cbv beta in H.
  apply bind_Ret in H as (u2 & s2 & H2 & H). cbv beta in H.
  assert (E1 : self s1 = self s).
  { eapply (@keeps_Ret _ _ _ self); [|exact H1].
    destruct v; frame. }
  assert (E2 : self s2 = self s1).
  { eapply (@keeps_Ret _ _ _ self); [|exact H2].
    destruct v; frame. }
  apply bind_Ret in H as (w & s3 & H3 & H). cbv beta in H.
  unfold this, gets in H3. injection H3 as <- <-.
  rewrite E2, E1 in H.
  destruct (singleModeHasLastValue (self s)) eqn:Hh; cbn [andb negb] in H.
  - destruct (isNil v) eqn:Hn.
    + right.
      repeat (apply bind_Ret in H as (? & ? & _ & H); cbv beta in H).
      apply update_this_Ret in H. rewrite H.
      split; [reflexivity|]. destruct v; try discriminate; reflexivity.
    + left. destruct (valueComparer (self s) (singleModeLastValue (self s)) v)
        eqn:Hc; cbn [negb] in H.
      * unfold ret in H. injection H as <-. rewrite E2, E1.
        auto.
      * repeat (apply bind_Ret in H as (? & ? & _ & H); cbv beta in H).
        apply update_this_Ret in H. rewrite H. cbn. auto.
  - destruct (truthy v) eqn:Ht.
    + left.
      repeat (apply bind_Ret in H as (? & ? & _ & H); cbv beta in H).
      apply update_this_Ret in H. rewrite H. cbn.
      repeat split; [|exact Hrefl].
      destruct v; try discriminate; reflexivity.
    + right. unfold ret in H. injection H as <-. rewrite E2, E1. auto.
Qed.

Lemma bind_step (S A B : Type) (m : M S A) (k : A -> M S B) (s : S)
  (a : A) (s' : S) :
  m s = Ret a s' -> bind m k s = k a s'.
Proof. intros H. unfold bind. rewrite H. reflexivity. Qed.

(** A pass over a value that the instance has settled on changes
    nothing. *)
Lemma single_pass_unchanged (v : value) (s : world) :
  v <> VUndefined ->
  (forall n, v = VNode n ->
     DomProxy.realCurrent
       (DomProxy.proxies (heap s) (_firstVirtualNode (self s))) = Some n) ->
  settled_on v s ->
  singleModeWatcherCallback v s = Ret tt s.
Proof.
  intros Hu Hb Hs. unfold singleModeWatcherCallback.
  rewrite (@bind_step _ _ _ _ _ s tt s);
    [|destruct v; try reflexivity; contradiction].
  rewrite (@bind_step _ _ _ _ _ s tt s);
    [|destruct v; try reflexivity; apply bind_first_same; apply Hb;
      reflexivity].
  rewrite bind_this.
  destruct Hs as [(Hh & Hn & Hc)|(Hh & Ht)].
  - rewrite Hh, Hn, Hc. reflexivity.
  - rewrite Hh, Ht. reflexivity.
Qed.

(** X19.  In single mode a check that finds the same value again changes
    nothing.  When a check of a watching instance returns and the next
    evaluation yields the same value [v], which is not [undefined] and
    which the value comparer takes for itself, the next check returns and
    changes nothing but the count of evaluations: no handle is rebound, no
    hook is called, no event is emitted and the tracked value stays. *)
Theorem single_mode_same_value_again (v : value) (s s1 : world) :
  singleMode (self s) = true ->
  isWatching (self s) = true ->
  selector s (evaluations s) = v ->
  selector s (S (evaluations s)) = v ->
  v <> VUndefined ->
  valueComparer (self s) v v = true ->
  watcherChecker s = Ret tt s1 ->
  watcherChecker s1 = Ret tt (put_evaluations (S (evaluations s1)) s1).
Proof.
  intros Hm Hw Hv Hv' Hu Hrefl H.
  unfold watcherChecker, bind, this, gets, evaluateOnce in H.
  rewrite Hw in H. cbn [negb] in H. rewrite Hm, Hv in H.
  set (s0 := put_evaluations (S (evaluations s)) s) in H.
  assert (K : (valueComparer (self s1), isWatching (self s1),
               singleMode (self s1))
              = (valueComparer (self s), isWatching (self s),
                 singleMode (self s))).
  { pose proof (single_pass_keeps_comparer v s0) as K.
    rewrite H in K. exact K. }
  injection K as Kc Kw Km.
  assert (Ke : (selector s1, evaluations s1)
               = (selector s, S (evaluations s))).
  { assert (K : keeps (fun s => (selector s, evaluations s))
                   (singleModeWatcherCallback v))
      by (apply singleModeWatcherCallback_keeps; intros; reflexivity).
    specialize (K s0). rewrite H in K. exact K. }
  injection Ke as Ks Ke.
  pose proof (@single_pass_settles v s0 s1 H Hrefl) as St.
  unfold watcherChecker, bind, this, gets, evaluateOnce.
  rewrite Kw, Hw. cbn [negb]. rewrite Km, Hm, Ks, Ke, Hv'.
  rewrite <- Ke.
  apply single_pass_unchanged; [exact Hu| |exact St].
  intros n ->. cbn [heap self put_evaluations].
  exact (@single_pass_binds_first _ _ _ H).
Qed.

Lemma single_mode_same_value_again_witness :
  watcherChecker (state_of (watcherChecker the_same_node))
  = Ret tt
      (put_evaluations
         (S (evaluations (state_of (watcherChecker the_same_node))))
         (state_of (watcherChecker the_same_node))).
Proof.
  apply (@single_mode_same_value_again (VNode 1) the_same_node).
  - vm_compute. reflexivity.
  - vm_compute. reflexivity.
  - vm_compute. reflexivity.
  - vm_compute. reflexivity.
  - discriminate.
  - vm_compute. reflexivity.
  - apply returns_unit. vm_compute. reflexivity.
Defined.

(** ** The warning about repeated keys *)

Lemma repeated_keys_warnings_note (e : effect) (s : world) :
  is_repeated_keys e = false ->
  repeated_keys_warnings (put_trace (trace s ++ [e]) s)
  = repeated_keys_warnings s.
Proof.
  intros H. unfold repeated_keys_warnings. cbn [trace put_trace].
  rewrite filter_app. cbn [filter]. rewrite H, app_nil_r. reflexivity.
Qed.

Ltac tally_leaf :=
  intros; cbv beta; unfold repeated_keys_tally;
  first [ reflexivity
        | rewrite repeated_keys_warnings_note by reflexivity; reflexivity ].

Ltac tally_step :=
  lazymatch goal with
  | |- keeps _ (bind _ _) => apply keeps_bind; [|intros ?]
  | |- keeps _ (ret _) => apply keeps_ret
  | |- keeps _ (throw _) => apply keeps_throw
  | |- keeps _ (gets _) => apply keeps_gets
  | |- keeps _ (when _ _) => apply keeps_when
  | |- keeps _ (for_each _ _) => apply keeps_for_each; intros ?
  | |- keeps _ (zoom _ _ _) => apply keeps_zoom; tally_leaf
  | |- keeps _ (modify _) => apply keeps_modify; tally_leaf
  | |- keeps _ (match ?x with _ => _ end) => destruct x
  | |- keeps _ (let _ := _ in _) => cbv zeta
  | |- keeps _ _ =>
      progress unfold this, update_this, in_heap, note, noNeedInSingleMode,
        raise, listening_to, bind_first, apply_remove, apply_target_change,
        apply_warn_mutation, stopWatch, resolve
  end.

Ltac tally := repeat tally_step.

Lemma run_awaiters_tally (nodes : list value) (l : list awaiter) :
  keeps repeated_keys_tally (run_awaiters nodes l).
Proof.
  induction l as [|a l IH]; simpl; tally; try exact IH.
Qed.

Lemma emit_tally (e : event) : keeps repeated_keys_tally (emit e).
Proof. unfold emit. tally; apply run_awaiters_tally. Qed.

Lemma add_new_keys_tally (find_new : value -> value) (keys : list value)
  (next : next_maps) :
  keeps repeated_keys_tally (add_new_keys find_new keys next).
Proof.
  revert next. induction keys as [|k keys IH]; intros next; simpl;
    tally; try apply IH.
Qed.

Lemma schedule_removals_tally (w : watcher) (gone : list value) :
  keeps repeated_keys_tally (schedule_removals w gone).
Proof. unfold schedule_removals. tally. Qed.

Lemma rebind_changed_tally (w : watcher)
  (changed : list (value * value * value * value)) :
  keeps repeated_keys_tally (rebind_changed w changed).
Proof. unfold rebind_changed. tally. Qed.

Lemma singleModeWatcherCallback_tally (v : value) :
  keeps repeated_keys_tally (singleModeWatcherCallback v).
Proof. unfold singleModeWatcherCallback. tally; apply emit_tally. Qed.

Lemma within_tally (b B : nat) (s s' : world) :
  repeated_keys_tally s' = repeated_keys_tally s ->
  within b B s -> within b B s'.
Proof.
  unfold repeated_keys_tally, within. intros [= -> ->] H. exact H.
Qed.

Lemma warn_once_left (w : Warning.t) :
  Warning.once w = Warning.OnceBool true ->
  Warning.once (fst (Warning.warn w)) = Warning.OnceBool true
  /\ (warnings_left (fst (Warning.warn w))
      + (if snd (Warning.warn w) then 1 else 0))%nat = warnings_left w.
Proof.
  destruct w as [i n o]. unfold Warning.warn, warnings_left.
  cbn [Warning.once Warning.ignored Warning.warned]. intros ->.
  destruct i; [cbn; auto|]. destruct n; cbn; auto.
Qed.

Lemma raise_repeated_keys_within (b B : nat) (uniq allKeys : list value) :
  preserves (within b B)
    (raise _warning_repeated_keys set_warning_repeated_keys
       (RepeatedKeys uniq allKeys)).
Proof.
  intros s (Ho & Hb & HB).
  destruct (warn_once_left _ Ho) as [Ho' Hl].
  unfold raise, bind, this, gets, update_this, when, note, ret, modify.
  unfold within.
  destruct (snd (Warning.warn (_warning_repeated_keys (self s))));
    cbn [state_of self put_self put_trace _warning_repeated_keys
         set_warning_repeated_keys];
    unfold repeated_keys_warnings in *;
    cbn [trace put_self put_trace];
    rewrite ?filter_app, ?length_app;
    cbn [filter is_repeated_keys List.length];
    repeat split; try assumption; lia.
Qed.

Lemma normalModeWatcherCallback_within (b B : nat) (cur : list value) :
  preserves (within b B) (normalModeWatcherCallback cur).
Proof.
  unfold normalModeWatcherCallback.
  apply preserves_bind.
  { apply (@preserves_keeps _ _ _ repeated_keys_tally _
             (@within_tally b B)). tally. }
  intros w. cbv zeta.
  apply preserves_bind.
  { destruct (Nat.ltb _ _); cbn [when].
    - apply raise_repeated_keys_within.
    - intros s H. exact H. }
  intros _.
  apply (@preserves_keeps _ _ _ repeated_keys_tally _ (@within_tally b B)).
  tally;
    first [ apply schedule_removals_tally
          | apply add_new_keys_tally
          | apply rebind_changed_tally
          | apply emit_tally ].
Qed.

Lemma watcherChecker_within (b B : nat) :
  preserves (within b B) watcherChecker.
Proof.
  unfold watcherChecker.
  apply preserves_bind.
  { apply (@preserves_keeps _ _ _ repeated_keys_tally _
             (@within_tally b B)). tally. }
  intros w. destruct (negb (isWatching w)).
  { intros s H. exact H. }
  apply preserves_bind.
  { apply (@preserves_keeps _ _ _ repeated_keys_tally _
             (@within_tally b B)). intros s. reflexivity. }
  intros v. destruct (singleMode w).
  - apply (@preserves_keeps _ _ _ repeated_keys_tally _
             (@within_tally b B)).
    apply singleModeWatcherCallback_tally.
  - destruct v; try (intros ? H; exact H).
    apply normalModeWatcherCallback_within.
Qed.

Lemma checks_within (b B n : nat) :
  forall s, within b B s -> within b B (checks n s).
Proof.
  induction n as [|n IH]; intros s H; [exact H|].
  cbn [checks]. apply IH. apply watcherChecker_within. exact H.
Qed.

(** X20.  The warning about repeated keys is printed once at most.  On an
    instance whose warning is of [once: true], as the constructor makes it,
    any number of checks prints it once at most, and not at all if it has
    been printed before or is ignored; after
    [omitWarningForRepeatedKeys()], in either mode, no check prints it. *)
Theorem repeated_keys_are_reported_once (n : nat) (s : world) :
  Warning.once (_warning_repeated_keys (self s)) = Warning.OnceBool true ->
  (repeated_keys_warnings s <= repeated_keys_warnings (checks n s)
   <= S (repeated_keys_warnings s))%nat
  /\ (Warning.ignored (_warning_repeated_keys (self s)) = true
      \/ Warning.warned (_warning_repeated_keys (self s)) <> 0%nat ->
      repeated_keys_warnings (checks n s) = repeated_keys_warnings s)
  /\ repeated_keys_warnings
       (checks n (state_of (omitWarningForRepeatedKeys s)))
     = repeated_keys_warnings s.
Proof.
  intros Ho.
  set (w := _warning_repeated_keys (self s)) in *.
  assert (H : within (warnings_left w)
                (repeated_keys_warnings s + warnings_left w) s).
  { unfold within. fold w. auto. }
  apply (@checks_within _ _ n) in H. destruct H as (_ & Hb & HB).
  assert (L : (warnings_left w <= 1)%nat).
  { unfold warnings_left. destruct (_ || _); lia. }
  split; [lia|]. split.
  - intros Hq.
    assert (Z : warnings_left w = 0%nat).
    { unfold warnings_left. destruct Hq as [->|Hq]; [reflexivity|].
      apply Nat.eqb_neq in Hq. rewrite Hq, Bool.orb_true_r. reflexivity. }
    lia.
  - set (s' := state_of (omitWarningForRepeatedKeys s)).
    assert (H : within 0 (repeated_keys_warnings s) s').
    { unfold s', omitWarningForRepeatedKeys, noNeedInSingleMode, bind, this,
        gets, when, note, update_this, ret, modify.
      destruct (singleMode (self s)); cbn [state_of].
      - unfold within. cbn [self put_self put_trace _warning_repeated_keys
                            set_warning_repeated_keys].
        unfold Warning.set_ignored, warnings_left.
        cbn [Warning.once Warning.ignored orb]. fold w.
        split; [exact Ho|]. split; [lia|].
        unfold repeated_keys_warnings. cbn [trace put_self put_trace].
        rewrite filter_app, length_app. cbn. lia.
      - unfold within. cbn [self put_self _warning_repeated_keys
                            set_warning_repeated_keys].
        unfold Warning.set_ignored, warnings_left.
        cbn [Warning.once Warning.ignored orb]. fold w.
        split; [exact Ho|]. split; [lia|].
        unfold repeated_keys_warnings. cbn [trace put_self]. lia. }
    apply (@checks_within _ _ n) in H. destruct H as (_ & Hb' & HB').
    lia.
Qed.

Lemma repeated_keys_are_reported_once_witness :
  (repeated_keys_warnings same_key_twice
   <= repeated_keys_warnings (checks 3 same_key_twice)
   <= S (repeated_keys_warnings same_key_twice))%nat
  /\ (Warning.ignored (_warning_repeated_keys (self same_key_twice)) = true
      \/ Warning.warned (_warning_repeated_keys (self same_key_twice))
         <> 0%nat ->
      repeated_keys_warnings (checks 3 same_key_twice)
      = repeated_keys_warnings same_key_twice)
  /\ repeated_keys_warnings
       (checks 3 (state_of (omitWarningForRepeatedKeys same_key_twice)))
     = repeated_keys_warnings same_key_twice.
Proof.
  apply (@repeated_keys_are_reported_once 3 same_key_twice).
  vm_compute. reflexivity.
Defined.

(** ** Single mode: the settings of the keys *)

(** A single-mode pass reads neither the settings of the keys nor the
    trace. *)
Lemma singleModeWatcherCallback_key_settings (p : list effect)
  (assigner : option (value -> nat -> list value -> value))
  (cmp : value -> value -> bool) (wr : Warning.t) (v : value) (s : world) :
  singleModeWatcherCallback v
    (with_history p (with_key_settings assigner cmp wr s))
  = match singleModeWatcherCallback v s with
    | Ret a s1 =>
        Ret a (with_history p (with_key_settings assigner cmp wr s1))
    | Throw e s1 =>
        Throw e (with_history p (with_key_settings assigner cmp wr s1))
    end.
Proof.
  unfold singleModeWatcherCallback, bind_first, apply_remove,
    apply_target_change, apply_warn_mutation, emit, update_this, in_heap,
    zoom, note, when, this, gets, bind, ret, throw, modify.
  unfold with_history, with_key_settings.
  destruct v; cbv beta iota;
    repeat (cbn [self heap put_self put_heap put_trace trace
                 singleModeHasLastValue singleModeLastValue
                 singleModeCallback useForeachFn valueComparer
                 _firstVirtualNode set_mapNodeToKey set_keyComparer
                 set_warning_repeated_keys set_singleModeLast
                 set_singleModeCallback isNil truthy instanceofNode
                 andb negb];
            match goal with
            | |- context [match ?x with _ => _ end] =>
                lazymatch x with
                | context [match _ with _ => _ end] => fail
                | _ => destruct x
                end
            end);
    cbn [self heap put_self put_heap put_trace trace
         set_mapNodeToKey set_keyComparer set_warning_repeated_keys
         set_singleModeLast set_singleModeCallback];
    rewrite <- ?app_assoc; reflexivity.
Qed.

Lemma watcherChecker_key_settings (p : list effect)
  (assigner : option (value -> nat -> list value -> value))
  (cmp : value -> value -> bool) (wr : Warning.t) (s : world) :
  singleMode (self s) = true ->
  state_of (watcherChecker
              (with_history p (with_key_settings assigner cmp wr s)))
  = with_history p
      (with_key_settings assigner cmp wr (state_of (watcherChecker s))).
Proof.
  intros Hm. unfold watcherChecker. rewrite !bind_this.
  change (isWatching (self (with_history p
                              (with_key_settings assigner cmp wr s))))
    with (isWatching (self s)).
  change (singleMode (self (with_history p
                              (with_key_settings assigner cmp wr s))))
    with (singleMode (self s)).
  destruct (negb (isWatching (self s))); [reflexivity|].
  rewrite Hm. unfold bind, evaluateOnce.
  change (put_evaluations _ (with_history p
                               (with_key_settings assigner cmp wr s)))
    with (with_history p
            (with_key_settings assigner cmp wr
               (put_evaluations (S (evaluations s)) s))).
  rewrite singleModeWatcherCallback_key_settings.
  change (selector (with_history p (with_key_settings assigner cmp wr s))
            (evaluations
               (with_history p (with_key_settings assigner cmp wr s))))
    with (selector s (evaluations s)).
  destruct (singleModeWatcherCallback _ _); reflexivity.
Qed.

Lemma checks_key_settings (p : list effect)
  (assigner : option (value -> nat -> list value -> value))
  (cmp : value -> value -> bool) (wr : Warning.t) (n : nat) :
  forall s,
  singleMode (self s) = true ->
  checks n (with_history p (with_key_settings assigner cmp wr s))
  = with_history p (with_key_settings assigner cmp wr (checks n s)).
Proof.
  induction n as [|n IH]; intros s Hm; [reflexivity|].
  cbn [checks]. rewrite watcherChecker_key_settings by exact Hm.
  apply IH.
  assert (T : settings (state_of (watcherChecker s)) = settings s)
    by apply watcherChecker_keeps_settings.
  unfold settings in T. congruence.
Qed.

(** Checks after a change of the settings of the keys, in terms of the
    checks without it *)
Lemma checks_after_the_call (p : list effect)
  (assigner : option (value -> nat -> list value -> value))
  (cmp : value -> value -> bool) (wr : Warning.t) (n : nat) (s : world) :
  singleMode (self s) = true ->
  trace (checks n s)
  = (trace s ++ trace (checks n (put_trace [] s)))%list
  /\ checks n (put_trace (trace s ++ p)
                 (with_key_settings assigner cmp wr s))
     = put_trace (trace s ++ p ++ trace (checks n (put_trace [] s)))
         (with_key_settings assigner cmp wr (checks n s)).
Proof.
  intros Hm.
  assert (Hm0 : singleMode (self (put_trace [] s)) = true) by exact Hm.
  assert (E : s = with_history (trace s)
                    (with_key_settings (mapNodeToKey (self s))
                       (keyComparer (self s))
                       (_warning_repeated_keys (self s))
                       (put_trace [] s))).
  { destruct s as [w hp sel ev i a t]. destruct w.
    unfold with_history, with_key_settings. cbn. rewrite app_nil_r.
    reflexivity. }
  assert (E' : put_trace (trace s ++ p)
                 (with_key_settings assigner cmp wr s)
               = with_history (trace s ++ p)
                   (with_key_settings assigner cmp wr (put_trace [] s))).
  { destruct s as [w hp sel ev i a t]. destruct w.
    unfold with_history, with_key_settings. cbn. rewrite app_nil_r.
    reflexivity. }
  assert (C : checks n s
              = with_history (trace s)
                  (with_key_settings (mapNodeToKey (self s))
                     (keyComparer (self s))
                     (_warning_repeated_keys (self s))
                     (checks n (put_trace [] s)))).
  { etransitivity; [|apply checks_key_settings; exact Hm0].
    f_equal. exact E. }
  rewrite E', checks_key_settings by exact Hm0.
  rewrite C. clear E E' C.
  generalize (trace s) as t0. intros t0.
  destruct (checks n (put_trace [] s)) as [w hp sel ev i a t]. destruct w.
  unfold with_history, with_key_settings. cbn. rewrite <- app_assoc.
  split; reflexivity.
Qed.

Ltac settle :=
  unfold noNeedInSingleMode, update_this, bind, this, gets, when, note, ret,
    modify;
  match goal with Hm : singleMode _ = true |- _ => rewrite Hm end;
  match goal with
  | s : world |- _ => destruct s as [w ? ? ? ? ? ?]; destruct w
  end;
  reflexivity.

(** X21.  In single mode the settings of the keys have no effect.  When
    [assignKeys], [setComparer] with a key comparer, or
    [omitWarningForRepeatedKeys] is called in single mode, the setting is
    stored and the message that the method has no effect is printed; any
    number of checks afterwards print and call what they would have
    without the call, [d], and leave the instance as they would have left
    it, but for the stored setting and the message. *)
Theorem key_settings_have_no_effect_in_single_mode (n : nat) (s : world)
  (keyAssigner : value -> nat -> list value -> value)
  (keyCmp : value -> value -> bool) :
  singleMode (self s) = true ->
  exists d,
    trace (checks n s) = (trace s ++ d)%list
    /\ checks n (state_of (assignKeys keyAssigner s))
       = put_trace
           (trace s ++ ConsoleWarn (NoEffectInSingleMode "assignKeys") :: d)
           (with_key_settings (Some keyAssigner) (keyComparer (self s))
              (_warning_repeated_keys (self s)) (checks n s))
    /\ checks n (state_of (setComparer (Some keyCmp) None s))
       = put_trace
           (trace s ++ ConsoleWarn (NoEffectInSingleMode "setComparer") :: d)
           (with_key_settings (mapNodeToKey (self s)) keyCmp
              (_warning_repeated_keys (self s)) (checks n s))
    /\ checks n (state_of (omitWarningForRepeatedKeys s))
       = put_trace
           (trace s
            ++ ConsoleWarn (NoEffectInSingleMode "omitWarningForRepeatedKeys")
            :: d)
           (with_key_settings (mapNodeToKey (self s)) (keyComparer (self s))
              (Warning.set_ignored true (_warning_repeated_keys (self s)))
              (checks n s)).
Proof.
  intros Hm. exists (trace (checks n (put_trace [] s))).
  split; [apply (@checks_after_the_call [] None (fun _ _ => true)
                   (Warning.warning (Warning.OnceBool true)) n s Hm)|].
  split; [|split].
  - destruct (@checks_after_the_call
                [ConsoleWarn (NoEffectInSingleMode "assignKeys")]
                (Some keyAssigner) (keyComparer (self s))
                (_warning_repeated_keys (self s)) n s Hm) as [_ H].
    cbn [app] in H. rewrite <- H. clear H.
    f_equal. unfold assignKeys. settle.
  - destruct (@checks_after_the_call
                [ConsoleWarn (NoEffectInSingleMode "setComparer")]
                (mapNodeToKey (self s)) keyCmp
                (_warning_repeated_keys (self s)) n s Hm) as [_ H].
    cbn [app] in H. rewrite <- H. clear H.
    f_equal. unfold setComparer. settle.
  - destruct (@checks_after_the_call
                [ConsoleWarn
                   (NoEffectInSingleMode "omitWarningForRepeatedKeys")]
                (mapNodeToKey (self s)) (keyComparer (self s))
                (Warning.set_ignored true (_warning_repeated_keys (self s)))
                n s Hm) as [_ H].
    cbn [app] in H. rewrite <- H. clear H.
    f_equal. unfold omitWarningForRepeatedKeys. settle.
Qed.

Lemma key_settings_have_no_effect_in_single_mode_witness :
  exists d,
    trace (checks 2 the_same_node) = (trace the_same_node ++ d)%list
    /\ checks 2 (state_of (assignKeys (fun _ _ _ => VStr "k")
                             the_same_node))
       = put_trace
           (trace the_same_node
            ++ ConsoleWarn (NoEffectInSingleMode "assignKeys") :: d)
           (with_key_settings (Some (fun _ _ _ => VStr "k"))
              (keyComparer (self the_same_node))
              (_warning_repeated_keys (self the_same_node))
              (checks 2 the_same_node)).
Proof.
  destruct (@key_settings_have_no_effect_in_single_mode 2 the_same_node
              (fun _ _ _ => VStr "k") strict_eq) as (d & H1 & H2 & _).
  - vm_compute. reflexivity.
  - exists d. split; [exact H1|exact H2].
Defined.

(** ** A mutation hook for a value that is not a node *)

Lemma repeated_keys_step_returns (c : bool) (m : console_message)
  (s : world) :
  exists s1,
    when c (raise _warning_repeated_keys set_warning_repeated_keys m) s
    = Ret tt s1
    /\ settings s1 = settings s
    /\ generation s1 = generation s.
Proof.
  unfold when. destruct c; [|exists s; auto].
  unfold raise, bind, this, gets, update_this, when, note, ret, modify.
  destruct (snd _); eexists; repeat split; reflexivity.
Qed.

Lemma bind_throws (S A B : Type) (m : M S A) (k : A -> M S B) (s : S)
  (e : js_error) (s' : S) :
  m s = Throw e s' -> bind m k s = Throw e s'.
Proof. intros H. unfold bind. rewrite H. reflexivity. Qed.

Lemma add_new_keys_mutation_hook (fn : forEachFn)
  (find_new : value -> value) (k : value) (rest : list value)
  (next : next_maps) (s : world) :
  useForeachFn (self s) = Some fn ->
  instanceofNode (find_new k) = false ->
  mutation_of (fn (WithoutNode (find_new k) k)) <> None ->
  add_new_keys find_new (k :: rest) next s
  = Throw (TypeError "args[0] is not a function")
      (put_trace (trace s ++ [Factory (WithoutNode (find_new k) k)]) s).
Proof.
  intros Hfn Hn Hm. cbn [add_new_keys]. rewrite bind_this, Hfn.
  destruct (find_new k) eqn:Hv; try discriminate Hn.
  all: unfold bind, note, modify, apply_warn_mutation, throw;
    destruct (mutation_of _); [reflexivity|contradiction].
Qed.

(** X22.  A mutation hook for a value that is not a node.  When the first
    new key of a pass stands for a value that is not a node and the
    callback factory returns hooks with [onNodeMutation] for it, the pass
    does not print the warning it was to print: it throws a [TypeError],
    the warning object being called as a function.  The factory has been
    called; the generation is not assigned, so the key is new again in the
    next pass. *)
Theorem mutation_hook_without_node_throws (cur : list value) (s : world)
  (fn : forEachFn) (k : value) (rest : list value) :
  useForeachFn (self s) = Some fn ->
  newKeys (self s) (keys_of (self s) cur) = k :: rest ->
  instanceofNode (findFromNew (self s) cur (keys_of (self s) cur) k)
  = false ->
  mutation_of
    (fn (WithoutNode (findFromNew (self s) cur (keys_of (self s) cur) k) k))
  <> None ->
  exists s',
    normalModeWatcherCallback cur s
    = Throw (TypeError "args[0] is not a function") s'
    /\ generation s' = generation s
    /\ exists warned,
         trace s'
         = (trace s ++ map ConsoleWarn warned
              ++ [Factory
                    (WithoutNode
                       (findFromNew (self s) cur (keys_of (self s) cur) k)
                       k)])%list.
Proof.
  intros Hfn Hnew Hn Hm.
  unfold normalModeWatcherCallback. rewrite bind_this. cbv zeta.
  match goal with
  | |- exists s', bind (when ?c (raise _ _ ?m)) _ _ = _ /\ _ =>
      destruct (repeated_keys_step_returns c m s) as (s1 & H1 & T1 & G1);
      assert (R1 : exists warned,
                     trace s1 = (trace s ++ map ConsoleWarn warned)%list)
  end.
  { assert (Q : quiet (when (Nat.ltb
                (List.length (Lodash.uniqWith (keyComparer (self s))
                                (keys_of (self s) cur)))
                (List.length (keys_of (self s) cur)))
                (raise _warning_repeated_keys set_warning_repeated_keys
                   (RepeatedKeys
                      (Lodash.uniqWith (keyComparer (self s))
                         (keys_of (self s) cur))
                      (keys_of (self s) cur))))).
    { apply quiet_when, quiet_raise. }
    destruct (Q s) as (_ & _ & msgs & E). rewrite H1 in E.
    exists msgs. exact E. }
  destruct R1 as (warned & R1).
  rewrite (@bind_step _ _ _ _ _ _ _ _ H1).
  rewrite (@bind_step _ _ _ _ _ _ _ _ (schedule_removals_queues _ _ _)).
  rewrite Hnew.
  match goal with
  | |- exists s', bind (add_new_keys ?f _ ?nx) _ ?st = _ /\ _ =>
      pose proof (@add_new_keys_mutation_hook fn f k rest nx st) as A
  end.
  assert (F : useForeachFn (self s1) = Some fn).
  { unfold settings in T1. rewrite <- Hfn. congruence. }
  specialize (A F Hn Hm).
  eexists. split; [apply bind_throws; exact A|].
  split.
  - rewrite <- G1. reflexivity.
  - exists warned. cbn [trace put_trace put_idle]. rewrite R1, <- app_assoc.
    reflexivity.
Qed.

Lemma mutation_hook_without_node_throws_witness :
  exists s',
    normalModeWatcherCallback [VStr "a"; VStr "b"]
      (state_of (useForeach (AFunction mutation_hooks)
                   (construct letters_a_b)))
    = Throw (TypeError "args[0] is not a function") s'.
Proof.
  destruct (@mutation_hook_without_node_throws [VStr "a"; VStr "b"]
              (state_of (useForeach (AFunction mutation_hooks)
                           (construct letters_a_b)))
              mutation_hooks (VStr "a") [VStr "b"])
    as (s' & H & _).
  - vm_compute. reflexivity.
  - vm_compute. reflexivity.
  - vm_compute. reflexivity.
  - vm_compute. discriminate.
  - exists s'. exact H.
Defined.
